(** * dens: an archetype based entity/component registry

    Shallow embedding of [dens/entity.hpp], [dens/registry.hpp],
    [dens/system.hpp] and the [update] of [dens/system_group.hpp]. The
    header [dens/detail/archetype.hpp] (type signatures, archetypes, the
    archetype map) is not among the sources: what the registry calls from it
    is modelled from the specification, each definition saying so.

    - [std::size_t] values that are identifiers (entity ids, registry ids,
      type signatures) are numbers in [N]; the only arithmetic the registry
      performs on them is the pre-increment of a counter, whose 64-bit
      wrap-around is written out in [size_t_incr].
    - Row indices and container sizes are [nat].
    - [std::unordered_map] is a [gmap]; [std::vector] is a [list].
    - A [detail::archetype*] held by a record points into the node-based
      archetype map, whose elements never move: the pointer is modelled by
      the key of the archetype it points to, so that every mutation of an
      archetype is seen through every record that refers to it.
    - [assert] is the debug-build assertion: a failed one ends the run with
      [AssertionFailed]. [std::vector::at] out of range is [OutOfRange];
      what C++ leaves undefined (a dangling or null pointer dereferenced, a
      pop from an empty vector) is [Undefined].
    - [order_t], a [std::int64_t] that is only compared, is in [Z]. The
      overrides of the systems and [std::sort] are parameters: an override
      is any function of its object, the registry and what it may change
      outside; the sort is any rearrangement that leaves no entry before one
      of lower order. *)

From stdpp Require Import gmap strings list fin_maps pretty sorting.

(** ** Faults and the result monad *)

Inductive fault := AssertionFailed | OutOfRange | Undefined.

Inductive result (A : Type) :=
  | Ok (a : A)
  | Err (f : fault).
Arguments Ok {A} a.
Arguments Err {A} f.

#[global] Instance result_ret : MRet result := λ A a, Ok a.
#[global] Instance result_bind : MBind result := λ A B k c,
  match c with
  | Ok a => k a
  | Err f => Err f
  end.

#[global] Instance fault_eq_dec : EqDecision fault.
Proof. solve_decision. Defined.

Definition assert (b : bool) : result unit :=
  if b then Ok tt else Err AssertionFailed.

(** ** entity.hpp *)

Definition size_t_incr (n : N) : N := ((n + 1) mod 2 ^ 64)%N.

Record entity := Entity { entity_id : N; registry_id : N }.

Definition null_id : N := 0%N.

#[global] Instance entity_eq_dec : EqDecision entity.
Proof. solve_decision. Defined.

#[global] Instance entity_countable : Countable entity.
Proof.
  apply (inj_countable' (λ e, (entity_id e, registry_id e))
                        (λ p, Entity p.1 p.2)).
  by intros [].
Defined.

(** Modelled from the spec: a type signature [detail::sign_t], whose
    declaration is in the absent [detail/archetype.hpp], is the integer token
    of a component type; two signatures are equal iff they denote the same
    type. *)
Abbreviation sign_t := N (only parsing).

(** An archetype pointer: the key of the archetype in the archetype map. *)
Abbreviation arch_ptr := (list N) (only parsing).

Section Registry.

(** Component values are type erased: one universe [value] holds the values
    of every component type, and [default_value T] is [T{}]. *)
Context {value : Type}.
Variable default_value : sign_t → value.

(** [registry::s_name_prefix] *)
Variable s_name_prefix : string.

(** ** detail/archetype.hpp *)

(** Modelled from the spec: [detail::archetype], whose header is not part of
    the sources. An archetype is its id (the ordered signatures), one entity
    per row, and one column of values per signature. *)
Record archetype := Archetype {
  arch_id : list sign_t;
  arch_entities : list entity;
  arch_columns : gmap sign_t (list value);
}.

(** Modelled from the spec: ArchetypeId [insert(sig)], which keeps the
    sequence sorted and does nothing when [sig] is present. *)
Fixpoint id_insert (s : sign_t) (l : list sign_t) : list sign_t :=
  match l with
  | [] => [s]
  | x :: l' =>
      if (s <? x)%N then s :: l
      else if (s =? x)%N then l
      else x :: id_insert s l'
  end.

(** Modelled from the spec: ArchetypeId [remove(sig)], a no-op when [sig] is
    absent; this is [archetype::id_t::make] as [do_detach] uses it. *)
Definition id_make (s : sign_t) (l : list sign_t) : list sign_t :=
  filter (λ x, x ≠ s) l.

(** Modelled from the spec: the canonical (sorted) id of a list of
    signatures, [ArchetypeId{sig<T>...}]. *)
Definition make_id (signs : list sign_t) : list sign_t :=
  foldr id_insert [] signs.

(** Modelled from the spec: [archetype::size], the number of rows. *)
Definition arch_size (a : archetype) : nat := length (arch_entities a).

(** Modelled from the spec: [archetype::is_last(row)]. *)
Definition is_last (i : nat) (a : archetype) : bool :=
  bool_decide (S i = arch_size a).

(** Modelled from the spec: [archetype::find<T>], the column of the
    signature when the archetype has one. *)
Definition arch_find (s : sign_t) (a : archetype) : option (list value) :=
  arch_columns a !! s.

(** Modelled from the spec: [archetype::has_all(signs)], the subset test on
    the id. *)
Definition has_all (signs : list sign_t) (a : archetype) : bool :=
  forallb (λ s, bool_decide (s ∈ arch_id a)) signs.

(** Modelled from the spec: [archetype::has_any(signs)], the intersection
    test on the id. *)
Definition has_any (signs : list sign_t) (a : archetype) : bool :=
  existsb (λ s, bool_decide (s ∈ arch_id a)) signs.

(** Modelled from the spec: [archetype::push_back(e)] appends [e] to the
    entities only. *)
Definition push_back (e : entity) (a : archetype) : archetype :=
  {| arch_id := arch_id a;
     arch_entities := arch_entities a ++ [e];
     arch_columns := arch_columns a |}.

(** Modelled from the spec: [archetype::emplace_back<T>(t)] appends [t] to
    the column of [T] and returns that column. *)
Definition arch_emplace_back (s : sign_t) (t : value) (a : archetype)
  : result (archetype * list value) :=
  match arch_columns a !! s with
  | Some col =>
      Ok ({| arch_id := arch_id a;
             arch_entities := arch_entities a;
             arch_columns := <[s := col ++ [t]]> (arch_columns a) |},
          col ++ [t])
  | None => Err Undefined
  end.

(** [std::vector::pop_back] *)
Definition list_pop_back {X} (l : list X) : list X :=
  take (pred (length l)) l.

(** Exchange of the element at [i] with the last one. *)
Definition list_swap_back {X} (i : nat) (l : list X) : list X :=
  match l !! i, last l with
  | Some x, Some y => <[i := y]> (<[pred (length l) := x]> l)
  | _, _ => l
  end.

(** Modelled from the spec: [archetype::swap_back(row)] rotates [row] to the
    back (entities and every column) and returns the displaced entity, the
    one that now occupies [row]. *)
Definition swap_back (i : nat) (a : archetype) : result (entity * archetype) :=
  match arch_entities a !! i, last (arch_entities a) with
  | Some _, Some d =>
      Ok (d, {| arch_id := arch_id a;
                arch_entities := list_swap_back i (arch_entities a);
                arch_columns := list_swap_back i <$> arch_columns a |})
  | _, _ => Err Undefined
  end.

(** Modelled from the spec: [archetype::pop_back] drops the last row. *)
Definition pop_back (a : archetype) : result archetype :=
  match arch_entities a with
  | [] => Err Undefined
  | _ =>
      Ok {| arch_id := arch_id a;
            arch_entities := list_pop_back (arch_entities a);
            arch_columns := list_pop_back <$> arch_columns a |}
  end.

(** Modelled from the spec: the target of [archetype::migrate_back] after it
    received the last row of [a]: every column of the target that [a] has
    too takes the last value of that column; the entity is appended. *)
Definition receive_back (e : entity) (a other : archetype) : archetype :=
  {| arch_id := arch_id other;
     arch_entities := arch_entities other ++ [e];
     arch_columns :=
       map_imap (λ s col,
         Some match arch_columns a !! s ≫= last with
              | Some v => col ++ [v]
              | None => col
              end) (arch_columns other) |}.

(** Modelled from the spec: [archetype::migrate_back(other)] works on the
    last row: each column whose signature [other] has moves its last value
    there, the others drop it; the entity is appended to [other] when there
    is one and popped here. Returns the migrated entity. *)
Definition migrate_back (other : option archetype) (a : archetype)
  : result (entity * archetype * option archetype) :=
  match last (arch_entities a) with
  | None => Err Undefined
  | Some e =>
      a' ← pop_back a;
      Ok (e, a', receive_back e a <$> other)
  end.

(** [entity_view<Types...>] of entity.hpp: the entity and, for the tuple of
    references, the values they refer to. *)
Record entity_view := EntityView {
  entity_ : entity;
  components : list value;
}.

(** Modelled from the spec: [archetype::at<T...>(row)], the entity of the
    row with its components of the requested types. *)
Definition arch_at (signs : list sign_t) (i : nat) (a : archetype)
  : result entity_view :=
  match arch_entities a !! i,
        mapM (λ s, arch_columns a !! s ≫= (.!! i)) signs with
  | Some e, Some vs => Ok (EntityView e vs)
  | _, _ => Err Undefined
  end.

(** Modelled from the spec: an archetype without rows that has one empty
    column per signature of its id. *)
Definition empty_archetype (k : list sign_t) : archetype :=
  {| arch_id := k;
     arch_entities := [];
     arch_columns := gset_to_gmap [] (list_to_set k) |}.

(** Modelled from the spec: [archetype_map::get_or_make(signs)] returns the
    archetype of the canonical id of [signs], created empty when missing.
    The result is the map and the pointer to the archetype. *)
Definition map_get_or_make (signs : list sign_t)
    (m : gmap arch_ptr archetype) : gmap arch_ptr archetype * arch_ptr :=
  let k := make_id signs in
  match m !! k with
  | Some _ => (m, k)
  | None => (<[k := empty_archetype k]> m, k)
  end.

(** Modelled from the spec: [archetype_map::copy_append<T>(source)], the
    archetype whose id is [source.id.insert(sig<T>)]. *)
Definition copy_append (s : sign_t) (a : archetype)
    (m : gmap arch_ptr archetype) : gmap arch_ptr archetype * arch_ptr :=
  map_get_or_make (id_insert s (arch_id a)) m.

(** A pointer dereferenced. *)
Definition deref (k : arch_ptr) (m : gmap arch_ptr archetype)
  : result archetype :=
  match m !! k with
  | Some a => Ok a
  | None => Err Undefined
  end.

(** ** registry.hpp *)

Record record := Record_ {
  rec_name : string;
  rec_arch : option arch_ptr;
  rec_index : nat;
}.

(** [record{}] *)
Definition record_default : record := Record_ "" None 0.

Record registry := Registry {
  m_map : gmap arch_ptr archetype;
  m_records : gmap entity record;
  m_next_id : N;
  m_id : N;
}.

(** [registry::registry()]: takes the process-wide [s_next_id] and returns
    it incremented. *)
Definition registry_new (s_next_id : N) : registry * N :=
  let i := size_t_incr s_next_id in
  (Registry ∅ ∅ 0 i, i).

Definition set_map (m : gmap arch_ptr archetype) (r : registry) : registry :=
  Registry m (m_records r) (m_next_id r) (m_id r).

Definition set_records (recs : gmap entity record) (r : registry) : registry :=
  Registry (m_map r) recs (m_next_id r) (m_id r).

(** [m_records[e]]: [operator[]] inserts [record{}] when [e] is missing. *)
Definition records_at (e : entity) (recs : gmap entity record) : record :=
  default record_default (recs !! e).

(** [m_records[e].index = i] *)
Definition set_index (e : entity) (i : nat) (recs : gmap entity record)
  : gmap entity record :=
  let rc := records_at e recs in
  <[e := Record_ (rec_name rc) (rec_arch rc) i]> recs.

Definition make_name (id : N) : string := s_name_prefix +:+ pretty id.

Definition contains (e : entity) (r : registry) : bool :=
  bool_decide (is_Some (m_records r !! e)).

Definition registry_size (r : registry) : nat := size (m_records r).

Definition registry_empty (r : registry) : bool :=
  bool_decide (m_records r = ∅).

Definition name (e : entity) (r : registry) : string :=
  match m_records r !! e with
  | Some rc => rec_name rc
  | None => ""
  end.

Definition rename (e : entity) (n : string) (r : registry) : registry * bool :=
  match m_records r !! e with
  | Some rc =>
      (set_records (<[e := Record_ n (rec_arch rc) (rec_index rc)]> (m_records r)) r,
       true)
  | None => (r, false)
  end.

Definition clear (r : registry) : registry :=
  Registry ∅ ∅ (m_next_id r) (m_id r).

(** [registry::get_or_make(e)] *)
Definition get_or_make (e : entity) (recs : gmap entity record)
  : gmap entity record * record :=
  match recs !! e with
  | Some rc => (recs, rc)
  | None => (<[e := record_default]> recs, record_default)
  end.

(** [registry::emplace_back<T>(r, arch)], for the record of [e] and the
    archetype at [k]. *)
Definition emplace_back (s : sign_t) (e : entity) (k : arch_ptr)
    (r : registry) : result registry :=
  a ← deref k (m_map r);
  match arch_columns a !! s, m_records r !! e with
  | Some col, Some rc =>
      Ok (Registry
            (<[k := {| arch_id := arch_id a;
                       arch_entities := arch_entities a;
                       arch_columns :=
                         <[s := col ++ [default_value s]]> (arch_columns a) |}]>
               (m_map r))
            (<[e := Record_ (rec_name rc) (Some k) (length col)]> (m_records r))
            (m_next_id r) (m_id r))
  | _, _ => Err Undefined
  end.

Fixpoint emplace_back_all (signs : list sign_t) (e : entity) (k : arch_ptr)
    (r : registry) : result registry :=
  match signs with
  | [] => Ok r
  | s :: signs' => r' ← emplace_back s e k r; emplace_back_all signs' e k r'
  end.

(** [registry::make_entity<Types...>(name)]. [register_types], of the absent
    archetype map, records the erased operations of the types; it has no
    effect on the state modelled here. [emplace] keeps the record of a key
    that is present. *)
Definition make_entity (types : list sign_t) (n : string) (r : registry)
  : result (registry * entity) :=
  let id := size_t_incr (m_next_id r) in
  let n := if decide (n = "") then make_name id else n in
  let e := Entity id (m_id r) in
  let recs :=
    match m_records r !! e with
    | Some _ => m_records r
    | None => <[e := Record_ n None 0]> (m_records r)
    end in
  match types with
  | [] => Ok (Registry (m_map r) recs id (m_id r), e)
  | _ =>
      let '(m, k) := map_get_or_make types (m_map r) in
      a ← deref k m;
      r' ← emplace_back_all types e k
             (Registry (<[k := push_back e a]> m) recs id (m_id r));
      Ok (r', e)
  end.

(** [registry::send_to_back(r)], for the record of [e]. *)
Definition send_to_back (e : entity) (r : registry) : result registry :=
  match m_records r !! e with
  | Some rc =>
      match rec_arch rc with
      | Some k =>
          a ← deref k (m_map r);
          if is_last (rec_index rc) a then Ok r
          else
            '(displaced, a') ← swap_back (rec_index rc) a;
            assert (bool_decide
                      (rec_arch (records_at displaced (m_records r)) = Some k));;
            Ok (Registry (<[k := a']> (m_map r))
                         (set_index displaced (rec_index rc) (m_records r))
                         (m_next_id r) (m_id r))
      | None => Err Undefined
      end
  | None => Err Undefined
  end.

(** [registry::migrate_to(out_record, out_arch)], for the record of [e].
    Source and target are distinct archetypes in every call; a migration of
    an archetype into itself is left [Undefined]. *)
Definition migrate_to (e : entity) (out_arch : option arch_ptr) (r : registry)
  : result registry :=
  r1 ← send_to_back e r;
  match m_records r1 !! e with
  | Some rc =>
      match rec_arch rc with
      | Some k =>
          a ← deref k (m_map r1);
          other ← match out_arch with
                  | Some k' =>
                      if decide (k' = k) then Err Undefined
                      else b ← deref k' (m_map r1); Ok (Some b)
                  | None => Ok None
                  end;
          '(popped, a', other') ← migrate_back other a;
          assert (bool_decide (popped = e));;
          let m1 := <[k := a']> (m_map r1) in
          let m2 := match out_arch, other' with
                    | Some k', Some b => <[k' := b]> m1
                    | _, _ => m1
                    end in
          Ok (Registry m2
                (<[e := Record_ (rec_name rc) out_arch (rec_index rc)]> (m_records r1))
                (m_next_id r1) (m_id r1))
      | None => Err Undefined
      end
  | None => Err Undefined
  end.

(** [registry::destroy(e)] *)
Definition destroy (e : entity) (r : registry) : result (registry * bool) :=
  match m_records r !! e with
  | Some rc =>
      r1 ← match rec_arch rc with
            | Some _ => migrate_to e None r
            | None => Ok r
            end;
      Ok (set_records (delete e (m_records r1)) r1, true)
  | None => Ok (r, false)
  end.

(** [registry::attach<T>(e, t)]; returns the registry and the value the
    returned reference points to. ([register_types]: see [make_entity].) *)
Definition attach (s : sign_t) (e : entity) (t : value) (r : registry)
  : result (registry * value) :=
  assert ((null_id <? entity_id e)%N && bool_decide (registry_id e = m_id r));;
  let '(recs, rc) := get_or_make e (m_records r) in
  let r := set_records recs r in
  match rec_arch rc with
  | Some k =>
      a ← deref k (m_map r);
      match arch_find s a with
      | Some col =>
          if decide (rec_index rc < length col) then
            let a' := {| arch_id := arch_id a;
                         arch_entities := arch_entities a;
                         arch_columns :=
                           <[s := <[rec_index rc := t]> col]> (arch_columns a) |} in
            Ok (set_map (<[k := a']> (m_map r)) r, t)
          else Err OutOfRange
      | None =>
          let '(m, k') := copy_append s a (m_map r) in
          r1 ← migrate_to e (Some k') (set_map m r);
          b ← deref k' (m_map r1);
          '(b', vec) ← arch_emplace_back s t b;
          assert (negb (bool_decide (vec = [])));;
          assert (bool_decide (length vec = arch_size b'));;
          Ok (Registry (<[k' := b']> (m_map r1))
                (set_index e (length vec - 1) (m_records r1))
                (m_next_id r1) (m_id r1), t)
      end
  | None =>
      let '(m, k) := map_get_or_make [s] (m_map r) in
      a ← deref k m;
      '(a', vec) ← arch_emplace_back s t (push_back e a);
      assert (negb (bool_decide (vec = [])));;
      assert (bool_decide (length vec = arch_size a'));;
      Ok (Registry (<[k := a']> m)
            (<[e := Record_ (rec_name rc) (Some k) (length vec - 1)]> (m_records r))
            (m_next_id r) (m_id r), t)
  end.

(** [registry::attach<Types...>(e)] for more than one type: each type in
    sequence, default constructed. *)
Fixpoint attach_all (signs : list sign_t) (e : entity) (r : registry)
  : result registry :=
  match signs with
  | [] => Ok r
  | s :: signs' =>
      '(r', _) ← attach s e (default_value s) r;
      attach_all signs' e r'
  end.

(** The archetype a record of [e] points to, when there is a record and
    its pointer is set. *)
Definition arch_of (e : entity) (r : registry) : result (option (record * archetype)) :=
  match m_records r !! e with
  | Some rc =>
      match rec_arch rc with
      | Some k => a ← deref k (m_map r); Ok (Some (rc, a))
      | None => Ok None
      end
  | None => Ok None
  end.

(** [registry::attached<T>(e)] *)
Definition attached (s : sign_t) (e : entity) (r : registry) : result bool :=
  o ← arch_of e r;
  match o with
  | Some (_, a) => Ok (bool_decide (is_Some (arch_find s a)))
  | None => Ok false
  end.

(** [registry::all_attached<Types...>(e)] *)
Definition all_attached (signs : list sign_t) (e : entity) (r : registry)
  : result bool :=
  o ← arch_of e r;
  match o with
  | Some (_, a) => Ok (has_all signs a)
  | None => Ok false
  end.

(** [registry::any_attached<Types...>(e)] *)
Definition any_attached (signs : list sign_t) (e : entity) (r : registry)
  : result bool :=
  o ← arch_of e r;
  match o with
  | Some (_, a) => Ok (has_any signs a)
  | None => Ok false
  end.

(** [registry::find<T>(e)]: the pointee of the returned pointer, [None] for
    the null pointer. *)
Definition find (s : sign_t) (e : entity) (r : registry)
  : result (option value) :=
  o ← arch_of e r;
  match o with
  | Some (rc, a) =>
      match arch_find s a with
      | Some col =>
          match col !! rec_index rc with
          | Some v => Ok (Some v)
          | None => Err OutOfRange
          end
      | None => Ok None
      end
  | None => Ok None
  end.

(** [registry::get<T>(e)] *)
Definition get (s : sign_t) (e : entity) (r : registry) : result value :=
  assert ((null_id <? entity_id e)%N && bool_decide (registry_id e = m_id r));;
  ret ← find s e r;
  match ret with
  | Some v => Ok v
  | None => Err AssertionFailed
  end.

(** [registry::do_detach<T>(e)] *)
Definition do_detach (s : sign_t) (e : entity) (r : registry)
  : result (registry * bool) :=
  if negb (bool_decide (registry_id e = m_id r)) then Ok (r, false)
  else
    match m_records r !! e with
    | None => Ok (r, false)
    | Some rc =>
        match rec_arch rc with
        | None => Ok (r, false)
        | Some k =>
            a ← deref k (m_map r);
            '(a1, recs1) ←
              (if is_last (rec_index rc) a then Ok (a, m_records r)
               else
                 '(swapped, a') ← swap_back (rec_index rc) a;
                 Ok (a', set_index swapped (rec_index rc) (m_records r)));
            let m1 := <[k := a1]> (m_map r) in
            let rc1 := records_at e recs1 in
            if bool_decide (length (arch_id a1) = 1) then
              a2 ← pop_back a1;
              Ok (Registry (<[k := a2]> m1) (<[e := record_default]> recs1)
                    (m_next_id r) (m_id r), true)
            else
              let id := id_make s (arch_id a1) in
              assert (negb (bool_decide (id = arch_id a1)));;
              let '(m2, k') := map_get_or_make id m1 in
              if decide (k' = k) then Err Undefined
              else
                target ← deref k' m2;
                '(migrated, a2, target') ← migrate_back (Some target) a1;
                assert (bool_decide (migrated = e));;
                match target' with
                | Some b =>
                    assert (negb (bool_decide (arch_size b = 0)));;
                    Ok (Registry (<[k' := b]> (<[k := a2]> m2))
                          (<[e := Record_ (rec_name rc1) (Some k') (arch_size b - 1)]>
                             recs1)
                          (m_next_id r) (m_id r), true)
                | None => Err Undefined
                end
        end
    end.

(** [registry::detach<Types...>(e)]: the fold [(do_detach<Types>(e) && ...)],
    evaluated left to right; [&&] does not evaluate its right operand when
    the left one is false. *)
Fixpoint detach (signs : list sign_t) (e : entity) (r : registry)
  : result (registry * bool) :=
  match signs with
  | [] => Ok (r, true)
  | s :: signs' =>
      '(r', b) ← do_detach s e r;
      if (b : bool) then detach signs' e r' else Ok (r', false)
  end.

(** [registry::append<T...>(out, arch)] *)
Fixpoint append_rows (signs : list sign_t) (a : archetype) (i n : nat)
    (out : list entity_view) : result (list entity_view) :=
  match n with
  | O => Ok out
  | S n' => v ← arch_at signs i a; append_rows signs a (S i) n' (out ++ [v])
  end.

Definition append (signs : list sign_t) (out : list entity_view)
    (a : archetype) : result (list entity_view) :=
  append_rows signs a 0 (arch_size a) out.

(** [registry::view<Types...>(exclude<Exclude...>)]: the archetypes are
    visited in the order of the map. *)
Fixpoint view_archs (types excl : list sign_t) (archs : list (arch_ptr * archetype))
    (ret : list entity_view) : result (list entity_view) :=
  match archs with
  | [] => Ok ret
  | ka :: archs' =>
      ret' ← (if has_all types ka.2 && negb (has_any excl ka.2)
              then append types ret ka.2 else Ok ret);
      view_archs types excl archs' ret'
  end.

Definition view (types excl : list sign_t) (r : registry)
  : result (list entity_view) :=
  view_archs types excl (map_to_list (m_map r)) [].

(** ** The invariants of the data model *)

(** An archetype stored under the key [k] carries that id, has exactly the
    columns of its id, and (I1) every column is as long as the entities. *)
Definition arch_ok (k : arch_ptr) (a : archetype) : Prop :=
  arch_id a = k
  ∧ dom (arch_columns a) = list_to_set k
  ∧ map_Forall (λ _ col, length col = arch_size a) (arch_columns a).

Definition archs_ok (r : registry) : Prop := map_Forall arch_ok (m_map r).

(** (I1) *)
Definition I1 (r : registry) : Prop :=
  map_Forall (λ _ a,
    map_Forall (λ _ col, length col = arch_size a) (arch_columns a)) (m_map r).

(** The row a record refers to holds the entity of the record. *)
Definition points_back (r : registry) (e : entity) (rc : record) : Prop :=
  match rec_arch rc with
  | Some k =>
      match m_map r !! k with
      | Some a => arch_entities a !! rec_index rc = Some e
      | None => False
      end
  | None => True
  end.

(** (I2) *)
Definition I2 (r : registry) : Prop := map_Forall (points_back r) (m_records r).

(** The entity of row [i] of the archetype at [k] has a record that refers
    to that row. *)
Definition recorded (r : registry) (k : arch_ptr) (ie : nat * entity) : Prop :=
  match m_records r !! ie.2 with
  | Some rc => rec_arch rc = Some k ∧ rec_index rc = ie.1
  | None => False
  end.

(** (I3), with the row: every row of every archetype is the row of the
    record of its entity. *)
Definition I3 (r : registry) : Prop :=
  map_Forall (λ k a, Forall (recorded r k) (imap pair (arch_entities a)))
    (m_map r).

(** (I3) in the words of the spec: every entity of a row has a record (the
    records are the values of a map, so it is the only one). *)
Definition I3_spec (r : registry) : Prop :=
  map_Forall (λ _ a,
    Forall (λ e, is_Some (m_records r !! e)) (arch_entities a)) (m_map r).

(** (I6) *)
Definition I6 (r : registry) : Prop :=
  map_Forall (λ e _, registry_id e = m_id r) (m_records r).

Definition wf (r : registry) : Prop := archs_ok r ∧ I2 r ∧ I3 r ∧ I6 r.

(** Every record belongs to a handle the counter has already passed. *)
Definition issued (r : registry) : Prop :=
  map_Forall (λ e _, (entity_id e ≤ m_next_id r)%N) (m_records r).

(** ** Public operations as a state machine *)

Inductive op :=
  | OpMakeEntity (types : list sign_t) (n : string)
  | OpAttach (s : sign_t) (e : entity) (t : value)
  | OpDetach (signs : list sign_t) (e : entity)
  | OpDestroy (e : entity)
  | OpRename (e : entity) (n : string)
  | OpClear.

(** One public call; the entity is the handle [make_entity] issued. *)
Definition step (o : op) (r : registry) : result (registry * option entity) :=
  match o with
  | OpMakeEntity types n => '(r', e) ← make_entity types n r; Ok (r', Some e)
  | OpAttach s e t => '(r', _) ← attach s e t r; Ok (r', None)
  | OpDetach signs e => '(r', _) ← detach signs e r; Ok (r', None)
  | OpDestroy e => '(r', _) ← destroy e r; Ok (r', None)
  | OpRename e n => Ok ((rename e n r).1, None)
  | OpClear => Ok (clear r, None)
  end.

(** A sequence of public calls; the handles issued, in order. *)
Fixpoint run (ops : list op) (r : registry) : result (registry * list entity) :=
  match ops with
  | [] => Ok (r, [])
  | o :: ops' =>
      '(r1, oe) ← step o r;
      '(r2, es) ← run ops' r1;
      Ok (r2, from_option (λ e, [e]) [] oe ++ es)
  end.

(** The calls a client makes with handles it got from [make_entity] and with
    lists of distinct types, away from the overflow of the id counter. *)
Definition op_valid (o : op) (r : registry) : Prop :=
  match o with
  | OpMakeEntity types _ => NoDup types ∧ (m_next_id r + 1 < 2 ^ 64)%N
  | OpAttach _ e _ => (entity_id e ≤ m_next_id r)%N
  | _ => True
  end.

(** A sequence of such calls, each valid in the registry it is made on. *)
Fixpoint run_valid (ops : list op) (r : registry) : Prop :=
  match ops with
  | [] => True
  | o :: ops' =>
      op_valid o r
      ∧ match step o r with
        | Ok (r1, _) => run_valid ops' r1
        | Err _ => True
        end
  end.

(** ** The effect of a row removal, for the proofs *)

(** The archetype after [swap_back i]. *)
Definition rotate_arch (i : nat) (a : archetype) : archetype :=
  {| arch_id := arch_id a;
     arch_entities := list_swap_back i (arch_entities a);
     arch_columns := list_swap_back i <$> arch_columns a |}.

(** The archetype after [pop_back]. *)
Definition popped (a : archetype) : archetype :=
  {| arch_id := arch_id a;
     arch_entities := list_pop_back (arch_entities a);
     arch_columns := list_pop_back <$> arch_columns a |}.

(** The archetype and the records once row [i] is at the back. *)
Definition at_back (i : nat) (a : archetype) : archetype :=
  if is_last i a then a else rotate_arch i a.

Definition reindexed (i : nat) (a : archetype) (recs : gmap entity record)
  : gmap entity record :=
  if is_last i a then recs
  else match last (arch_entities a) with
       | Some d => set_index d i recs
       | None => recs
       end.

(** What the re-indexing does to one record, in a well-formed registry:
    the record of the last row of the archetype at [k] moves to row [i]. *)
Definition reindex_rec (k : arch_ptr) (i : nat) (a : archetype) (rc : record)
  : record :=
  if decide (rec_arch rc = Some k ∧ rec_index rc = pred (arch_size a)
             ∧ S i ≠ arch_size a)
  then Record_ (rec_name rc) (rec_arch rc) i
  else rc.

(** The archetype after the value at row [i] of the column of [s] is
    assigned. *)
Definition assign_at (s : sign_t) (i : nat) (t : value) (col : list value)
    (a : archetype) : archetype :=
  {| arch_id := arch_id a;
     arch_entities := arch_entities a;
     arch_columns := <[s := <[i := t]> col]> (arch_columns a) |}.

(** The archetype after a row for [e] is pushed with [t] in the column of
    [s], the other columns as in [cols]. *)
Definition with_row (e : entity) (s : sign_t) (t : value) (col : list value)
    (cols : gmap sign_t (list value)) (a : archetype) : archetype :=
  {| arch_id := arch_id a;
     arch_entities := arch_entities a ++ [e];
     arch_columns := <[s := col ++ [t]]> cols |}.

(** The columns after a default value is appended to those of [types]. *)
Definition pushed (types : list sign_t) (cols : gmap sign_t (list value))
  : gmap sign_t (list value) :=
  map_imap (λ s col,
    Some (if bool_decide (s ∈ types) then col ++ [default_value s] else col))
    cols.

(** The test [view] applies to an archetype, and the entities it lists:
    those of the archetypes that pass, row by row. *)
Definition included (types excl : list sign_t) (a : archetype) : bool :=
  has_all types a && negb (has_any excl a).

Definition listed (types excl : list sign_t)
    (archs : list (arch_ptr * archetype)) : list entity :=
  mjoin ((λ ka, if included types excl ka.2 then arch_entities ka.2 else [])
           <$> archs).

(** The assertion [attach] and [get] start with. *)
Definition attach_pre (e : entity) (r : registry) : Prop :=
  (0 < entity_id e)%N ∧ registry_id e = m_id r.

(** The registry id and the id counter are those of [r]. *)
Definition same_ids (r r' : registry) : Prop :=
  m_next_id r' = m_next_id r ∧ m_id r' = m_id r.

(** The invariants are decidable: on a concrete registry they are checked
    by evaluation. *)
#[global] Instance points_back_dec r e rc : Decision (points_back r e rc).
Proof.
  unfold points_back. destruct (rec_arch rc) as [k|]; [|apply _].
  destruct (m_map r !! k); apply _.
Defined.

#[global] Instance recorded_dec r k ie : Decision (recorded r k ie).
Proof. unfold recorded. destruct (m_records r !! ie.2); apply _. Defined.

#[global] Instance arch_ok_dec k a : Decision (arch_ok k a).
Proof. unfold arch_ok. apply _. Defined.

#[global] Instance I2_dec r : Decision (I2 r).
Proof. unfold I2. apply _. Defined.

#[global] Instance I3_spec_dec r : Decision (I3_spec r).
Proof. unfold I3_spec. apply _. Defined.

#[global] Instance I6_dec r : Decision (I6 r).
Proof. unfold I6. apply _. Defined.

#[global] Instance archs_ok_dec r : Decision (archs_ok r).
Proof. unfold archs_ok. apply _. Defined.

#[global] Instance wf_dec r : Decision (wf r).
Proof. unfold wf, archs_ok, I3, I6. apply _. Defined.

#[global] Instance issued_dec r : Decision (issued r).
Proof. unfold issued. apply _. Defined.

End Registry.

(** ** Concrete registries *)

Module Example.

(** Component types [int], [string], [vec] and their values, all in [Z]. *)
Definition Int : N := 1%N.
Definition Str : N := 2%N.
Definition Vec : N := 3%N.

Definition dflt (s : N) : Z := 0%Z.
Definition prefix : string := "entity_".

(** The first registry of the process. *)
Definition fresh : @registry Z := (registry_new 0).1.

Definition state_after {A} (c : result (@registry Z * A)) : @registry Z :=
  match c with
  | Ok (r, _) => r
  | Err _ => fresh
  end.

Definition e1 : entity := Entity 1 1.
Definition e2 : entity := Entity 2 1.
Definition e3 : entity := Entity 3 1.

(** [e1 = make_entity<int>("foo")] *)
Definition one_int : @registry Z :=
  state_after (make_entity dflt prefix [Int] "foo" fresh).

(** [e1 = make_entity<int, string>(); e2 = make_entity<int, string>();
    e3 = make_entity()] *)
Definition two_pairs : @registry Z :=
  state_after (run dflt prefix
    [OpMakeEntity [Int; Str] ""; OpMakeEntity [Int; Str] "";
     OpMakeEntity [] ""] fresh).

(** [make_entity<string>(); make_entity<int>(); attach<int>({3, id}, 7);
    make_entity<string>()]: the handle [{3, id}] is attached to before the
    registry issues it. *)
Definition early_handle_calls : list (@op Z) :=
  [OpMakeEntity [Str] ""; OpMakeEntity [Int] "";
   OpAttach Int e3 7%Z; OpMakeEntity [Str] ""].

Definition early_handle : @registry Z :=
  state_after (run dflt prefix early_handle_calls fresh).

(** [e1 = make_entity<int, string>("foo")] *)
Definition one_pair : @registry Z :=
  state_after (make_entity dflt prefix [Int; Str] "foo" fresh).

(** [two_pairs] after [detach<int>(e1)] *)
Definition two_pairs_detached : @registry Z :=
  state_after (detach [Int] e1 two_pairs).

(** A handle the registry has not issued. *)
Definition e9 : entity := Entity 9 1.

End Example.

(** Registries reached with a handle that [attach] is given before
    [make_entity] issues it. *)
Module EarlyHandle.
Import Example.

(** [make_entity<string>(); make_entity<int>(); attach<int>({3, id}, 7);
    make_entity<int, string>()] *)
Definition listed_twice_calls : list (@op Z) :=
  [OpMakeEntity [Str] ""; OpMakeEntity [Int] "";
   OpAttach Int e3 7%Z; OpMakeEntity [Int; Str] ""].

Definition listed_twice : @registry Z :=
  state_after (run dflt prefix listed_twice_calls fresh).

(** [make_entity<int>(); make_entity<int>(); attach<int>({3, id}, 7);
    make_entity<string>(); detach<int>({2, id})] *)
Definition stale_row_calls : list (@op Z) :=
  [OpMakeEntity [Int] ""; OpMakeEntity [Int] "";
   OpAttach Int e3 7%Z; OpMakeEntity [Str] ""; OpDetach [Int] e2].

Definition stale_row : @registry Z :=
  state_after (run dflt prefix stale_row_calls fresh).

End EarlyHandle.

(** ** More of the sources: definitions *)

(** The columns [cols'] keep what [cols] holds, row by row, and have no
    other signature: every column is the old one with rows added at the
    back. *)
Definition extends {value} (cols cols' : gmap N (list value)) : Prop :=
  ∀ s, match cols !! s with
       | Some c => ∃ x, cols' !! s = Some (c ++ x)
       | None => cols' !! s = None
       end.

(** No record belongs to the null handle. *)
Definition nonnull {value} (r : @registry value) : Prop :=
  map_Forall (λ e _, (0 < entity_id e)%N) (m_records r).

(** *** entity.hpp: the hash of an entity *)

(** [entity::hasher]: [e.id ^ (e.registry_id << 8)], in [std::size_t]. *)
Definition hasher (e : entity) : N :=
  N.lxor (entity_id e) (N.shiftl (registry_id e) 8 mod 2 ^ 64).

(** *** system.hpp and system_group.hpp *)

Section Systems.

(** [Data] is the template argument. [S] is the state of the objects of the
    concrete classes derived from [system<Data>], and [W] what their
    overrides may change outside their own object: the registry is passed
    as a reference to const. *)
Context {value Data S W : Type}.

(** An object of a class derived from [system<Data>]: the pointer [m_data]
    of the base, null or to the data argument, and the derived part. *)
Record system := System {
  m_data : option Data;
  derived : S;
}.

(** [system::data()] *)
Definition system_data (s : system) : result Data :=
  match m_data s with
  | Some d => Ok d
  | None => Err AssertionFailed
  end.

(** The override of the pure virtual [update(registry const&)] in the
    concrete class of the object. It has the object, and so [data()], and
    the registry to read; [m_data] is private to the base. *)
Variable update_override : system → @registry value → W → result (S * W).

(** [system::update(reg, data)] *)
Definition system_update (reg : @registry value) (d : Data) (s : system)
    (w : W) : result (system * W) :=
  let s1 := System (Some d) (derived s) in
  '(st, w1) ← update_override s1 reg w;
  Ok (System None st, w1).

Record entry_t := Entry {
  sys : system;
  order : Z;
}.

(** [system_group<Data>]: the [m_data] of its base and the entries. *)
Record system_group := SystemGroup {
  group_m_data : option Data;
  m_entries : gmap sign_t entry_t;
}.

(** [this->data()] in the group. *)
Definition group_data (g : system_group) : result Data :=
  match group_m_data g with
  | Some d => Ok d
  | None => Err AssertionFailed
  end.

(** The loops of [system_group::update]: for each entry of [l], in order,
    [entry.sys->update(registry, this->data())]. A pointer to an entry is its
    key with the entry; the call leaves the new state of the system in the
    entry of the map. *)
Fixpoint update_entries (reg : @registry value) (g : system_group)
    (l : list (sign_t * entry_t)) (es : gmap sign_t entry_t) (w : W)
  : result (gmap sign_t entry_t * W) :=
  match l with
  | [] => Ok (es, w)
  | ke :: l' =>
      d ← group_data g;
      '(s1, w1) ← system_update reg d (sys ke.2) w;
      update_entries reg g l' (<[ke.1 := Entry s1 (order ke.2)]> es) w1
  end.

(** [std::sort] of the pointers with the comparison [l->order < r->order]:
    some rearrangement in which no entry comes before one of lower order. *)
Variable sort : list (sign_t * entry_t) → list (sign_t * entry_t).

(** [system_group::update(registry)], the override of the group: the entries
    in the order of the map when there are fewer than two, sorted
    otherwise. *)
Definition group_update_override (reg : @registry value) (g : system_group)
    (w : W) : result (system_group * W) :=
  let l := map_to_list (m_entries g) in
  '(es, w1) ← update_entries reg g
                (if size (m_entries g) <? 2 then l else sort l)
                (m_entries g) w;
  Ok (SystemGroup (group_m_data g) es, w1).

(** [system::update(reg, data)] on a group. *)
Definition group_update (reg : @registry value) (d : Data) (g : system_group)
    (w : W) : result (system_group * W) :=
  let g1 := SystemGroup (Some d) (m_entries g) in
  '(g2, w1) ← group_update_override reg g1 w;
  Ok (SystemGroup None (m_entries g2), w1).

(** What the overrides of the systems of [l] do to [W] when they run in the
    order of [l], each on its object with [m_data] pointing to [d]. *)
Fixpoint overrides_in_order (reg : @registry value) (d : Data)
    (l : list (sign_t * entry_t)) (w : W) : result W :=
  match l with
  | [] => Ok w
  | ke :: l' =>
      '(_, w1) ← update_override (System (Some d) (derived (sys ke.2))) reg w;
      overrides_in_order reg d l' w1
  end.

(** No entry comes before one of lower order. *)
Definition by_order (l : list (sign_t * entry_t)) : Prop :=
  Sorted (λ x y, (order x.2 ≤ order y.2)%Z) l.

End Systems.

(** A group of three counters; the overrides add the data argument to the
    counter and log it. *)
Module SystemExample.

Definition bump (s : @system Z Z) (reg : @registry Z) (w : list Z)
  : result (Z * list Z) :=
  d ← system_data s;
  Ok ((derived s + d)%Z, w ++ [derived s]).

Definition sort_entries
  : list (N * @entry_t Z Z) → list (N * @entry_t Z Z) :=
  @merge_sort _ (λ x y, (order x.2 ≤ order y.2)%Z)
    (λ x y, decide (order x.2 ≤ order y.2)%Z).

Definition three : @system_group Z Z :=
  SystemGroup None
    (<[1%N := Entry (System None 10%Z) 2]>
       (<[2%N := Entry (System None 20%Z) 0]>
          (<[3%N := Entry (System None 30%Z) 1]> ∅))).

End SystemExample.

(** ** Archetype ids *)

Lemma elem_of_id_insert (x s : sign_t) (l : list sign_t) :
  x ∈ id_insert s l ↔ x = s ∨ x ∈ l.
Proof.
  induction l as [|y l IH]; simpl.
  - rewrite list_elem_of_singleton. rewrite elem_of_nil. tauto.
  - destruct (s <? y)%N eqn:Hlt.
    + by rewrite elem_of_cons.
    + destruct (s =? y)%N eqn:Heq.
      * apply N.eqb_eq in Heq as ->. rewrite elem_of_cons. tauto.
      * rewrite !elem_of_cons, IH. tauto.
Qed.

Lemma elem_of_make_id (x : sign_t) (signs : list sign_t) :
  x ∈ make_id signs ↔ x ∈ signs.
Proof.
  induction signs as [|s signs IH]; simpl; [done|].
  rewrite elem_of_id_insert, elem_of_cons, IH. tauto.
Qed.

Lemma elem_of_id_make (x s : sign_t) (l : list sign_t) :
  x ∈ id_make s l ↔ x ∈ l ∧ x ≠ s.
Proof. unfold id_make. rewrite list_elem_of_filter. tauto. Qed.

Lemma id_make_absent (s : sign_t) (l : list sign_t) :
  s ∉ l → id_make s l = l.
Proof.
  intros Hs. unfold id_make. induction l as [|x l IH]; [done|].
  rewrite not_elem_of_cons in Hs. destruct Hs as [Hne Hs].
  rewrite filter_cons_True by done. by rewrite IH.
Qed.

Section RegistryProofs.

Context {value : Type}.
Variable default_value : sign_t → value.
Variable s_name_prefix : string.

Local Abbreviation make_name := (make_name s_name_prefix).
Local Abbreviation emplace_back := (emplace_back default_value).
Local Abbreviation emplace_back_all := (emplace_back_all default_value).
Local Abbreviation make_entity := (make_entity default_value s_name_prefix).
Local Abbreviation step := (step default_value s_name_prefix).
Local Abbreviation run := (run default_value s_name_prefix).
Local Abbreviation pushed := (pushed default_value).
Local Abbreviation run_valid := (run_valid default_value s_name_prefix).

Implicit Types (r : @registry value) (a : @archetype value).
Implicit Types (m : gmap arch_ptr (@archetype value)).
Implicit Types (k : arch_ptr) (e : entity) (rc : record).
Implicit Types (col : list value) (cols : gmap sign_t (list value)).
Implicit Types (archs : list (arch_ptr * @archetype value)).
Implicit Types (vs ret : list (@entity_view value)).

(** ** Lists: rotation to the back and pop *)

Lemma length_list_pop_back {X} (l : list X) :
  length (list_pop_back l) = pred (length l).
Proof. unfold list_pop_back. rewrite length_take. lia. Qed.

Lemma lookup_list_pop_back {X} (l : list X) j :
  list_pop_back l !! j = if decide (j < pred (length l)) then l !! j else None.
Proof.
  unfold list_pop_back. case_decide.
  - by apply lookup_take_lt.
  - apply lookup_take_ge. lia.
Qed.

Lemma length_list_swap_back {X} i (l : list X) :
  length (list_swap_back i l) = length l.
Proof.
  unfold list_swap_back. destruct (l !! i), (last l); trivial.
  by rewrite !length_insert.
Qed.

Lemma lookup_list_swap_back {X} i j (l : list X) :
  i < length l →
  list_swap_back i l !! j =
    if decide (j = i) then last l
    else if decide (j = pred (length l)) then l !! i else l !! j.
Proof.
  intros Hi. unfold list_swap_back.
  destruct (lookup_lt_is_Some_2 l i Hi) as [x Hx]. rewrite Hx.
  assert (is_Some (last l)) as [y Hy].
  { rewrite last_lookup. apply lookup_lt_is_Some_2. lia. }
  rewrite Hy. case_decide as Hj.
  - subst j. rewrite list_lookup_insert_eq; [done|]. by rewrite length_insert.
  - rewrite list_lookup_insert_ne by done. case_decide as Hj'.
    + subst j. rewrite list_lookup_insert_eq; [done|]. lia.
    + by rewrite list_lookup_insert_ne.
Qed.

Lemma last_list_swap_back {X} i (l : list X) :
  i < length l → last (list_swap_back i l) = l !! i.
Proof.
  intros Hi. rewrite last_lookup, length_list_swap_back.
  rewrite lookup_list_swap_back by done.
  case_decide as H1; [|by rewrite decide_True].
  rewrite <- H1. by rewrite last_lookup.
Qed.

(** ** The invariants, pointwise *)

Lemma archs_ok_lookup r k a :
  archs_ok r → m_map r !! k = Some a → arch_ok k a.
Proof. intros H Hk. exact (H k a Hk). Qed.

Lemma arch_ok_column k a s :
  arch_ok k a → is_Some (arch_columns a !! s) ↔ s ∈ k.
Proof.
  intros (_ & Hdom & _). rewrite <- elem_of_dom, Hdom.
  apply elem_of_list_to_set.
Qed.

Lemma arch_ok_length k a s col :
  arch_ok k a → arch_columns a !! s = Some col →
  length col = length (arch_entities a).
Proof. intros (_ & _ & Hlen) Hs. exact (Hlen s col Hs). Qed.

Lemma I2_lookup r e rc k :
  I2 r → m_records r !! e = Some rc → rec_arch rc = Some k →
  ∃ a, m_map r !! k = Some a ∧ arch_entities a !! rec_index rc = Some e.
Proof.
  intros H He Hk. specialize (H e rc He). unfold points_back in H.
  rewrite Hk in H. destruct (m_map r !! k) as [a|]; [eauto|done].
Qed.

Lemma I2_intro r :
  (∀ e rc k, m_records r !! e = Some rc → rec_arch rc = Some k →
     ∃ a, m_map r !! k = Some a ∧ arch_entities a !! rec_index rc = Some e) →
  I2 r.
Proof.
  intros H e rc He. unfold points_back.
  destruct (rec_arch rc) as [k|] eqn:Hk; [|done].
  destruct (H e rc k He Hk) as (a & -> & Ha). done.
Qed.

Lemma I3_lookup r k a i e :
  I3 r → m_map r !! k = Some a → arch_entities a !! i = Some e →
  ∃ rc, m_records r !! e = Some rc ∧ rec_arch rc = Some k ∧ rec_index rc = i.
Proof.
  intros H Hk Hi. specialize (H k a Hk).
  rewrite Forall_lookup in H. specialize (H i (i, e)).
  rewrite list_lookup_imap, Hi in H. specialize (H eq_refl).
  unfold recorded in H. simpl in H.
  destruct (m_records r !! e) as [rc|]; [eauto|done].
Qed.

Lemma I3_intro r :
  (∀ k a i e, m_map r !! k = Some a → arch_entities a !! i = Some e →
     ∃ rc, m_records r !! e = Some rc ∧ rec_arch rc = Some k ∧ rec_index rc = i) →
  I3 r.
Proof.
  intros H k a Hk. apply Forall_lookup. intros i [j e].
  rewrite list_lookup_imap. intros Hi.
  destruct (arch_entities a !! i) as [e'|] eqn:He'; simplify_eq/=.
  destruct (H k a j e Hk He') as (rc & Hrc & ? & ?).
  unfold recorded. simpl. by rewrite Hrc.
Qed.

Lemma wf_I1 r : wf r → I1 r.
Proof.
  intros (Ha & _) k a Hk. by destruct (Ha k a Hk) as (_ & _ & ?).
Qed.

Lemma wf_I3_spec r : wf r → I3_spec r.
Proof.
  intros (_ & _ & H3 & _) k a Hk. apply Forall_forall. intros e He.
  apply list_elem_of_lookup in He as [i Hi].
  destruct (I3_lookup _ _ _ _ _ H3 Hk Hi) as (rc & -> & _). eauto.
Qed.

(** ** Removal of a row *)

Lemma arch_ok_popped_at_back k a i :
  arch_ok k a → arch_ok k (popped (at_back i a)).
Proof.
  intros (Hid & Hdom & Hlen). unfold at_back.
  destruct (is_last i a); (split; [|split]); simpl; trivial.
  - by rewrite dom_fmap_L.
  - intros s col. rewrite lookup_fmap. intros Hs.
    destruct (arch_columns a !! s) as [c|] eqn:Hc; simplify_eq/=.
    unfold arch_size. simpl. rewrite !length_list_pop_back.
    f_equal. exact (Hlen s c Hc).
  - by rewrite !dom_fmap_L.
  - intros s col. rewrite !lookup_fmap. intros Hs.
    destruct (arch_columns a !! s) as [c|] eqn:Hc; simplify_eq/=.
    unfold arch_size. simpl.
    rewrite !length_list_pop_back, !length_list_swap_back.
    f_equal. exact (Hlen s c Hc).
Qed.

Lemma lookup_popped_at_back a i j :
  i < arch_size a →
  arch_entities (popped (at_back i a)) !! j =
    if decide (j < pred (arch_size a))
    then (if decide (j = i) then last (arch_entities a)
          else arch_entities a !! j)
    else None.
Proof.
  unfold at_back, is_last, arch_size. intros Hi.
  case_bool_decide as Hl; simpl; rewrite lookup_list_pop_back.
  - case_decide; [|done]. case_decide; [lia|done].
  - rewrite length_list_swap_back. case_decide; [|done].
    rewrite lookup_list_swap_back by done.
    case_decide; [done|]. case_decide; [lia|done].
Qed.

Lemma reindexed_lookup r k a i e' :
  wf r → m_map r !! k = Some a → i < arch_size a →
  reindexed i a (m_records r) !! e' = reindex_rec k i a <$> m_records r !! e'.
Proof.
  intros (Hok & H2 & H3 & _) Hk Hi.
  unfold reindexed, reindex_rec, is_last. case_bool_decide as Hl.
  - destruct (m_records r !! e') as [rc0|]; [|done]. simpl.
    by rewrite decide_False by naive_solver.
  - destruct (last (arch_entities a)) as [d|] eqn:Hd.
    2:{ apply last_None in Hd. unfold arch_size in Hi. rewrite Hd in Hi.
        simpl in Hi. lia. }
    rewrite last_lookup in Hd.
    destruct (I3_lookup _ _ _ _ _ H3 Hk Hd) as (rcd & Hrcd & Hka & Hix).
    unfold set_index, records_at. rewrite Hrcd. simpl.
    destruct (decide (e' = d)) as [->|Hne].
    + rewrite lookup_insert_eq, Hrcd. simpl.
      rewrite decide_True; [done|]. unfold arch_size. done.
    + rewrite lookup_insert_ne by done.
      destruct (m_records r !! e') as [rc0|] eqn:Hrc0; [|done]. simpl.
      rewrite decide_False; [done|]. intros (Hk0 & Hi0 & _).
      destruct (I2_lookup _ _ _ _ H2 Hrc0 Hk0) as (a0 & Ha0 & Hrow).
      unfold arch_size in *. simplify_eq. rewrite Hi0 in Hrow. congruence.
Qed.

Lemma wf_remove_row r e rc k a rc' :
  wf r → m_records r !! e = Some rc → rec_arch rc = Some k →
  m_map r !! k = Some a → rec_arch rc' = None →
  wf (Registry (<[k := popped (at_back (rec_index rc) a)]> (m_map r))
        (<[e := rc']> (reindexed (rec_index rc) a (m_records r)))
        (m_next_id r) (m_id r)).
Proof.
  intros Hwf He Hka Hk Hnone.
  pose proof Hwf as (Hok & H2 & H3 & H6).
  destruct (I2_lookup _ _ _ _ H2 He Hka) as (a_ & Ha_ & Hrow).
  assert (a_ = a) as -> by congruence. clear Ha_.
  assert (rec_index rc < arch_size a) as Hi
    by (unfold arch_size; eapply lookup_lt_Some; eauto).
  assert (Hre := λ e', reindexed_lookup r k a (rec_index rc) e' Hwf Hk Hi).
  split; [|split; [|split]]; simpl.
  - apply map_Forall_insert_2; [|done].
    apply arch_ok_popped_at_back. exact (Hok k a Hk).
  - apply I2_intro. intros e' rc1 k1 He' Hk1. simpl in *.
    apply lookup_insert_Some in He' as [[-> ->]|[Hne He']]; [congruence|].
    rewrite Hre in He'. apply fmap_Some in He' as (rc0 & Hrc0 & ->).
    unfold reindex_rec in *. case_decide as Hfire; simpl in *.
    + destruct Hfire as (Hk0 & Hi0 & Hnl).
      assert (k1 = k) as -> by congruence.
      rewrite lookup_insert_eq. eexists; split; [done|].
      rewrite lookup_popped_at_back by done.
      rewrite decide_True by (unfold arch_size in *; lia).
      rewrite decide_True by done.
      destruct (I2_lookup _ _ _ _ H2 Hrc0 Hk0) as (a0 & Ha0 & Hrow0).
      simplify_eq. rewrite last_lookup. unfold arch_size in *.
      by rewrite <- Hi0.
    + destruct (I2_lookup _ _ _ _ H2 Hrc0 Hk1) as (a0 & Ha0 & Hrow0).
      destruct (decide (k1 = k)) as [->|Hkne].
      * simplify_eq. rewrite lookup_insert_eq. eexists; split; [done|].
        rewrite lookup_popped_at_back by done.
        assert (rec_index rc0 ≠ rec_index rc) by congruence.
        assert (rec_index rc0 < arch_size a)
          by (unfold arch_size; eapply lookup_lt_Some; eauto).
        rewrite decide_True.
        { by rewrite decide_False. }
        destruct (decide (rec_index rc0 = pred (arch_size a))); [|lia].
        destruct (decide (S (rec_index rc) = arch_size a)); [lia|].
        naive_solver.
      * rewrite lookup_insert_ne by done. eauto.
  - apply I3_intro. intros k1 a1 j e' Hk1 Hj. simpl in *.
    apply lookup_insert_Some in Hk1 as [[-> <-]|[Hkne Hk1]].
    + rewrite lookup_popped_at_back in Hj by done.
      case_decide as Hjn; [|done]. case_decide as Hji.
      * subst j. rewrite last_lookup in Hj.
        destruct (I3_lookup _ _ _ _ _ H3 Hk Hj) as (rcd & Hrcd & Hkd & Hid).
        assert (e' ≠ e).
        { intros ->. simplify_eq. unfold arch_size in *. lia. }
        rewrite lookup_insert_ne by done. rewrite Hre, Hrcd. simpl.
        unfold reindex_rec. rewrite decide_True.
        { eexists; split; [done|]. simpl. done. }
        unfold arch_size in *. split; [done|]. split; [done|]. lia.
      * destruct (I3_lookup _ _ _ _ _ H3 Hk Hj) as (rc0 & Hrc0 & Hk0 & Hi0).
        assert (e' ≠ e) by (intros ->; simplify_eq).
        rewrite lookup_insert_ne by done. rewrite Hre, Hrc0. simpl.
        unfold reindex_rec. rewrite decide_False by lia. eauto.
    + destruct (I3_lookup _ _ _ _ _ H3 Hk1 Hj) as (rc0 & Hrc0 & Hk0 & Hi0).
      assert (e' ≠ e) by (intros ->; simplify_eq).
      rewrite lookup_insert_ne by done. rewrite Hre, Hrc0. simpl.
      unfold reindex_rec. rewrite decide_False by naive_solver. eauto.
  - intros e' rc1 He'. simpl in *.
    apply lookup_insert_Some in He' as [[<- ->]|[Hne He']].
    + exact (H6 e rc He).
    + rewrite Hre in He'. apply fmap_Some in He' as (rc0 & Hrc0 & _).
      exact (H6 e' rc0 Hrc0).
Qed.

(** ** Addition of a row, of an archetype, of a record *)

Lemma wf_unattached_not_in_rows r e rc0 k a i :
  wf r → m_records r !! e = Some rc0 → rec_arch rc0 = None →
  m_map r !! k = Some a → arch_entities a !! i ≠ Some e.
Proof.
  intros (_ & _ & H3 & _) He Hnone Hk Hi.
  destruct (I3_lookup _ _ _ _ _ H3 Hk Hi) as (rc & Hrc & Hka & _).
  congruence.
Qed.

Lemma wf_push_row r e rc0 k b b' nm :
  wf r → m_records r !! e = Some rc0 → rec_arch rc0 = None →
  m_map r !! k = Some b → arch_ok k b' →
  arch_entities b' = arch_entities b ++ [e] →
  wf (Registry (<[k := b']> (m_map r))
        (<[e := Record_ nm (Some k) (length (arch_entities b))]> (m_records r))
        (m_next_id r) (m_id r)).
Proof.
  intros Hwf He Hnone Hk Hb' Hents.
  pose proof Hwf as (Hok & H2 & H3 & H6).
  split; [|split; [|split]]; simpl.
  - by apply map_Forall_insert_2.
  - apply I2_intro. intros e' rc1 k1 He' Hk1. simpl in *.
    apply lookup_insert_Some in He' as [[<- <-]|[Hne He']]; simpl in *.
    + simplify_eq. rewrite lookup_insert_eq. eexists; split; [done|].
      rewrite Hents. by apply list_lookup_middle.
    + destruct (I2_lookup _ _ _ _ H2 He' Hk1) as (a0 & Ha0 & Hrow0).
      destruct (decide (k1 = k)) as [->|Hkne].
      * simplify_eq. rewrite lookup_insert_eq. eexists; split; [done|].
        rewrite Hents. by apply lookup_app_l_Some.
      * rewrite lookup_insert_ne by done. eauto.
  - apply I3_intro. intros k1 a1 j e' Hk1 Hj. simpl in *.
    apply lookup_insert_Some in Hk1 as [[-> <-]|[Hkne Hk1]].
    + rewrite Hents in Hj. apply lookup_snoc_Some in Hj as [[Hlt Hj]|[-> ->]].
      * destruct (I3_lookup _ _ _ _ _ H3 Hk Hj) as (rc & Hrc & Hka & Hix).
        assert (e' ≠ e) by (intros ->; congruence).
        rewrite lookup_insert_ne by done. eauto.
      * rewrite lookup_insert_eq. eauto.
    + destruct (I3_lookup _ _ _ _ _ H3 Hk1 Hj) as (rc & Hrc & Hka & Hix).
      assert (e' ≠ e) by (intros ->; congruence).
      rewrite lookup_insert_ne by done. eauto.
  - intros e' rc1 He'. simpl in *.
    apply lookup_insert_Some in He' as [[<- <-]|[Hne He']].
    + exact (H6 e rc0 He).
    + exact (H6 e' rc1 He').
Qed.

Lemma wf_move_row r e rc k a k' b b' nm :
  wf r → m_records r !! e = Some rc → rec_arch rc = Some k →
  m_map r !! k = Some a → k' ≠ k → m_map r !! k' = Some b →
  arch_ok k' b' → arch_entities b' = arch_entities b ++ [e] →
  wf (Registry (<[k' := b']> (<[k := popped (at_back (rec_index rc) a)]> (m_map r)))
        (<[e := Record_ nm (Some k') (length (arch_entities b))]>
           (reindexed (rec_index rc) a (m_records r)))
        (m_next_id r) (m_id r)).
Proof.
  intros Hwf He Hka Hk Hne Hk' Hb' Hents.
  pose proof (wf_remove_row r e rc k a (Record_ nm None 0) Hwf He Hka Hk eq_refl)
    as HA.
  rewrite <- (insert_insert_eq (reindexed (rec_index rc) a (m_records r)) e
                (Record_ nm (Some k') _) (Record_ nm None 0)).
  eapply (wf_push_row _ e (Record_ nm None 0) k' b b' nm HA); simpl; trivial.
  - apply lookup_insert_eq.
  - by rewrite lookup_insert_ne.
Qed.

Lemma arch_ok_empty k : arch_ok k (@empty_archetype value k).
Proof.
  split; [done|]. split; simpl.
  - apply dom_gset_to_gmap.
  - intros s col Hs. apply lookup_gset_to_gmap_Some in Hs as [_ <-]. done.
Qed.

Lemma wf_add_archetype r k a :
  wf r → m_map r !! k = None → arch_ok k a → arch_entities a = [] →
  wf (set_map (<[k := a]> (m_map r)) r).
Proof.
  intros (Hok & H2 & H3 & H6) Hk Ha Hnil.
  split; [|split; [|split]]; simpl.
  - by apply map_Forall_insert_2.
  - apply I2_intro. intros e rc k1 He Hk1. simpl in *.
    destruct (I2_lookup _ _ _ _ H2 He Hk1) as (a0 & Ha0 & Hrow0).
    assert (k1 ≠ k) by congruence.
    rewrite lookup_insert_ne by done. eauto.
  - apply I3_intro. intros k1 a1 j e Hk1 Hj. simpl in *.
    apply lookup_insert_Some in Hk1 as [[-> <-]|[Hkne Hk1]].
    + by rewrite Hnil in Hj.
    + eapply I3_lookup; eauto.
  - exact H6.
Qed.

Lemma map_get_or_make_spec (signs : list sign_t) (m : gmap arch_ptr (@archetype value)) :
  ∃ m' : gmap arch_ptr (@archetype value), map_get_or_make signs m = (m', make_id signs)
    ∧ (m' = m ∧ is_Some (m !! make_id signs)
       ∨ m' = <[make_id signs := empty_archetype (make_id signs)]> m
         ∧ m !! make_id signs = None).
Proof.
  unfold map_get_or_make.
  destruct (m !! make_id signs) eqn:Hm; eauto.
Qed.

Lemma wf_map_get_or_make r (signs : list sign_t) m k :
  wf r → map_get_or_make signs (m_map r) = (m, k) →
  wf (set_map m r) ∧ k = make_id signs ∧ is_Some (m !! k)
  ∧ (∀ k0 a0, m_map r !! k0 = Some a0 → m !! k0 = Some a0).
Proof.
  intros Hwf Hm.
  destruct (map_get_or_make_spec signs (m_map r)) as (m' & Hm' & Hcase).
  rewrite Hm' in Hm. simplify_eq.
  destruct Hcase as [[-> Hsome]|[-> Hnone]].
  - split; [by destruct r|]. split; [done|]. split; done.
  - split; [|split; [done|split]].
    + apply wf_add_archetype; trivial. apply arch_ok_empty.
    + rewrite lookup_insert_eq. eauto.
    + intros k0 a0 Hk0. rewrite lookup_insert_ne; [done|]. congruence.
Qed.

Lemma wf_new_record r e rc :
  wf r → m_records r !! e = None → rec_arch rc = None →
  registry_id e = m_id r →
  wf (set_records (<[e := rc]> (m_records r)) r).
Proof.
  intros (Hok & H2 & H3 & H6) He Hnone Hid.
  split; [|split; [|split]]; simpl.
  - exact Hok.
  - apply I2_intro. intros e' rc1 k1 He' Hk1. simpl in *.
    apply lookup_insert_Some in He' as [[<- <-]|[Hne He']]; [congruence|].
    eapply I2_lookup; eauto.
  - apply I3_intro. intros k1 a1 j e' Hk1 Hj. simpl in *.
    destruct (I3_lookup _ _ _ _ _ H3 Hk1 Hj) as (rc1 & Hrc1 & ? & ?).
    assert (e' ≠ e) by (intros ->; congruence).
    rewrite lookup_insert_ne by done. eauto.
  - intros e' rc1 He'. simpl in *.
    apply lookup_insert_Some in He' as [[<- <-]|[Hne He']]; [done|].
    exact (H6 e' rc1 He').
Qed.

Lemma wf_delete_unattached r e rc :
  wf r → m_records r !! e = Some rc → rec_arch rc = None →
  wf (set_records (delete e (m_records r)) r).
Proof.
  intros (Hok & H2 & H3 & H6) He Hnone.
  split; [|split; [|split]]; simpl.
  - exact Hok.
  - apply I2_intro. intros e' rc1 k1 He' Hk1. simpl in *.
    apply lookup_delete_Some in He' as [Hne He'].
    eapply I2_lookup; eauto.
  - apply I3_intro. intros k1 a1 j e' Hk1 Hj. simpl in *.
    destruct (I3_lookup _ _ _ _ _ H3 Hk1 Hj) as (rc1 & Hrc1 & ? & ?).
    assert (e' ≠ e) by (intros ->; congruence).
    rewrite lookup_delete_ne by done. eauto.
  - intros e' rc1 He'. simpl in *.
    apply lookup_delete_Some in He' as [Hne He'].
    exact (H6 e' rc1 He').
Qed.

(** ** What the private helpers compute in a well-formed registry *)

Lemma deref_Some (m : gmap arch_ptr (@archetype value)) k a :
  m !! k = Some a → deref k m = Ok a.
Proof. intros H. unfold deref. by rewrite H. Qed.

Lemma insert_insert_lookup (m : gmap arch_ptr (@archetype value)) k a a' :
  <[k := a']> (<[k := a]> m) = <[k := a']> m.
Proof. apply insert_insert_eq. Qed.

Lemma last_at_back a i e :
  arch_entities a !! i = Some e → last (arch_entities (at_back i a)) = Some e.
Proof.
  intros Hi. assert (i < length (arch_entities a)) by (eapply lookup_lt_Some; eauto).
  unfold at_back, is_last, arch_size. case_bool_decide as Hl; simpl.
  - rewrite last_lookup. by replace (pred (length (arch_entities a))) with i by lia.
  - by rewrite last_list_swap_back.
Qed.

Lemma size_at_back a i : arch_size (at_back i a) = arch_size a.
Proof.
  unfold at_back, arch_size. destruct (is_last i a); simpl; trivial.
  apply length_list_swap_back.
Qed.

Lemma arch_id_at_back a i : arch_id (at_back i a) = arch_id a.
Proof. unfold at_back. by destruct (is_last i a). Qed.

Lemma pop_back_at_back a i e :
  arch_entities a !! i = Some e →
  pop_back (at_back i a) = Ok (popped (at_back i a)).
Proof.
  intros Hi. apply last_at_back in Hi. unfold pop_back, popped.
  destruct (arch_entities (at_back i a)); [done|]. done.
Qed.

Lemma reindexed_self r e rc k a :
  wf r → m_records r !! e = Some rc → rec_arch rc = Some k →
  m_map r !! k = Some a →
  reindexed (rec_index rc) a (m_records r) !! e = Some rc.
Proof.
  intros Hwf He Hka Hk. pose proof Hwf as (_ & H2 & _).
  destruct (I2_lookup _ _ _ _ H2 He Hka) as (a_ & Ha_ & Hrow).
  assert (a_ = a) as -> by congruence.
  assert (rec_index rc < arch_size a)
    by (unfold arch_size; eapply lookup_lt_Some; eauto).
  rewrite (reindexed_lookup r k) by done. rewrite He. simpl.
  unfold reindex_rec. rewrite decide_False; [done|]. lia.
Qed.

(** The rotation both [send_to_back] and [do_detach] start with. *)
Lemma rotation_spec r e rc k a :
  wf r → m_records r !! e = Some rc → rec_arch rc = Some k →
  m_map r !! k = Some a →
  (if is_last (rec_index rc) a then Ok (a, m_records r)
   else
     '(swapped, a') ← swap_back (rec_index rc) a;
     Ok (a', set_index swapped (rec_index rc) (m_records r)))
  = Ok (at_back (rec_index rc) a, reindexed (rec_index rc) a (m_records r)).
Proof.
  intros Hwf He Hka Hk. pose proof Hwf as (_ & H2 & _).
  destruct (I2_lookup _ _ _ _ H2 He Hka) as (a_ & Ha_ & Hrow).
  assert (a_ = a) as -> by congruence.
  unfold at_back, reindexed. destruct (is_last (rec_index rc) a); [done|].
  unfold swap_back. rewrite Hrow.
  destruct (last (arch_entities a)) as [d|] eqn:Hd; [done|].
  apply last_None in Hd. by rewrite Hd in Hrow.
Qed.

Lemma send_to_back_spec r e rc k a :
  wf r → m_records r !! e = Some rc → rec_arch rc = Some k →
  m_map r !! k = Some a →
  send_to_back e r =
    Ok (Registry (<[k := at_back (rec_index rc) a]> (m_map r))
          (reindexed (rec_index rc) a (m_records r)) (m_next_id r) (m_id r)).
Proof.
  intros Hwf He Hka Hk. pose proof Hwf as (_ & H2 & H3 & _).
  destruct (I2_lookup _ _ _ _ H2 He Hka) as (a_ & Ha_ & Hrow).
  assert (a_ = a) as -> by congruence.
  unfold send_to_back, deref. rewrite He, Hka, Hk. simpl.
  unfold at_back, reindexed. destruct (is_last (rec_index rc) a) eqn:Hl.
  - rewrite insert_id by done. by destruct r.
  - unfold swap_back. rewrite Hrow.
    destruct (last (arch_entities a)) as [d|] eqn:Hd.
    2:{ apply last_None in Hd. by rewrite Hd in Hrow. }
    simpl. rewrite last_lookup in Hd.
    destruct (I3_lookup _ _ _ _ _ H3 Hk Hd) as (rcd & Hrcd & Hkd & _).
    rewrite bool_decide_true; [done|].
    unfold records_at. by rewrite Hrcd.
Qed.

Lemma migrate_to_none_spec r e rc k a :
  wf r → m_records r !! e = Some rc → rec_arch rc = Some k →
  m_map r !! k = Some a →
  migrate_to e None r =
    Ok (Registry (<[k := popped (at_back (rec_index rc) a)]> (m_map r))
          (<[e := Record_ (rec_name rc) None (rec_index rc)]>
             (reindexed (rec_index rc) a (m_records r)))
          (m_next_id r) (m_id r)).
Proof.
  intros Hwf He Hka Hk. pose proof Hwf as (_ & H2 & _).
  destruct (I2_lookup _ _ _ _ H2 He Hka) as (a_ & Ha_ & Hrow).
  assert (a_ = a) as -> by congruence.
  unfold migrate_to. rewrite (send_to_back_spec r e rc k a) by done.
  simpl. rewrite (reindexed_self r e rc k a) by done. rewrite Hka.
  unfold deref. rewrite lookup_insert_eq. simpl.
  unfold migrate_back. rewrite (last_at_back _ _ _ Hrow).
  rewrite (pop_back_at_back _ _ _ Hrow). simpl.
  rewrite bool_decide_true by done. simpl.
  by rewrite insert_insert_lookup.
Qed.

Lemma migrate_to_some_spec r e rc k a k' b :
  wf r → m_records r !! e = Some rc → rec_arch rc = Some k →
  m_map r !! k = Some a → k' ≠ k → m_map r !! k' = Some b →
  migrate_to e (Some k') r =
    Ok (Registry
          (<[k' := receive_back e (at_back (rec_index rc) a) b]>
             (<[k := popped (at_back (rec_index rc) a)]> (m_map r)))
          (<[e := Record_ (rec_name rc) (Some k') (rec_index rc)]>
             (reindexed (rec_index rc) a (m_records r)))
          (m_next_id r) (m_id r)).
Proof.
  intros Hwf He Hka Hk Hne Hk'. pose proof Hwf as (_ & H2 & _).
  destruct (I2_lookup _ _ _ _ H2 He Hka) as (a_ & Ha_ & Hrow).
  assert (a_ = a) as -> by congruence.
  unfold migrate_to. rewrite (send_to_back_spec r e rc k a) by done.
  simpl. rewrite (reindexed_self r e rc k a) by done. rewrite Hka.
  unfold deref. rewrite lookup_insert_eq. simpl.
  rewrite decide_False by done.
  rewrite lookup_insert_ne by done. rewrite Hk'. simpl.
  unfold migrate_back. rewrite (last_at_back _ _ _ Hrow).
  rewrite (pop_back_at_back _ _ _ Hrow). simpl.
  rewrite bool_decide_true by done. simpl.
  by rewrite insert_insert_lookup.
Qed.

(** ** Updates that keep the rows *)

Lemma wf_same_rows r k a a' :
  wf r → m_map r !! k = Some a → arch_ok k a' →
  arch_entities a' = arch_entities a →
  wf (set_map (<[k := a']> (m_map r)) r).
Proof.
  intros (Hok & H2 & H3 & H6) Hk Ha' Hents.
  split; [|split; [|split]]; simpl.
  - by apply map_Forall_insert_2.
  - apply I2_intro. intros e rc k1 He Hk1. simpl in *.
    destruct (I2_lookup _ _ _ _ H2 He Hk1) as (a0 & Ha0 & Hrow0).
    destruct (decide (k1 = k)) as [->|Hkne].
    + simplify_eq. rewrite lookup_insert_eq. eexists; split; [done|].
      by rewrite Hents.
    + rewrite lookup_insert_ne by done. eauto.
  - apply I3_intro. intros k1 a1 j e Hk1 Hj. simpl in *.
    apply lookup_insert_Some in Hk1 as [[-> <-]|[Hkne Hk1]].
    + rewrite Hents in Hj. eapply I3_lookup; eauto.
    + eapply I3_lookup; eauto.
  - exact H6.
Qed.

Lemma wf_rename r e n : wf r → wf (rename e n r).1.
Proof.
  intros Hwf. pose proof Hwf as (Hok & H2 & H3 & H6). unfold rename.
  destruct (m_records r !! e) as [rc|] eqn:He; [|done]. simpl.
  split; [|split; [|split]]; simpl.
  - exact Hok.
  - apply I2_intro. intros e' rc1 k1 He' Hk1. simpl in *.
    apply lookup_insert_Some in He' as [[<- <-]|[Hne He']]; simpl in *.
    + eapply (I2_lookup r e rc); eauto.
    + eapply I2_lookup; eauto.
  - apply I3_intro. intros k1 a1 j e' Hk1 Hj. simpl in *.
    destruct (I3_lookup _ _ _ _ _ H3 Hk1 Hj) as (rc1 & Hrc1 & ? & ?).
    destruct (decide (e' = e)) as [->|Hne].
    + rewrite lookup_insert_eq. simplify_eq. eauto.
    + rewrite lookup_insert_ne by done. eauto.
  - intros e' rc1 He'. simpl in *.
    apply lookup_insert_Some in He' as [[<- <-]|[Hne He']].
    + exact (H6 e rc He).
    + exact (H6 e' rc1 He').
Qed.

Lemma wf_clear r : wf (clear r).
Proof.
  split; [|split; [|split]]; unfold archs_ok, I2, I3, I6; simpl;
    apply map_Forall_empty.
Qed.

Lemma wf_registry_new s_next : wf (@registry_new value s_next).1.
Proof.
  split; [|split; [|split]]; unfold archs_ok, I2, I3, I6; simpl;
    apply map_Forall_empty.
Qed.

(** ** destroy *)

Lemma destroy_spec r e :
  wf r →
  ∃ r', destroy e r = Ok (r', contains e r) ∧ wf r'
    ∧ m_records r' = delete e (m_records r')
    ∧ m_next_id r' = m_next_id r ∧ m_id r' = m_id r
    ∧ dom (m_records r') = dom (m_records r) ∖ {[e]}
    ∧ (∀ k a, m_map r' !! k = Some a → e ∉ arch_entities a)
    ∧ (m_records r !! e = None → r' = r).
Proof.
  intros Hwf. pose proof Hwf as (Hok & H2 & H3 & H6).
  unfold destroy, contains.
  destruct (m_records r !! e) as [rc|] eqn:He.
  2:{ rewrite bool_decide_false by (by intros [? ?]).
      exists r. split; [done|]. split; [done|].
      split; [by rewrite delete_id|]. split; [done|]. split; [done|].
      split.
      { apply not_elem_of_dom in He. set_solver. }
      split; [|done]. intros k a Hk Hin.
      apply list_elem_of_lookup in Hin as [i Hi].
      destruct (I3_lookup _ _ _ _ _ H3 Hk Hi) as (? & ? & _). congruence. }
  rewrite bool_decide_true by eauto.
  destruct (rec_arch rc) as [k|] eqn:Hka.
  - destruct (I2_lookup _ _ _ _ H2 He Hka) as (a & Ha & Hrow).
    rewrite (migrate_to_none_spec r e rc k a) by done. simpl.
    pose proof (wf_remove_row r e rc k a
                  (Record_ (rec_name rc) None (rec_index rc))
                  Hwf He Hka Ha eq_refl) as Hwf1.
    eexists. split; [done|].
    pose proof (wf_delete_unattached _ e _ Hwf1 (lookup_insert_eq _ _ _) eq_refl)
      as Hwf2.
    split; [exact Hwf2|]. simpl.
    split; [by rewrite delete_delete_eq|]. split; [done|]. split; [done|].
    split.
    { rewrite delete_insert_eq. rewrite dom_delete_L. f_equal.
      apply set_eq. intros e'. rewrite !elem_of_dom.
      assert (rec_index rc < arch_size a)
        by (unfold arch_size; eapply lookup_lt_Some; eauto).
      rewrite (reindexed_lookup r k) by done.
      by rewrite fmap_is_Some. }
    split; [|congruence].
    intros k1 a1 Hk1 Hin. apply list_elem_of_lookup in Hin as [i Hi].
    destruct Hwf2 as (_ & _ & H3' & _).
    destruct (I3_lookup _ _ _ _ _ H3' Hk1 Hi) as (? & Hdel & _).
    simpl in Hdel. by rewrite lookup_delete_eq in Hdel.
  - simpl. eexists. split; [done|].
    pose proof (wf_delete_unattached r e rc Hwf He Hka) as Hwf2.
    split; [exact Hwf2|]. simpl.
    split; [by rewrite delete_delete_eq|]. split; [done|]. split; [done|].
    split; [by rewrite dom_delete_L|]. split; [|congruence].
    intros k1 a1 Hk1 Hin. apply list_elem_of_lookup in Hin as [i Hi].
    destruct (I3_lookup _ _ _ _ _ H3 Hk1 Hi) as (? & ? & ? & _). congruence.
Qed.

(** ** do_detach and detach *)

Lemma dom_reindexed r k a i :
  wf r → m_map r !! k = Some a → i < arch_size a →
  dom (reindexed i a (m_records r)) = dom (m_records r).
Proof.
  intros Hwf Hk Hi. apply set_eq. intros e'. rewrite !elem_of_dom.
  rewrite (reindexed_lookup r k) by done. by rewrite fmap_is_Some.
Qed.

Lemma receive_back_columns e a b s :
  arch_columns (receive_back e a b) !! s =
    (λ col, match arch_columns a !! s ≫= last with
            | Some v => col ++ [v]
            | None => col
            end) <$> arch_columns b !! s.
Proof.
  unfold receive_back. simpl. rewrite map_lookup_imap.
  by destruct (arch_columns b !! s).
Qed.

Lemma dom_receive_back e a b :
  dom (arch_columns (receive_back e a b)) = dom (arch_columns b).
Proof.
  apply set_eq. intros s. rewrite !elem_of_dom, receive_back_columns.
  by rewrite fmap_is_Some.
Qed.

Lemma at_back_column k a i s :
  arch_ok k a → 0 < arch_size a → s ∈ k →
  ∃ col v, arch_columns (at_back i a) !! s = Some col ∧ last col = Some v.
Proof.
  intros Hok Hn Hs. pose proof Hok as (_ & _ & Hlen).
  apply (arch_ok_column k a s Hok) in Hs as [c Hc].
  pose proof (Hlen s c Hc) as Hc'.
  assert (∀ l : list value, length l = arch_size a → is_Some (last l)) as Hl.
  { intros l Hll. rewrite last_lookup. apply lookup_lt_is_Some_2. lia. }
  unfold at_back. destruct (is_last i a); simpl.
  - destruct (Hl c Hc') as [v Hv]. eauto.
  - rewrite lookup_fmap, Hc. simpl.
    destruct (Hl (list_swap_back i c)) as [v Hv]; [|eauto].
    by rewrite length_list_swap_back.
Qed.

Lemma do_detach_wf r s e r' res :
  wf r → do_detach s e r = Ok (r', res) →
  wf r' ∧ m_next_id r' = m_next_id r ∧ m_id r' = m_id r
  ∧ dom (m_records r') = dom (m_records r).
Proof.
  intros Hwf. pose proof Hwf as (Hok & H2 & H3 & H6). unfold do_detach.
  case_bool_decide as Hreg; simpl; [|intros; by simplify_eq].
  destruct (m_records r !! e) as [rc|] eqn:He; [|intros; by simplify_eq].
  destruct (rec_arch rc) as [k|] eqn:Hka; [|intros; by simplify_eq].
  destruct (I2_lookup _ _ _ _ H2 He Hka) as (a & Ha & Hrow).
  assert (rec_index rc < arch_size a) as Hi
    by (unfold arch_size; eapply lookup_lt_Some; eauto).
  rewrite (deref_Some _ _ _ Ha). simpl.
  rewrite (rotation_spec r e rc k a) by done. simpl.
  case_bool_decide as Hone.
  - rewrite (pop_back_at_back _ _ _ Hrow). simpl. intros Hr. simplify_eq.
    rewrite insert_insert_lookup.
    split; [by apply (wf_remove_row r e rc k a)|]. simpl.
    split; [done|]. split; [done|].
    rewrite dom_insert_lookup_L.
    + by apply (dom_reindexed r k).
    + rewrite (reindexed_self r e rc k a) by done. eauto.
  - unfold assert. case_bool_decide as Hid; simpl; [done|].
    rewrite arch_id_at_back in *.
    destruct (map_get_or_make_spec (id_make s (arch_id a))
                (<[k := at_back (rec_index rc) a]> (m_map r)))
      as (m2 & Hm2 & Hcase).
    rewrite Hm2. set (k' := make_id (id_make s (arch_id a))) in *.
    case_decide as Hkk; [done|].
    assert (arch_id a = k) as Hidk by (by destruct (Hok k a Ha)).
    assert (∃ b, m2 !! k' = Some b ∧ arch_ok k' b
                 ∧ ∃ m0, m0 !! k' = Some b ∧ m0 !! k = Some a
                   ∧ wf (set_map m0 r)
                   ∧ m2 = <[k := at_back (rec_index rc) a]> m0)
      as (b & Hb & Hbok & m0 & Hm0b & Hm0a & Hwf0 & Hm2eq).
    { destruct Hcase as [[-> [b Hb]]|[-> Hnone]].
      - rewrite lookup_insert_ne in Hb by done.
        exists b. split; [by rewrite lookup_insert_ne|].
        split; [exact (Hok k' b Hb)|].
        exists (m_map r). split; [done|]. split; [done|].
        split; [by destruct r|]. done.
      - rewrite lookup_insert_ne in Hnone by done.
        exists (empty_archetype k'). split; [by rewrite lookup_insert_eq|].
        split; [apply arch_ok_empty|].
        exists (<[k' := empty_archetype k']> (m_map r)).
        split; [by rewrite lookup_insert_eq|].
        split; [by rewrite lookup_insert_ne|].
        split; [apply wf_add_archetype; trivial; apply arch_ok_empty|].
        by rewrite insert_insert_ne. }
    rewrite (deref_Some _ _ _ Hb). simpl.
    unfold migrate_back. rewrite (last_at_back _ _ _ Hrow).
    rewrite (pop_back_at_back _ _ _ Hrow). simpl.
    rewrite (bool_decide_true (e = e)) by done. simpl.
    rewrite bool_decide_false.
    2:{ unfold arch_size. simpl. rewrite length_app. simpl. lia. }
    simpl. intros [= <- <-]. rewrite Hm2eq.
    rewrite insert_insert_lookup.
    replace (arch_size (receive_back e (at_back (rec_index rc) a) b) - 1)
      with (length (arch_entities b))
      by (unfold arch_size; simpl; rewrite length_app; simpl; lia).
    assert (m_records (set_map m0 r) !! e = Some rc) as He0 by done.
    split.
    + apply (wf_move_row (set_map m0 r) e rc k a k' b); trivial.
      split; [by destruct Hbok|]. split.
      { rewrite dom_receive_back. by destruct Hbok as (_ & ? & _). }
      intros s' col Hcol. rewrite receive_back_columns in Hcol.
        apply fmap_Some in Hcol as (c & Hc & ->).
        assert (s' ∈ k') as Hs'
          by (apply (arch_ok_column k' b s' Hbok); eauto).
        apply elem_of_make_id, elem_of_id_make in Hs' as [Hs' _].
        rewrite Hidk in Hs'.
        destruct (at_back_column k a (rec_index rc) s')
          as (ca & v & Hca & Hv); [apply (Hok _ _ Ha)|lia|done|].
        rewrite Hca. simpl. rewrite Hv.
        unfold arch_size. simpl. rewrite !length_app. simpl.
        f_equal. destruct Hbok as (_ & _ & Hlen). exact (Hlen s' c Hc).
    + simpl. split; [done|]. split; [done|].
      rewrite dom_insert_lookup_L.
      * by apply (dom_reindexed r k).
      * rewrite (reindexed_self r e rc k a) by done. eauto.
Qed.

Lemma detach_wf signs r e r' b :
  wf r → detach signs e r = Ok (r', b) →
  wf r' ∧ m_next_id r' = m_next_id r ∧ m_id r' = m_id r
  ∧ dom (m_records r') = dom (m_records r).
Proof.
  revert r. induction signs as [|s signs IH]; simpl; intros r Hwf Hd.
  - by simplify_eq.
  - destruct (do_detach s e r) as [[r1 b1]|] eqn:H1; [|done]. simpl in Hd.
    destruct (do_detach_wf _ _ _ _ _ Hwf H1) as (Hwf1 & Hn1 & Hi1 & Hd1).
    destruct b1.
    + destruct (IH r1 Hwf1 Hd) as (? & ? & ? & ?).
      split; [done|]. split; [congruence|]. split; congruence.
    + simplify_eq. done.
Qed.

(** ** attach *)

Lemma attach_pre_assert e r :
  attach_pre e r →
  assert ((null_id <? entity_id e)%N && bool_decide (registry_id e = m_id r))
  = Ok ().
Proof.
  intros [Hid Hreg]. unfold null_id.
  apply N.ltb_lt in Hid. rewrite Hid. by rewrite bool_decide_true.
Qed.

Lemma assert_snoc_nonempty (col : list value) t :
  assert (negb (bool_decide (col ++ [t] = []))) = Ok ().
Proof. rewrite bool_decide_false; [done|]. by destruct col. Qed.

Lemma assert_true (P : Prop) `{Decision P} : P → assert (bool_decide P) = Ok ().
Proof. intros HP. by rewrite bool_decide_true. Qed.

(** The component is there already: it is assigned in place. *)
Lemma attach_overwrite r s e t rc k a col :
  attach_pre e r →
  m_records r !! e = Some rc → rec_arch rc = Some k →
  m_map r !! k = Some a → arch_columns a !! s = Some col →
  rec_index rc < length col →
  attach s e t r =
    Ok (Registry (<[k := assign_at s (rec_index rc) t col a]> (m_map r))
          (m_records r) (m_next_id r) (m_id r), t).
Proof.
  intros Hpre He Hka Hk Hcol Hi. unfold attach.
  rewrite (attach_pre_assert e r Hpre). simpl.
  unfold get_or_make. rewrite He. simpl. rewrite Hka.
  rewrite (deref_Some _ _ _ Hk). simpl.
  unfold arch_find. rewrite Hcol. by rewrite decide_True.
Qed.

(** The record has no archetype: the row is pushed to the archetype of the
    single type. *)
Lemma attach_first r s e t (recs : gmap entity record) rc m a col :
  attach_pre e r →
  get_or_make e (m_records r) = (recs, rc) → rec_arch rc = None →
  map_get_or_make [s] (m_map r) = (m, make_id [s]) →
  m !! make_id [s] = Some a → arch_columns a !! s = Some col →
  length col = arch_size a →
  attach s e t r =
    Ok (Registry (<[make_id [s] := with_row e s t col (arch_columns a) a]> m)
          (<[e := Record_ (rec_name rc) (Some (make_id [s])) (length col)]> recs)
          (m_next_id r) (m_id r), t).
Proof.
  intros Hpre Hrecs Hnone Hm Ha Hcol Hlen. unfold attach.
  rewrite (attach_pre_assert e r Hpre). simpl.
  rewrite Hrecs. simpl. rewrite Hnone. rewrite Hm.
  rewrite (deref_Some _ _ _ Ha). simpl.
  unfold arch_emplace_back. simpl. rewrite Hcol. simpl.
  rewrite assert_snoc_nonempty. simpl. rewrite assert_true.
  2:{ unfold arch_size in *. simpl. rewrite !length_app. simpl. lia. }
  simpl. unfold with_row. do 4 f_equal.
  rewrite length_app. simpl. f_equal. lia.
Qed.

(** The record has an archetype without the component: the row migrates to
    the archetype with the type added. *)
Lemma attach_migrate r s e t rc k a k' m b col :
  wf (set_map m r) → attach_pre e r →
  m_records r !! e = Some rc → rec_arch rc = Some k →
  m_map r !! k = Some a → arch_columns a !! s = None →
  copy_append s a (m_map r) = (m, k') → m !! k = Some a →
  k' ≠ k → m !! k' = Some b → arch_columns b !! s = Some col →
  length col = arch_size b →
  attach s e t r =
    Ok (Registry
          (<[k' := with_row e s t col
                     (arch_columns (receive_back e (at_back (rec_index rc) a) b)) b]>
             (<[k := popped (at_back (rec_index rc) a)]> m))
          (<[e := Record_ (rec_name rc) (Some k') (length col)]>
             (reindexed (rec_index rc) a (m_records r)))
          (m_next_id r) (m_id r), t).
Proof.
  intros Hwf Hpre He Hka Hk Hcol Hm Hmk Hne Hb Hbcol Hlen. unfold attach.
  rewrite (attach_pre_assert e r Hpre). simpl.
  unfold get_or_make. rewrite He. simpl. rewrite Hka.
  rewrite (deref_Some _ _ _ Hk). simpl.
  unfold arch_find. rewrite Hcol. rewrite Hm.
  rewrite (migrate_to_some_spec (set_map m (set_records (m_records r) r))
             e rc k a k' b); trivial.
  simpl. rewrite (deref_Some _ _ (receive_back e (at_back (rec_index rc) a) b))
    by apply lookup_insert_eq.
  simpl. unfold arch_emplace_back.
  rewrite receive_back_columns, Hbcol. simpl.
  assert (arch_columns (at_back (rec_index rc) a) !! s = None) as Hnone.
  { unfold at_back. destruct (is_last (rec_index rc) a); simpl; [done|].
    by rewrite lookup_fmap, Hcol. }
  rewrite Hnone. simpl.
  rewrite assert_snoc_nonempty. simpl. rewrite assert_true.
  2:{ unfold arch_size in *. simpl. rewrite !length_app. simpl. lia. }
  simpl. rewrite insert_insert_lookup.
  unfold set_index, records_at. rewrite lookup_insert_eq. simpl.
  rewrite insert_insert_eq. unfold with_row.
  do 4 f_equal. rewrite length_app. simpl. f_equal. lia.
Qed.

Lemma wf_get_or_make r e recs rc :
  wf r → registry_id e = m_id r →
  get_or_make e (m_records r) = (recs, rc) →
  wf (set_records recs r) ∧ recs !! e = Some rc
  ∧ dom recs = {[e]} ∪ dom (m_records r) ∧ rec_name rc = name e r
  ∧ (m_records r !! e = None → rc = record_default).
Proof.
  intros Hwf Hreg. unfold get_or_make, name.
  destruct (m_records r !! e) as [rc0|] eqn:He; intros [= <- <-].
  - split; [by destruct r|]. split; [done|]. split; [|done].
    apply elem_of_dom_2 in He. set_solver.
  - split; [by apply wf_new_record|]. split; [apply lookup_insert_eq|].
    split; [by rewrite dom_insert_L|]. done.
Qed.

Lemma arch_ok_assign_at k a s i t col :
  arch_ok k a → arch_columns a !! s = Some col →
  arch_ok k (assign_at s i t col a).
Proof.
  intros (Hid & Hdom & Hlen) Hcol. split; [done|]. split; simpl.
  - rewrite dom_insert_lookup_L; eauto.
  - apply map_Forall_insert_2; [|done].
    rewrite length_insert. exact (Hlen s col Hcol).
Qed.

Lemma arch_ok_with_row k b e s t col (cols : gmap sign_t (list value)) :
  arch_id b = k → cols !! s = Some col → dom cols = list_to_set k →
  length col = arch_size b →
  (∀ s' c', s' ≠ s → cols !! s' = Some c' → length c' = S (arch_size b)) →
  arch_ok k (with_row e s t col cols b).
Proof.
  intros Hid Hcol Hdom Hlen Hothers. split; [done|]. split; simpl.
  - rewrite dom_insert_lookup_L; eauto.
  - intros s' c'. rewrite lookup_insert. unfold arch_size. simpl.
    rewrite length_app. simpl. case_decide as Hs'.
    + intros [= <-]. rewrite length_app. simpl. unfold arch_size in Hlen. lia.
    + intros Hc'. rewrite (Hothers s' c') by done. unfold arch_size. lia.
Qed.

Lemma find_at r s e rc k a col v :
  m_records r !! e = Some rc → rec_arch rc = Some k →
  m_map r !! k = Some a → arch_columns a !! s = Some col →
  col !! rec_index rc = Some v →
  find s e r = Ok (Some v).
Proof.
  intros He Hka Hk Hcol Hv. unfold find, arch_of.
  rewrite He, Hka, (deref_Some _ _ _ Hk). simpl.
  unfold arch_find. by rewrite Hcol, Hv.
Qed.

Lemma attach_spec r s e t :
  wf r → attach_pre e r →
  ∃ r', attach s e t r = Ok (r', t) ∧ wf r'
    ∧ find s e r' = Ok (Some t)
    ∧ m_next_id r' = m_next_id r ∧ m_id r' = m_id r
    ∧ dom (m_records r') = {[e]} ∪ dom (m_records r)
    ∧ rec_name <$> m_records r' !! e = Some (name e r).
Proof.
  clear default_value s_name_prefix.
  intros Hwf Hpre. pose proof Hwf as (Hok & H2 & H3 & H6).
  destruct (get_or_make e (m_records r)) as [recs rc] eqn:Hgm.
  destruct (wf_get_or_make r e recs rc Hwf (proj2 Hpre) Hgm)
    as (Hwf1 & Hrc & Hdom & Hname & Hdef).
  destruct (rec_arch rc) as [k|] eqn:Hka.
  - (* the record was there, with an archetype *)
    assert (m_records r !! e = Some rc) as He.
    { destruct (m_records r !! e) eqn:He0.
      - unfold get_or_make in Hgm. rewrite He0 in Hgm. congruence.
      - rewrite (Hdef eq_refl) in Hka. done. }
    assert (dom (m_records r) = {[e]} ∪ dom (m_records r)) as Hdom0.
    { apply elem_of_dom_2 in He. set_solver. }
    destruct (I2_lookup _ _ _ _ H2 He Hka) as (a & Ha & Hrow).
    pose proof (Hok k a Ha) as Haok.
    assert (rec_index rc < arch_size a) as Hi
      by (unfold arch_size; eapply lookup_lt_Some; eauto).
    destruct (arch_columns a !! s) as [col|] eqn:Hcol.
    + (* assigned in place *)
      pose proof (arch_ok_length k a s col Haok Hcol) as Hlen.
      eexists. split.
      { apply (attach_overwrite r s e t rc k a col); trivial.
        unfold arch_size in Hi. lia. }
      split.
      { apply (wf_same_rows r k a); trivial.
        by apply arch_ok_assign_at. }
      split.
      { eapply (find_at _ s e rc k); simpl; trivial.
        - apply lookup_insert_eq.
        - simpl. apply lookup_insert_eq.
        - apply list_lookup_insert_eq. unfold arch_size in Hi. lia. }
      simpl. rewrite He. simpl. rewrite <- Hname.
      split; [done|]. split; [done|]. split; done.
    + (* migration to the archetype with [s] added *)
      destruct (copy_append s a (m_map r)) as [m k'] eqn:Hm.
      unfold copy_append in Hm.
      destruct (wf_map_get_or_make r _ m k' Hwf Hm)
        as (Hwfm & Hk' & [b Hb] & Hkeep).
      assert (s ∈ k') as Hsk'.
      { rewrite Hk'. apply elem_of_make_id, elem_of_id_insert. by left. }
      assert (s ∉ k) as Hsk.
      { intros Hin. apply (arch_ok_column k a s Haok) in Hin as [? ?].
        congruence. }
      assert (k' ≠ k) as Hne by (intros ->; done).
      pose proof (Hkeep k a Ha) as Hma.
      assert (arch_ok k' b) as Hbok by (destruct Hwfm as (Hokm & _); exact (Hokm k' b Hb)).
      destruct (proj2 (arch_ok_column k' b s Hbok) Hsk') as [col Hbcol].
      pose proof (arch_ok_length k' b s col Hbok Hbcol) as Hlen.
      eexists. split.
      { apply (attach_migrate r s e t rc k a k' m b col); trivial. }
      assert (wf (Registry
          (<[k' := with_row e s t col
                     (arch_columns (receive_back e (at_back (rec_index rc) a) b)) b]>
             (<[k := popped (at_back (rec_index rc) a)]> m))
          (<[e := Record_ (rec_name rc) (Some k') (length col)]>
             (reindexed (rec_index rc) a (m_records r)))
          (m_next_id r) (m_id r))) as Hwf'.
      { rewrite Hlen.
        apply (wf_move_row (set_map m r) e rc k a k' b); trivial.
        apply arch_ok_with_row; trivial.
        - by destruct Hbok.
        - rewrite receive_back_columns, Hbcol. simpl.
          assert (arch_columns (at_back (rec_index rc) a) !! s = None) as ->.
          { unfold at_back. destruct (is_last (rec_index rc) a); simpl; [done|].
            by rewrite lookup_fmap, Hcol. }
          done.
        - rewrite dom_receive_back. by destruct Hbok as (_ & ? & _).
        - intros s' c' Hs'. rewrite receive_back_columns. intros Hc'.
          apply fmap_Some in Hc' as (c & Hc & ->).
          assert (s' ∈ k') as Hin
            by (apply (arch_ok_column k' b s' Hbok); eauto).
          rewrite Hk' in Hin.
          apply elem_of_make_id, elem_of_id_insert in Hin as [->|Hin]; [done|].
          destruct Haok as (Hida & _). rewrite Hida in Hin.
          destruct (at_back_column k a (rec_index rc) s')
            as (ca & v & Hca & Hv); [apply (Hok _ _ Ha)|lia|done|].
          rewrite Hca. simpl. rewrite Hv.
          rewrite length_app. simpl.
          destruct Hbok as (_ & _ & Hl). rewrite (Hl s' c Hc). lia. }
      split; [exact Hwf'|]. split.
      { eapply (find_at _ s e _ k'); simpl.
        - apply lookup_insert_eq.
        - done.
        - apply lookup_insert_eq.
        - simpl. apply lookup_insert_eq.
        - simpl. by apply list_lookup_middle. }
      simpl. split; [done|]. split; [done|]. split.
      * rewrite dom_insert_L. rewrite (dom_reindexed r k a) by done.
        done.
      * rewrite lookup_insert_eq. simpl. by rewrite Hname.
  - (* no archetype yet *)
    destruct (map_get_or_make [s] (m_map r)) as [m k] eqn:Hm.
    destruct (wf_map_get_or_make (set_records recs r) [s] m k Hwf1 Hm)
      as (Hwfm & Hk & [a Ha] & Hkeep).
    subst k.
    assert (arch_ok (make_id [s]) a) as Haok
      by (destruct Hwfm as (Hokm & _); exact (Hokm _ a Ha)).
    assert (s ∈ make_id [s]) as Hs
      by (apply elem_of_make_id, list_elem_of_singleton; done).
    destruct (proj2 (arch_ok_column _ a s Haok) Hs) as [col Hcol].
    pose proof (arch_ok_length _ a s col Haok Hcol) as Hlen.
    eexists. split.
    { apply (attach_first r s e t recs rc m a col); trivial. }
    assert (wf (Registry
        (<[make_id [s] := with_row e s t col (arch_columns a) a]> m)
        (<[e := Record_ (rec_name rc) (Some (make_id [s])) (length col)]> recs)
        (m_next_id r) (m_id r))) as Hwf'.
    { rewrite Hlen.
      apply (wf_push_row (set_map m (set_records recs r)) e rc _ a); trivial.
      apply arch_ok_with_row; trivial.
      - by destruct Haok.
      - by destruct Haok as (_ & ? & _).
      - intros s' c' Hs' Hc'.
        assert (s' ∈ make_id [s]) as Hin
          by (apply (arch_ok_column _ a s' Haok); eauto).
        apply elem_of_make_id, list_elem_of_singleton in Hin. done. }
    split; [exact Hwf'|]. split.
    { eapply (find_at _ s e _ (make_id [s])); simpl.
      - apply lookup_insert_eq.
      - done.
      - apply lookup_insert_eq.
      - simpl. apply lookup_insert_eq.
      - simpl. by apply list_lookup_middle. }
    simpl. split; [done|]. split; [done|]. split.
    * rewrite dom_insert_L. rewrite Hdom. set_solver.
    * rewrite lookup_insert_eq. simpl. by rewrite Hname.
Qed.

(** ** make_entity *)

Lemma wf_next_id r n :
  wf r → wf (Registry (m_map r) (m_records r) n (m_id r)).
Proof. intros H. exact H. Qed.

Lemma lookup_pushed types (cols : gmap sign_t (list value)) s :
  pushed types cols !! s =
    (λ col, if bool_decide (s ∈ types) then col ++ [default_value s] else col)
      <$> cols !! s.
Proof.
  unfold pushed. rewrite map_lookup_imap. by destruct (cols !! s).
Qed.

Lemma pushed_nil (cols : gmap sign_t (list value)) : pushed [] cols = cols.
Proof.
  apply map_eq. intros s. rewrite lookup_pushed.
  destruct (cols !! s); done.
Qed.

Lemma pushed_cons s types (cols : gmap sign_t (list value)) col :
  s ∉ types → cols !! s = Some col →
  pushed types (<[s := col ++ [default_value s]]> cols) = pushed (s :: types) cols.
Proof.
  intros Hs Hcol. apply map_eq. intros x. rewrite !lookup_pushed.
  destruct (decide (x = s)) as [->|Hx].
  - rewrite lookup_insert_eq, Hcol. simpl.
    rewrite bool_decide_false by done.
    by rewrite bool_decide_true by apply list_elem_of_here.
  - rewrite lookup_insert_ne by done.
    destruct (cols !! x); [|done]. simpl. f_equal.
    destruct (decide (x ∈ types)).
    + rewrite !bool_decide_true; trivial. by apply list_elem_of_further.
    + rewrite !bool_decide_false; trivial.
      rewrite elem_of_cons. naive_solver.
Qed.

Lemma emplace_back_all_spec e k n types :
  ∀ r1 a1 rc1,
    NoDup types →
    (∀ s, s ∈ types →
       ∃ col, arch_columns a1 !! s = Some col ∧ length col = n) →
    m_map r1 !! k = Some a1 → m_records r1 !! e = Some rc1 →
    ∃ r2, emplace_back_all types e k r1 = Ok r2
      ∧ m_map r2 =
          <[k := {| arch_id := arch_id a1;
                    arch_entities := arch_entities a1;
                    arch_columns := pushed types (arch_columns a1) |}]> (m_map r1)
      ∧ m_records r2 =
          match types with
          | [] => m_records r1
          | _ => <[e := Record_ (rec_name rc1) (Some k) n]> (m_records r1)
          end
      ∧ m_next_id r2 = m_next_id r1 ∧ m_id r2 = m_id r1.
Proof.
  induction types as [|s types IH]; intros r1 a1 rc1 Hnd Hcols Hk He; simpl.
  - exists r1. split; [done|]. rewrite pushed_nil.
    split; [|done]. destruct a1. simpl. by rewrite insert_id.
  - apply NoDup_cons in Hnd as [Hs Hnd].
    destruct (Hcols s) as (col & Hcol & Hlen); [apply list_elem_of_here|].
    unfold emplace_back. rewrite (deref_Some _ _ _ Hk). simpl.
    rewrite Hcol, He. simpl.
    match goal with
    | |- context [emplace_back_all types e k ?R] =>
        destruct (IH R
          {| arch_id := arch_id a1;
             arch_entities := arch_entities a1;
             arch_columns := <[s := col ++ [default_value s]]> (arch_columns a1) |}
          (Record_ (rec_name rc1) (Some k) (length col)) Hnd)
          as (r2 & Hr2 & Hm2 & Hrec2 & Hn2 & Hi2)
    end.
    { simpl. intros s' Hs'. rewrite lookup_insert_ne by (intros ->; done).
      apply Hcols. by apply list_elem_of_further. }
    { simpl. apply lookup_insert_eq. }
    { simpl. apply lookup_insert_eq. }
    exists r2. split; [exact Hr2|]. simpl in *.
    split.
    { rewrite Hm2, insert_insert_lookup. by rewrite (pushed_cons s types _ col). }
    split; [|done]. rewrite Hrec2, Hlen.
    destruct types; [done|]. by rewrite insert_insert_eq.
Qed.

Lemma emplace_back_all_ids e k types :
  ∀ r1 r2, emplace_back_all types e k r1 = Ok r2 →
           m_next_id r2 = m_next_id r1 ∧ m_id r2 = m_id r1.
Proof.
  induction types as [|s types IH]; intros r1 r2; simpl.
  - by intros [= <-].
  - destruct (emplace_back s e k r1) as [r1'|] eqn:H1; [|done]. simpl.
    intros H2. apply IH in H2 as [-> ->].
    unfold emplace_back in H1. destruct (deref k (m_map r1)); [|done].
    simpl in H1.
    destruct (arch_columns a !! s), (m_records r1 !! e); simplify_eq; done.
Qed.

Lemma make_entity_ids types n r r' e :
  make_entity types n r = Ok (r', e) →
  e = Entity (size_t_incr (m_next_id r)) (m_id r)
  ∧ m_next_id r' = size_t_incr (m_next_id r) ∧ m_id r' = m_id r.
Proof.
  unfold make_entity. destruct types as [|s types].
  - by intros [= <- <-].
  - destruct (map_get_or_make (s :: types) (m_map r)) as [m k].
    destruct (deref k m); [|done]. cbn -[emplace_back_all].
    match goal with
    | |- context [emplace_back_all ?ts ?e0 ?k0 ?r0] =>
        destruct (emplace_back_all ts e0 k0 r0) as [r2|] eqn:H2; [|done]
    end.
    simpl. intros [= <- <-]. apply emplace_back_all_ids in H2 as [-> ->]. done.
Qed.

Lemma issued_fresh r :
  issued r → (m_next_id r + 1 < 2 ^ 64)%N →
  m_records r !! Entity (size_t_incr (m_next_id r)) (m_id r) = None.
Proof.
  intros His Hov. destruct (m_records r !! _) as [rc|] eqn:He; [|done].
  specialize (His _ _ He). simpl in His. unfold size_t_incr in His.
  rewrite N.mod_small in His by done. lia.
Qed.

Lemma make_entity_spec types n r :
  wf r → issued r → NoDup types → (m_next_id r + 1 < 2 ^ 64)%N →
  ∃ r', make_entity types n r
        = Ok (r', Entity (size_t_incr (m_next_id r)) (m_id r))
    ∧ wf r' ∧ issued r'.
Proof.
  intros Hwf His Hnd Hov.
  pose proof (issued_fresh r His Hov) as Hfresh.
  set (e := Entity (size_t_incr (m_next_id r)) (m_id r)) in *.
  set (n' := if decide (n = "") then make_name (size_t_incr (m_next_id r)) else n).
  assert (wf (set_records (<[e := Record_ n' None 0]> (m_records r)) r)) as Hwf1
    by (by apply wf_new_record).
  assert (∀ m, issued (Registry m (<[e := Record_ n' None 0]> (m_records r))
                         (size_t_incr (m_next_id r)) (m_id r))) as His1.
  { intros m e' rc He'. simpl in *.
    apply lookup_insert_Some in He' as [[<- <-]|[Hne He']]; [done|].
    specialize (His _ _ He'). simpl in His. unfold size_t_incr.
    rewrite N.mod_small by done. lia. }
  unfold make_entity. fold e. fold n'. rewrite Hfresh.
  destruct types as [|s types].
  - eexists. split; [done|]. split; [|apply His1].
    destruct Hwf1 as (? & ? & ? & ?). split; [|split; [|split]]; done.
  - set (types' := s :: types) in *.
    destruct (map_get_or_make types' (m_map r)) as [m k] eqn:Hm.
    destruct (wf_map_get_or_make _ types' m k Hwf1 Hm)
      as (Hwfm & Hk & [a Ha] & Hkeep).
    rewrite (deref_Some _ _ _ Ha). cbn -[emplace_back_all].
    assert (arch_ok k a) as Haok
      by (destruct Hwfm as (Hokm & _); exact (Hokm _ a Ha)).
    edestruct (emplace_back_all_spec e k (arch_size a) types'
                 (Registry (<[k := push_back e a]> m)
                    (<[e := Record_ n' None 0]> (m_records r))
                    (size_t_incr (m_next_id r)) (m_id r))
                 (push_back e a) (Record_ n' None 0) Hnd)
      as (r2 & Hr2 & Hm2 & Hrec2 & Hn2 & Hi2).
    { intros s' Hs'. simpl.
      assert (s' ∈ k) as Hin by (rewrite Hk; by apply elem_of_make_id).
      apply (arch_ok_column k a s' Haok) in Hin as [col Hcol].
      exists col. split; [done|]. by apply (arch_ok_length k a s'). }
    { simpl. apply lookup_insert_eq. }
    { simpl. apply lookup_insert_eq. }
    rewrite Hr2. cbn [mbind result_bind]. exists r2. split; [done|].
    cbn [m_map m_records m_next_id m_id push_back arch_id arch_entities
         arch_columns] in Hm2, Hrec2, Hn2, Hi2.
    rewrite insert_insert_lookup in Hm2.
    assert (r2 = Registry
              (<[k := {| arch_id := arch_id a;
                         arch_entities := arch_entities a ++ [e];
                         arch_columns := pushed types' (arch_columns a) |}]> m)
              (<[e := Record_ n' (Some k) (length (arch_entities a))]>
                 (<[e := Record_ n' None 0]> (m_records r)))
              (size_t_incr (m_next_id r)) (m_id r)) as ->.
    { destruct r2. simpl in *. subst. unfold types', arch_size. done. }
    split.
    + assert (arch_ok k {| arch_id := arch_id a;
                           arch_entities := arch_entities a ++ [e];
                           arch_columns := pushed types' (arch_columns a) |})
        as Hb'.
      { split; [by destruct Haok|]. split; simpl.
        { unfold pushed. apply set_eq. intros s'.
          rewrite elem_of_dom, map_lookup_imap.
          destruct Haok as (_ & Hdom & _). rewrite <- Hdom, elem_of_dom.
          destruct (arch_columns a !! s'); simpl; split; intros [? ?]; eauto; done. }
        intros s' c'. rewrite lookup_pushed. intros Hc'.
        apply fmap_Some in Hc' as (c & Hc & ->).
        assert (s' ∈ types') as Hin.
        { apply elem_of_make_id. rewrite <- Hk.
          apply (arch_ok_column k a s' Haok). eauto. }
        rewrite bool_decide_true by done.
        unfold arch_size. simpl. rewrite !length_app. simpl.
        f_equal. by apply (arch_ok_length k a s'). }
      exact (wf_push_row
               (Registry m (<[e := Record_ n' None 0]> (m_records r))
                  (size_t_incr (m_next_id r)) (m_id r))
               e (Record_ n' None 0) k a _ n'
               (wf_next_id _ (size_t_incr (m_next_id r)) Hwfm)
               (lookup_insert_eq _ _ _) eq_refl Ha Hb' eq_refl).
    + rewrite insert_insert_eq. intros e' rc He'. simpl in *.
      apply lookup_insert_Some in He' as [[<- <-]|[Hne He']]; [done|].
      specialize (His _ _ He'). simpl in His. unfold size_t_incr.
      rewrite N.mod_small by done. lia.
Qed.

(** ** The handles of the records *)

Lemma issued_subseteq r r' :
  issued r → m_next_id r' = m_next_id r →
  dom (m_records r') ⊆ dom (m_records r) → issued r'.
Proof.
  intros His Hn Hdom e rc He. rewrite Hn.
  assert (e ∈ dom (m_records r)) as Hin
    by (apply Hdom; by apply elem_of_dom_2 in He).
  apply elem_of_dom in Hin as [rc0 Hrc0]. exact (His e rc0 Hrc0).
Qed.

Lemma issued_add r r' e :
  issued r → m_next_id r' = m_next_id r → (entity_id e ≤ m_next_id r)%N →
  dom (m_records r') = {[e]} ∪ dom (m_records r) → issued r'.
Proof.
  intros His Hn Hle Hdom e' rc He'. rewrite Hn.
  assert (e' ∈ dom (m_records r')) as Hin by (by apply elem_of_dom_2 in He').
  rewrite Hdom in Hin. apply elem_of_union in Hin as [Hin|Hin].
  - apply elem_of_singleton in Hin as ->. done.
  - apply elem_of_dom in Hin as [rc0 Hrc0]. exact (His e' rc0 Hrc0).
Qed.

Lemma wf_I2 r : wf r → I2 r.
Proof. by intros (_ & ? & _). Qed.

Lemma step_wf o r r' oe :
  wf r → issued r → op_valid o r → step o r = Ok (r', oe) →
  wf r' ∧ issued r'.
Proof.
  intros Hwf His Hval. destruct o as [types n|s e t|signs e|e|e n|]; simpl.
  - destruct Hval as [Hnd Hov].
    destruct (make_entity_spec types n r Hwf His Hnd Hov) as (r1 & -> & ? & ?).
    simpl. by intros [= <- <-].
  - destruct (attach s e t r) as [[r1 v]|] eqn:Hat; [|done]. simpl.
    intros [= <- <-].
    assert (attach_pre e r) as Hpre.
    { unfold attach in Hat. unfold attach_pre, null_id in *.
      destruct (0 <? entity_id e)%N eqn:Hlt; [|done].
      case_bool_decide; [|done]. split; [by apply N.ltb_lt|done]. }
    destruct (attach_spec r s e t Hwf Hpre)
      as (r2 & Hr2 & Hwf2 & _ & Hn & _ & Hdom & _).
    rewrite Hr2 in Hat. simplify_eq. split; [done|].
    by apply (issued_add r r1 e).
  - destruct (detach signs e r) as [[r1 b]|] eqn:Hd; [|done]. simpl.
    intros [= <- <-].
    destruct (detach_wf _ _ _ _ _ Hwf Hd) as (? & Hn & _ & Hdom).
    split; [done|]. apply (issued_subseteq r); trivial. by rewrite Hdom.
  - destruct (destroy_spec r e Hwf)
      as (r1 & -> & Hwf1 & _ & Hn & _ & Hdom & _).
    simpl. intros [= <- <-]. split; [done|].
    apply (issued_subseteq r); trivial. rewrite Hdom. set_solver.
  - intros [= <- <-]. split; [by apply wf_rename|].
    unfold rename. destruct (m_records r !! e) as [rc|] eqn:He; [|done].
    simpl. apply (issued_subseteq r); trivial. simpl.
    rewrite dom_insert_lookup_L; eauto.
  - intros [= <- <-]. split; [apply wf_clear|]. apply map_Forall_empty.
Qed.

(** ** The counters, in any registry *)

Ltac run_result H :=
  repeat first
    [ discriminate H
    | match type of H with
      | Ok _ = Ok _ => injection H as H
      | context [mbind _ ?c] =>
          let E := fresh "E" in
          destruct c as [?|?] eqn:E; cbn [mbind result_bind] in H
      | context [match ?x with _ => _ end] =>
          let E := fresh "E" in destruct x eqn:E
      end ].

Lemma send_to_back_ids e r r1 :
  send_to_back e r = Ok r1 → same_ids r r1.
Proof.
  unfold send_to_back, assert. intros H. run_result H; by subst.
Qed.

Lemma migrate_to_ids e out r r1 :
  migrate_to e out r = Ok r1 → same_ids r r1.
Proof.
  unfold migrate_to, assert. intros H.
  destruct (send_to_back e r) as [r0|] eqn:H0; [|done].
  apply send_to_back_ids in H0 as [Hn Hi]. cbn [mbind result_bind] in H.
  run_result H; subst; split; simpl; congruence.
Qed.

Lemma destroy_ids e r r1 b :
  destroy e r = Ok (r1, b) → same_ids r r1.
Proof.
  unfold destroy. intros H.
  destruct (m_records r !! e) as [rc|]; [|by simplify_eq].
  destruct (rec_arch rc).
  - destruct (migrate_to e None r) as [r0|] eqn:H0; [|done].
    apply migrate_to_ids in H0 as [Hn Hi]. simpl in H. by simplify_eq.
  - simpl in H. by simplify_eq.
Qed.

Lemma do_detach_ids s e r r1 b :
  do_detach s e r = Ok (r1, b) → same_ids r r1.
Proof.
  unfold do_detach, assert. intros H. run_result H; by subst.
Qed.

Lemma detach_ids signs e :
  ∀ r r1 b, detach signs e r = Ok (r1, b) → same_ids r r1.
Proof.
  induction signs as [|s signs IH]; simpl; intros r r1 b H.
  - by simplify_eq.
  - destruct (do_detach s e r) as [[r0 b0]|] eqn:H0; [|done].
    apply do_detach_ids in H0 as [Hn Hi]. simpl in H. destruct b0.
    + apply IH in H as [? ?]. split; congruence.
    + by simplify_eq.
Qed.

Lemma attach_ids s e t r r1 v :
  attach s e t r = Ok (r1, v) → same_ids r r1.
Proof.
  unfold attach, assert. intros H.
  destruct ((null_id <? entity_id e)%N && bool_decide (registry_id e = m_id r));
    [|done].
  cbn [mbind result_bind] in H.
  destruct (get_or_make e (m_records r)) as [recs rc].
  destruct (rec_arch rc) as [k|].
  - destruct (deref k _) as [a|]; [|done]. cbn [mbind result_bind] in H.
    destruct (arch_find s a).
    + run_result H; by subst.
    + destruct (copy_append s a _) as [m k'].
      destruct (migrate_to e (Some k') _) as [r0|] eqn:H0; [|done].
      apply migrate_to_ids in H0 as [Hn Hi]. cbn [mbind result_bind] in H.
      run_result H; subst; split; simpl in *; congruence.
  - run_result H; by subst.
Qed.

Lemma step_ids o r r' oe :
  step o r = Ok (r', oe) →
  m_id r' = m_id r
  ∧ match oe with
    | Some e => e = Entity (size_t_incr (m_next_id r)) (m_id r)
                ∧ m_next_id r' = size_t_incr (m_next_id r)
    | None => m_next_id r' = m_next_id r
    end.
Proof.
  destruct o as [types n|s e t|signs e|e|e n|]; simpl.
  - destruct (make_entity types n r) as [[r1 e]|] eqn:H; [|done]. simpl.
    intros [= <- <-]. apply make_entity_ids in H as (? & ? & ?). done.
  - destruct (attach s e t r) as [[r1 v]|] eqn:H; [|done]. simpl.
    intros [= <- <-]. apply attach_ids in H as [? ?]. done.
  - destruct (detach signs e r) as [[r1 b]|] eqn:H; [|done]. simpl.
    intros [= <- <-]. apply detach_ids in H as [? ?]. done.
  - destruct (destroy e r) as [[r1 b]|] eqn:H; [|done]. simpl.
    intros [= <- <-]. apply destroy_ids in H as [? ?]. done.
  - intros [= <- <-]. unfold rename. by destruct (m_records r !! e).
  - by intros [= <- <-].
Qed.

Lemma fmap_S_seq_N (f : nat → entity) (i n : nat) :
  f <$> seq (S i) n = (λ j, f (S j)) <$> seq i n.
Proof. by rewrite <- fmap_S_seq, <- list_fmap_compose. Qed.

(** The handles a run issues are those of the consecutive ids after the
    counter, as long as the counter does not overflow. *)
Lemma run_issues ops :
  ∀ r r' es, run ops r = Ok (r', es) →
    m_id r' = m_id r
    ∧ ((m_next_id r + N.of_nat (length es) < 2 ^ 64)%N →
       m_next_id r' = (m_next_id r + N.of_nat (length es))%N
       ∧ es = (λ i, Entity (m_next_id r + 1 + N.of_nat i) (m_id r))
                <$> seq 0 (length es)).
Proof.
  induction ops as [|o ops IH]; simpl; intros r r' es H.
  - injection H as <- <-. split; [done|]. intros _. simpl.
    split; [lia|done].
  - destruct (step o r) as [[r1 oe]|] eqn:Hs; [|done]. simpl in H.
    destruct (run ops r1) as [[r2 es']|] eqn:Hr; [|done]. simpl in H.
    injection H as <- <-.
    apply step_ids in Hs as [Hid1 Hoe]. apply IH in Hr as [Hid2 Hes].
    split; [congruence|]. intros Hov. destruct oe as [e|]; simpl in *.
    + destruct Hoe as [-> Hn1]. unfold size_t_incr in *.
      rewrite N.mod_small in * by lia.
      destruct Hes as [Hn2 Hes']; [lia|]. split; [lia|].
      f_equal; [f_equal; lia|]. rewrite fmap_S_seq_N.
      rewrite Hes' at 1. rewrite Hn1, Hid1. apply list_fmap_ext.
      intros _ i _. f_equal. lia.
    + rewrite Hoe in Hes. destruct Hes as [Hn2 Hes']; [lia|].
      split; [done|]. rewrite Hes' at 1. by rewrite Hid1.
Qed.

Lemma find_Some_inv r s e v :
  find s e r = Ok (Some v) →
  ∃ rc k a col, m_records r !! e = Some rc ∧ rec_arch rc = Some k
    ∧ m_map r !! k = Some a ∧ arch_columns a !! s = Some col
    ∧ col !! rec_index rc = Some v.
Proof.
  unfold find, arch_of, deref, arch_find. intros H.
  destruct (m_records r !! e) as [rc|] eqn:He; [|done].
  destruct (rec_arch rc) as [k|] eqn:Hka; [|done].
  destruct (m_map r !! k) as [a|] eqn:Hk; [|done]. simpl in H.
  destruct (arch_columns a !! s) as [col|] eqn:Hcol; [|done].
  destruct (col !! rec_index rc) as [v'|] eqn:Hv; [|done].
  injection H as ->. by exists rc, k, a, col.
Qed.

Lemma get_of_find r s e v :
  attach_pre e r → find s e r = Ok (Some v) → get s e r = Ok v.
Proof.
  intros Hpre Hf. unfold get. rewrite (attach_pre_assert e r Hpre). simpl.
  by rewrite Hf.
Qed.

Lemma no_record_queries r e :
  m_records r !! e = None →
  contains e r = false
  ∧ (∀ s, find s e r = Ok None) ∧ (∀ s, attached s e r = Ok false)
  ∧ (∀ signs, all_attached signs e r = Ok false)
  ∧ (∀ signs, any_attached signs e r = Ok false).
Proof.
  intros He. unfold contains, find, attached, all_attached, any_attached, arch_of.
  rewrite He. simpl. by repeat split.
Qed.

Lemma attached_spec r s e :
  wf r →
  ∃ o b, find s e r = Ok o ∧ attached s e r = Ok b
    ∧ all_attached [s] e r = Ok b ∧ (is_Some o ↔ b = true).
Proof.
  intros (Hok & H2 & _). unfold find, attached, all_attached, arch_of.
  destruct (m_records r !! e) as [rc|] eqn:He.
  2:{ exists None, false. simpl. repeat split; try done. }
  destruct (rec_arch rc) as [k|] eqn:Hka.
  2:{ exists None, false. simpl. repeat split; try done. }
  destruct (I2_lookup _ _ _ _ H2 He Hka) as (a & Ha & Hrow).
  rewrite (deref_Some _ _ _ Ha). simpl.
  pose proof (Hok k a Ha) as Haok. unfold arch_find, has_all. simpl.
  destruct (arch_columns a !! s) as [col|] eqn:Hcol.
  - assert (rec_index rc < length col) as Hi.
    { rewrite (arch_ok_length k a s col Haok Hcol).
      eapply lookup_lt_Some; eauto. }
    destruct (lookup_lt_is_Some_2 col _ Hi) as [v Hv]. rewrite Hv.
    exists (Some v), true. split; [done|]. split.
    { by rewrite bool_decide_true by eauto. }
    split; [|by split; eauto].
    rewrite bool_decide_true; [done|]. destruct Haok as (-> & _).
    apply (arch_ok_column k a s); [|eauto]. exact (Hok k a Ha).
  - exists None, false. split; [done|]. split.
    { by rewrite bool_decide_false by (by intros [? ?]). }
    split; [|by split; [intros [? ?]|]].
    rewrite bool_decide_false; [done|]. destruct Haok as (-> & _).
    intros Hin. apply (arch_ok_column k a s (Hok k a Ha)) in Hin as [? ?].
    congruence.
Qed.

(** ** view *)

Lemma has_all_spec types a :
  has_all types a = true ↔ ∀ s, s ∈ types → s ∈ arch_id a.
Proof.
  unfold has_all. rewrite <- Is_true_true, forallb_True, Forall_forall.
  apply forall_proper. intros s. by rewrite bool_decide_spec.
Qed.

Lemma has_any_spec excl a :
  has_any excl a = false ↔ ∀ s, s ∈ excl → s ∉ arch_id a.
Proof.
  unfold has_any. rewrite <- Is_true_false, existb_True, Exists_exists.
  split.
  - intros H s Hs Hin. apply H. exists s. by rewrite bool_decide_spec.
  - intros H (s & Hs & Hin). rewrite bool_decide_spec in Hin. by apply (H s).
Qed.

Lemma included_spec types excl a :
  included types excl a = true ↔
    (∀ s, s ∈ types → s ∈ arch_id a) ∧ (∀ s, s ∈ excl → s ∉ arch_id a).
Proof.
  unfold included. rewrite andb_true_iff, negb_true_iff.
  by rewrite has_all_spec, has_any_spec.
Qed.

Lemma arch_at_ok k a types i e :
  arch_ok k a → has_all types a = true → arch_entities a !! i = Some e →
  ∃ cs, arch_at types i a = Ok (EntityView e cs).
Proof.
  intros Hok Hall He. unfold arch_at. rewrite He.
  assert (is_Some (mapM (λ s, arch_columns a !! s ≫= (.!! i)) types))
    as [vs Hvs].
  { apply mapM_is_Some_2, Forall_forall. intros s Hs. simpl.
    rewrite has_all_spec in Hall. pose proof Hok as (Hid & _).
    assert (s ∈ k) as Hin by (rewrite <- Hid; by apply Hall).
    apply (arch_ok_column k a s Hok) in Hin as [col Hcol].
    rewrite Hcol. simpl. apply lookup_lt_is_Some_2.
    rewrite (arch_ok_length k a s col Hok Hcol).
    eapply lookup_lt_Some; eauto. }
  rewrite Hvs. eauto.
Qed.

Lemma append_rows_spec k a types :
  arch_ok k a → has_all types a = true →
  ∀ n i (out : list (@entity_view value)), i + n = arch_size a →
    ∃ vs, append_rows types a i n out = Ok (out ++ vs)
      ∧ entity_ <$> vs = drop i (arch_entities a)
      ∧ Forall (λ v, ∃ j, arch_at types j a = Ok v) vs.
Proof.
  intros Hok Hall. induction n as [|n IH]; intros i out Hin; simpl.
  - exists []. rewrite app_nil_r. split; [done|]. split; [|done].
    rewrite drop_ge; [done|]. unfold arch_size in Hin. lia.
  - assert (i < length (arch_entities a)) as Hi
      by (unfold arch_size in Hin; lia).
    destruct (lookup_lt_is_Some_2 _ _ Hi) as [e He].
    destruct (arch_at_ok k a types i e Hok Hall He) as (cs & Hat).
    rewrite Hat. simpl.
    destruct (IH (S i) (out ++ [EntityView e cs]))
      as (vs & Hvs & Hents & Hrows); [lia|].
    exists (EntityView e cs :: vs). rewrite Hvs, <- app_assoc. split; [done|].
    split; [|apply Forall_cons; eauto].
    rewrite fmap_cons, Hents. simpl. symmetry. by apply drop_S.
Qed.

Lemma view_archs_spec types excl archs :
  Forall (λ ka, arch_ok ka.1 ka.2) archs →
  ∀ ret, ∃ vs, view_archs types excl archs ret = Ok (ret ++ vs)
    ∧ entity_ <$> vs = listed types excl archs
    ∧ Forall (λ v, ∃ k a j, (k, a) ∈ archs ∧ arch_at types j a = Ok v) vs.
Proof.
  unfold listed, included.
  induction archs as [|[k a] archs IH]; intros Hok ret; simpl.
  - exists []. by rewrite app_nil_r.
  - apply Forall_cons in Hok as [Hoka Hok]. simpl in Hoka.
    assert (∀ vs,
      Forall (λ v, ∃ k' a' j, (k', a') ∈ archs ∧ arch_at types j a' = Ok v) vs →
      Forall (λ v, ∃ k' a' j, (k', a') ∈ (k, a) :: archs
                              ∧ arch_at types j a' = Ok v) vs) as Hweak.
    { intros vs Hvs. eapply Forall_impl; [exact Hvs|].
      intros v (k' & a' & j & Hin & Hat).
      exists k', a', j. split; [by right|done]. }
    destruct (has_all types a) eqn:Hall; simpl.
    + destruct (has_any excl a) eqn:Hany; simpl.
      * destruct (IH Hok ret) as (vs & -> & Hvs & Hrows). eauto.
      * destruct (append_rows_spec k a types Hoka Hall (arch_size a) 0 ret)
          as (vs1 & Hvs1 & Hents1 & Hrows1); [done|].
        unfold append. rewrite Hvs1. simpl.
        destruct (IH Hok (ret ++ vs1)) as (vs & -> & Hvs & Hrows).
        exists (vs1 ++ vs). rewrite app_assoc. split; [done|]. split.
        { by rewrite fmap_app, Hents1, Hvs. }
        apply Forall_app. split; [|by apply Hweak].
        eapply Forall_impl; [exact Hrows1|]. intros v [j Hat].
        exists k, a, j. split; [by left|done].
    + destruct (IH Hok ret) as (vs & -> & Hvs & Hrows). eauto.
Qed.

(** The components of a view are what [find] finds for its entity. *)
Lemma arch_at_components r k a types j v :
  I3 r → m_map r !! k = Some a → arch_at types j a = Ok v →
  Forall2 (λ s c, find s (entity_ v) r = Ok (Some c)) types (components v).
Proof.
  intros H3 Hk. unfold arch_at.
  destruct (arch_entities a !! j) as [e|] eqn:He; [|done].
  destruct (mapM _ types) as [cs|] eqn:Hcs; [|done]. intros [= <-]. simpl.
  apply mapM_Some_1 in Hcs.
  destruct (I3_lookup _ _ _ _ _ H3 Hk He) as (rc & Hrc & Hrk & Hri).
  eapply Forall2_impl; [exact Hcs|]. intros s c Hc. simpl in Hc.
  destruct (arch_columns a !! s) as [col|] eqn:Hcol; [|done]. simpl in Hc.
  apply (find_at r s e rc k a col c); trivial. by rewrite Hri.
Qed.

Lemma I3_NoDup r k a : I3 r → m_map r !! k = Some a → NoDup (arch_entities a).
Proof.
  intros H3 Hk. apply NoDup_alt. intros i j e Hi Hj.
  destruct (I3_lookup _ _ _ _ _ H3 Hk Hi) as (rc & Hrc & _ & <-).
  destruct (I3_lookup _ _ _ _ _ H3 Hk Hj) as (rc' & Hrc' & _ & <-).
  congruence.
Qed.

Lemma elem_of_listed types excl archs e :
  e ∈ listed types excl archs ↔
    ∃ k a, (k, a) ∈ archs ∧ included types excl a = true
           ∧ e ∈ arch_entities a.
Proof.
  unfold listed. rewrite list_elem_of_join. split.
  - intros (l & Hel & Hl). apply list_elem_of_fmap in Hl as ([k a] & -> & Hka).
    simpl in Hel. destruct (included types excl a) eqn:Hinc.
    + by exists k, a.
    + by apply elem_of_nil in Hel.
  - intros (k & a & Hka & Hinc & He). exists (arch_entities a).
    split; [done|]. apply list_elem_of_fmap. exists (k, a). simpl.
    by rewrite Hinc.
Qed.

Lemma NoDup_listed r types excl archs :
  I3 r → NoDup archs.*1 →
  (∀ k a, (k, a) ∈ archs → m_map r !! k = Some a) →
  NoDup (listed types excl archs).
Proof.
  intros H3. induction archs as [|[k a] archs IH]; intros Hnd Hin.
  - apply NoDup_nil_2.
  - simpl in Hnd. apply NoDup_cons in Hnd as [Hk Hnd].
    assert (NoDup (listed types excl archs)) as IH'.
    { apply IH; [done|]. intros k' a' Hka. apply Hin. by right. }
    unfold listed in *. simpl.
    destruct (included types excl a); [|done].
    apply NoDup_app. split; [|split; [|done]].
    + apply (I3_NoDup r k); [done|]. apply Hin. by left.
    + intros e He Hrest. apply (elem_of_listed types excl archs) in Hrest
        as (k' & a' & Hka' & _ & He').
      apply list_elem_of_lookup in He as [i Hi].
      apply list_elem_of_lookup in He' as [j Hj].
      destruct (I3_lookup r k a i e H3) as (rc & Hrc & Hrk & _);
        [apply Hin; by left|done|].
      destruct (I3_lookup r k' a' j e H3) as (rc' & Hrc' & Hrk' & _);
        [apply Hin; by right|done|].
      assert (k' = k) as -> by congruence.
      apply Hk. apply list_elem_of_fmap. by exists (k, a').
Qed.

(** The invariants hold along every sequence of valid calls. *)
Lemma run_wf ops :
  ∀ r r' es, wf r → issued r → run_valid ops r → run ops r = Ok (r', es) →
             wf r' ∧ issued r'.
Proof.
  induction ops as [|o ops IH]; simpl; intros r r' es Hwf His Hval Hrun.
  - by simplify_eq.
  - destruct Hval as [Hv Hrest].
    destruct (step o r) as [[r1 oe]|] eqn:Hs; [|done]. simpl in Hrun.
    destruct (run ops r1) as [[r2 es']|] eqn:Hr; [|done]. simpl in Hrun.
    injection Hrun as <- <-.
    destruct (step_wf o r r1 oe Hwf His Hv Hs) as [Hwf1 His1].
    by apply (IH r1 r2 es').
Qed.

(** ** The fold of detach *)

Lemma detach_short_circuit s signs e r r1 :
  do_detach s e r = Ok (r1, false) →
  detach (s :: signs) e r = Ok (r1, false).
Proof. intros H. simpl. by rewrite H. Qed.

Lemma detach_continues s signs e r r1 :
  do_detach s e r = Ok (r1, true) →
  detach (s :: signs) e r = detach signs e r1.
Proof. intros H. simpl. by rewrite H. Qed.

(** What [do_detach] tests before it answers false: the registry id, the
    record, the archetype pointer, and nothing else. *)
Lemma do_detach_false_iff s e r r' :
  do_detach s e r = Ok (r', false) ↔
    r' = r ∧ (registry_id e ≠ m_id r
              ∨ m_records r !! e = None
              ∨ ∃ rc, m_records r !! e = Some rc ∧ rec_arch rc = None).
Proof.
  unfold do_detach, assert. split.
  - intros H. case_bool_decide as Hreg; simpl in H.
    2:{ injection H as <-. split; [done|]. by left. }
    destruct (m_records r !! e) as [rc|] eqn:He.
    2:{ injection H as <-. split; [done|]. right. by left. }
    destruct (rec_arch rc) as [k|] eqn:Hka.
    2:{ injection H as <-. split; [done|]. right. right. eauto. }
    exfalso. run_result H.
  - intros [-> [Hreg|[He|(rc & He & Hka)]]].
    + by rewrite bool_decide_false.
    + case_bool_decide; [|done]. simpl. by rewrite He.
    + case_bool_decide; [|done]. simpl. by rewrite He, Hka.
Qed.

(** With a single type in the archetype of [e], [do_detach] removes the
    row and answers true, whatever the type asked for. *)
Lemma do_detach_single_type r s e rc k a :
  wf r → registry_id e = m_id r →
  m_records r !! e = Some rc → rec_arch rc = Some k →
  m_map r !! k = Some a → length (arch_id a) = 1 →
  ∃ r', do_detach s e r = Ok (r', true)
    ∧ m_records r' !! e = Some record_default.
Proof.
  intros Hwf Hreg He Hka Hk Hone. pose proof Hwf as (_ & H2 & _).
  destruct (I2_lookup _ _ _ _ H2 He Hka) as (a_ & Ha_ & Hrow).
  assert (a_ = a) as -> by congruence.
  unfold do_detach. rewrite bool_decide_true by done. simpl.
  rewrite He, Hka, (deref_Some _ _ _ Hk). simpl.
  rewrite (rotation_spec r e rc k a) by done. simpl.
  rewrite arch_id_at_back, bool_decide_true by done.
  rewrite (pop_back_at_back _ _ _ Hrow). simpl.
  eexists. split; [done|]. simpl. apply lookup_insert_eq.
Qed.

(** With another number of types and the type asked for not among them, the
    assertion on the new id fails. *)
Lemma do_detach_absent_type_asserts r s e rc k a :
  wf r → registry_id e = m_id r →
  m_records r !! e = Some rc → rec_arch rc = Some k →
  m_map r !! k = Some a → length (arch_id a) ≠ 1 → s ∉ arch_id a →
  do_detach s e r = Err AssertionFailed.
Proof.
  intros Hwf Hreg He Hka Hk Hone Hs. pose proof Hwf as (_ & H2 & _).
  unfold do_detach. rewrite bool_decide_true by done. simpl.
  rewrite He, Hka, (deref_Some _ _ _ Hk). simpl.
  rewrite (rotation_spec r e rc k a) by done. simpl.
  rewrite arch_id_at_back, bool_decide_false by done.
  rewrite (id_make_absent s (arch_id a) Hs).
  by rewrite bool_decide_true.
Qed.

(** ** The claims *)

(** C3. For every entity [e] that has a component of type [s] (with some
    value [v1]) and passes the assertion of [attach], [attach s e v2]
    assigns the value in place: [get s e] is then [v2]; every record, and
    so the archetype pointer and the row of [e], is unchanged; no row of any
    archetype moves; the archetypes of the map are the same. *)
Theorem attach_overwrites_in_place r s e v1 v2 :
  attach_pre e r → find s e r = Ok (Some v1) →
  ∃ r', attach s e v2 r = Ok (r', v2)
    ∧ get s e r' = Ok v2
    ∧ m_records r' = m_records r
    ∧ dom (m_map r') = dom (m_map r)
    ∧ (∀ k, arch_entities <$> m_map r' !! k = arch_entities <$> m_map r !! k)
    ∧ (∀ k, arch_id <$> m_map r' !! k = arch_id <$> m_map r !! k).
Proof.
  intros Hpre Hf.
  destruct (find_Some_inv r s e v1 Hf) as (rc & k & a & col & He & Hka & Hk & Hcol & Hv).
  assert (rec_index rc < length col) as Hi by (eapply lookup_lt_Some; eauto).
  eexists. split; [by apply (attach_overwrite r s e v2 rc k a col)|].
  split.
  { apply get_of_find; [exact Hpre|].
    eapply (find_at _ s e rc k); simpl; trivial.
    - apply lookup_insert_eq.
    - simpl. apply lookup_insert_eq.
    - by apply list_lookup_insert_eq. }
  simpl. split; [done|]. split.
  { rewrite dom_insert_lookup_L; eauto. }
  split; intros k1; (destruct (decide (k1 = k)) as [->|Hne];
    [by rewrite lookup_insert_eq, Hk|by rewrite lookup_insert_ne]).
Qed.

(** C4, amended. In a well-formed registry (I1, I2, I3 with the row, I6)
    whose records all belong to handles the id counter has passed, every
    public operation that returns leaves I2 in force, with the other
    invariants, provided [attach] is given a handle that [make_entity] has
    issued (its id is at most the counter), [make_entity] a list of distinct
    types, and the id counter does not overflow. The entity a mutation
    swaps into a vacated row has its record re-indexed to that row in the
    same operation. *)
Theorem invariants_preserved o r r' oe :
  wf r → issued r → op_valid o r → step o r = Ok (r', oe) →
  I2 r' ∧ wf r' ∧ issued r'.
Proof.
  intros Hwf His Hval Hstep.
  destruct (step_wf o r r' oe Hwf His Hval Hstep) as [Hwf' His'].
  split; [by apply wf_I2|done].
Qed.

(** C6, amended. In a well-formed registry (I1, I2, I3 with the row, I6)
    [destroy e] returns whether [e] had a record; afterwards [e] has no
    record, is in no row of any archetype, and [find], [attached] and
    [all_attached] answer as for an unknown entity; the registry is well
    formed; when there was no record the registry is unchanged. *)
Theorem destroy_removes_entity r e :
  wf r →
  ∃ r', destroy e r = Ok (r', contains e r)
    ∧ contains e r' = false
    ∧ (∀ s, find s e r' = Ok None)
    ∧ (∀ s, attached s e r' = Ok false)
    ∧ (∀ signs, all_attached signs e r' = Ok false)
    ∧ (∀ k a, m_map r' !! k = Some a → e ∉ arch_entities a)
    ∧ dom (m_records r') = dom (m_records r) ∖ {[e]}
    ∧ wf r'
    ∧ (contains e r = false → r' = r).
Proof.
  intros Hwf.
  destruct (destroy_spec r e Hwf)
    as (r' & Hd & Hwf' & Hdel & _ & _ & Hdom & Hrows & Hsame).
  assert (m_records r' !! e = None) as He
    by (rewrite Hdel; apply lookup_delete_eq).
  destruct (no_record_queries r' e He) as (Hc & Hf & Ha & Hall & _).
  exists r'. repeat (split; [done|]).
  intros Hnc. apply Hsame. unfold contains in Hnc.
  destruct (m_records r !! e); [|done].
  by rewrite bool_decide_true in Hnc by eauto.
Qed.

(** C7, amended. In a well-formed registry (I1, I2, I3 with the row, I6)
    [find s e] returns, and it returns a component exactly when
    [attached s e] is true, exactly when [all_attached] of the single type
    is true; the three are negative when [e] has no record or its record
    has no archetype. *)
Theorem find_attached_all_attached_agree r s e :
  wf r →
  ∃ o b, find s e r = Ok o ∧ attached s e r = Ok b
    ∧ all_attached [s] e r = Ok b
    ∧ (is_Some o ↔ b = true)
    ∧ ((m_records r !! e = None
        ∨ ∃ rc, m_records r !! e = Some rc ∧ rec_arch rc = None) →
       o = None ∧ b = false).
Proof.
  intros Hwf. destruct (attached_spec r s e Hwf) as (o & b & Hf & Ha & Hall & Hiff).
  exists o, b. repeat (split; [done|]).
  intros Hno. unfold find, attached, arch_of in Hf, Ha.
  destruct Hno as [He|(rc & He & Hnone)]; rewrite He in Hf, Ha;
    [|rewrite Hnone in Hf, Ha]; simpl in *; by simplify_eq.
Qed.

(** C5, amended. In a well-formed registry (I1, I2, I3 with the row, I6)
    [view types excl] returns the rows, in ascending order, of exactly the
    archetypes that have all of [types] and none of [excl], archetype after
    archetype in the order of the map; the entities it lists are without
    repetition, and they are exactly the entities whose record points to an
    archetype (the set of their attached components) that has all of
    [types] and none of [excl]: an entity without components is in no
    archetype and is not listed, also when [types] is empty; each view
    bundles its entity with the components [find] finds for it. *)
Theorem view_lists_matching_entities r types excl :
  wf r →
  ∃ vs, view types excl r = Ok vs
    ∧ entity_ <$> vs = listed types excl (map_to_list (m_map r))
    ∧ NoDup (entity_ <$> vs)
    ∧ (∀ e, e ∈ entity_ <$> vs ↔
         ∃ rc k a, m_records r !! e = Some rc ∧ rec_arch rc = Some k
           ∧ m_map r !! k = Some a
           ∧ (∀ s, s ∈ types → s ∈ arch_id a)
           ∧ (∀ s, s ∈ excl → s ∉ arch_id a))
    ∧ Forall (λ v, Forall2 (λ s c, find s (entity_ v) r = Ok (Some c))
                     types (components v)) vs.
Proof.
  intros (Hok & H2 & H3 & _). unfold view.
  destruct (view_archs_spec types excl (map_to_list (m_map r))) with (ret := @nil (@entity_view value))
    as (vs & Hvs & Hents & Hrows).
  { apply Forall_forall. intros [k a] Hka. simpl.
    apply elem_of_map_to_list in Hka. exact (Hok k a Hka). }
  exists vs. split; [done|]. split; [done|]. rewrite Hents. split; [|split].
  - apply (NoDup_listed r); [done|apply NoDup_fst_map_to_list|].
    intros k a Hka. by apply elem_of_map_to_list.
  - intros e. rewrite elem_of_listed. split.
    + intros (k & a & Hka & Hinc & He).
      apply elem_of_map_to_list in Hka. apply included_spec in Hinc as [Hall Hany].
      apply list_elem_of_lookup in He as [i Hi].
      destruct (I3_lookup _ _ _ _ _ H3 Hka Hi) as (rc & Hrc & Hrk & _).
      by exists rc, k, a.
    + intros (rc & k & a & Hrc & Hrk & Hka & Hall & Hany).
      exists k, a. split; [by apply elem_of_map_to_list|].
      split; [by apply included_spec|].
      destruct (I2_lookup _ _ _ _ H2 Hrc Hrk) as (a' & Ha' & Hrow).
      assert (a' = a) as -> by congruence.
      apply list_elem_of_lookup. eauto.
  - eapply Forall_impl; [exact Hrows|]. intros v (k & a & j & Hka & Hat).
    apply elem_of_map_to_list in Hka.
    by apply (arch_at_components r k a types j v).
Qed.

(** C8. [clear] removes every record and every archetype and leaves the
    registry id and the id counter as they are: the next [make_entity]
    issues the id after the last one issued. The handles issued along any
    sequence of public calls, [clear] among them, have the consecutive ids
    after the counter: none is issued twice, as long as the counter does
    not overflow. *)
Theorem clear_keeps_counter r :
  registry_size (clear r) = 0
  ∧ m_map (clear r) = ∅
  ∧ (∀ e, contains e (clear r) = false)
  ∧ m_id (clear r) = m_id r
  ∧ m_next_id (clear r) = m_next_id r
  ∧ (∀ types n, NoDup types → (m_next_id r + 1 < 2 ^ 64)%N →
       ∃ r', make_entity types n (clear r)
             = Ok (r', Entity (m_next_id r + 1) (m_id r))
         ∧ m_next_id r' = (m_next_id r + 1)%N)
  ∧ (∀ ops r' es, run ops r = Ok (r', es) →
       (m_next_id r + N.of_nat (length es) < 2 ^ 64)%N →
       m_id r' = m_id r
       ∧ m_next_id r' = (m_next_id r + N.of_nat (length es))%N
       ∧ NoDup es
       ∧ ∀ e, e ∈ es →
           (m_next_id r < entity_id e ≤ m_next_id r')%N
           ∧ registry_id e = m_id r).
Proof.
  split; [done|]. split; [done|]. split; [done|]. split; [done|].
  split; [done|]. split.
  - intros types n Hnd Hov.
    destruct (make_entity_spec types n (clear r)) as (r' & Hr' & _);
      [apply wf_clear|apply map_Forall_empty|done|done|].
    simpl in Hr'. unfold size_t_incr in Hr'. rewrite N.mod_small in Hr' by done.
    exists r'. split; [done|].
    apply make_entity_ids in Hr' as (_ & Hn & _). simpl in Hn.
    unfold size_t_incr in Hn. by rewrite N.mod_small in Hn.
  - intros ops r' es Hrun Hov.
    destruct (run_issues ops r r' es Hrun) as [Hid Hes].
    destruct (Hes Hov) as [Hn Hlist]. split; [done|]. split; [done|].
    rewrite Hlist. split.
    + apply NoDup_fmap_2; [|apply NoDup_seq].
      intros i j [= Hij]. lia.
    + intros e He. apply list_elem_of_fmap in He as (i & -> & Hi).
      apply elem_of_seq in Hi. simpl. split; [lia|done].
Qed.

(** C9, amended. In every registry, [attach] on a null entity or on an
    entity of another registry, and [get] of a component that is not
    attached, end in the failed assertion. In a well-formed registry (I1,
    I2, I3 with the row, I6), for a non-null entity of this registry, no
    assertion of [attach] fails: it returns; and [get] of an attached
    component returns it. *)
Theorem assertions_of_attach_and_get r s e :
  (∀ t, entity_id e = null_id ∨ registry_id e ≠ m_id r →
        attach s e t r = Err AssertionFailed)
  ∧ (entity_id e = null_id ∨ registry_id e ≠ m_id r →
     get s e r = Err AssertionFailed)
  ∧ (attached s e r = Ok false → get s e r = Err AssertionFailed)
  ∧ (wf r → attach_pre e r →
     (∀ t, ∃ r', attach s e t r = Ok (r', t))
     ∧ (attached s e r = Ok true → ∃ v, get s e r = Ok v)).
Proof.
  assert (entity_id e = null_id ∨ registry_id e ≠ m_id r →
          assert ((null_id <? entity_id e)%N
                  && bool_decide (registry_id e = m_id r))
          = Err AssertionFailed) as Hfail.
  { intros [Hnull|Hreg].
    - rewrite Hnull. done.
    - rewrite bool_decide_false by done. by rewrite andb_false_r. }
  split; [|split; [|split]].
  - intros t Hbad. unfold attach. by rewrite (Hfail Hbad).
  - intros Hbad. unfold get. by rewrite (Hfail Hbad).
  - intros Hatt. unfold get, assert.
    assert (find s e r = Ok None) as ->.
    { unfold attached, find, arch_of, arch_find in *.
      destruct (m_records r !! e) as [rc|]; [|done].
      destruct (rec_arch rc) as [k|]; [|done].
      destruct (deref k (m_map r)) as [a|]; [|done]. simpl in *.
      destruct (arch_columns a !! s); [|done].
      by rewrite bool_decide_true in Hatt by eauto. }
    by destruct (_ && _).
  - intros Hwf Hpre. split.
    + intros t. destruct (attach_spec r s e t Hwf Hpre) as (r' & Hr' & _).
      eauto.
    + intros Hatt.
      destruct (attached_spec r s e Hwf) as (o & b & Hf & Ha & _ & Hiff).
      rewrite Ha in Hatt. injection Hatt as ->.
      destruct (proj2 Hiff eq_refl) as [v ->].
      exists v. by apply get_of_find.
Qed.

(** C10. In a well-formed registry, for a non-null handle [e] of this
    registry that has no record, [attach s e v] makes a record for [e]:
    afterwards [contains e] is true, the registry has one entity more,
    [get s e] is [v], and the name of [e] is the empty string. *)
Theorem attach_creates_record r s e v :
  wf r → attach_pre e r → m_records r !! e = None →
  ∃ r', attach s e v r = Ok (r', v)
    ∧ contains e r' = true
    ∧ registry_size r' = S (registry_size r)
    ∧ get s e r' = Ok v
    ∧ name e r' = "".
Proof.
  clear default_value s_name_prefix.
  intros Hwf Hpre He.
  destruct (attach_spec r s e v Hwf Hpre)
    as (r' & Hr' & Hwf' & Hf & Hn & Hid & Hdom & Hname).
  exists r'. split; [done|].
  assert (is_Some (m_records r' !! e)) as [rc Hrc].
  { apply elem_of_dom. rewrite Hdom. set_solver. }
  split; [unfold contains; rewrite bool_decide_true; eauto|].
  split.
  { unfold registry_size. rewrite <- !size_dom, Hdom.
    rewrite size_union by (apply not_elem_of_dom in He; set_solver).
    by rewrite size_singleton. }
  split.
  { apply get_of_find; [|done]. destruct Hpre. split; [done|congruence]. }
  unfold name in *. rewrite He in Hname. rewrite Hrc in *. simpl in Hname.
  congruence.
Qed.

(** ** Values under the removal and the addition of a row *)

Lemma columns_popped_at_back a i s :
  arch_columns (popped (at_back i a)) !! s =
    (λ col, list_pop_back (if is_last i a then col else list_swap_back i col))
      <$> arch_columns a !! s.
Proof.
  unfold at_back. destruct (is_last i a); simpl; rewrite !lookup_fmap;
    by destruct (arch_columns a !! s).
Qed.

(** The rows of a column that stay keep their value; the row that takes the
    place of row [i] has the value of the last row. *)
Lemma lookup_removed_col a i j col :
  length col = arch_size a → i < arch_size a → j < pred (arch_size a) →
  list_pop_back (if is_last i a then col else list_swap_back i col) !! j =
    if decide (j = i) then last col else col !! j.
Proof.
  unfold is_last. intros Hlen Hi Hj. rewrite lookup_list_pop_back.
  case_bool_decide as Hl.
  - rewrite decide_True by lia. rewrite decide_False by lia. done.
  - rewrite length_list_swap_back, decide_True by lia.
    rewrite lookup_list_swap_back by lia.
    case_decide; [done|]. by rewrite decide_False by lia.
Qed.

Lemma last_col_at_back a i col :
  length col = arch_size a → i < arch_size a →
  last (if is_last i a then col else list_swap_back i col) = col !! i.
Proof.
  unfold is_last. intros Hlen Hi. case_bool_decide as Hl.
  - rewrite last_lookup. f_equal. lia.
  - apply last_list_swap_back. lia.
Qed.

(** The components of the other entities after the row of [e] is removed
    from its archetype, whatever becomes of the record of [e]. *)
Lemma find_remove_row_other r e rc k a recs1 n0 i0 s' e' :
  wf r → m_records r !! e = Some rc → rec_arch rc = Some k →
  m_map r !! k = Some a → e' ≠ e →
  recs1 !! e' = reindexed (rec_index rc) a (m_records r) !! e' →
  find s' e' (Registry (<[k := popped (at_back (rec_index rc) a)]> (m_map r))
                recs1 n0 i0)
  = find s' e' r.
Proof.
  clear default_value s_name_prefix.
  intros Hwf He Hka Hk Hne Hrecs. pose proof Hwf as (Hok & H2 & H3 & _).
  destruct (I2_lookup _ _ _ _ H2 He Hka) as (a_ & Ha_ & Hrow).
  assert (a_ = a) as -> by congruence. clear Ha_.
  assert (rec_index rc < arch_size a) as Hi
    by (unfold arch_size; eapply lookup_lt_Some; eauto).
  unfold find, arch_of. simpl. rewrite Hrecs.
  rewrite (reindexed_lookup r k a) by done.
  destruct (m_records r !! e') as [rc0|] eqn:Hrc0; [|done]. simpl.
  assert (rec_arch (reindex_rec k (rec_index rc) a rc0) = rec_arch rc0) as ->
    by (unfold reindex_rec; by case_decide).
  destruct (rec_arch rc0) as [k1|] eqn:Hk1; [|done].
  destruct (I2_lookup _ _ _ _ H2 Hrc0 Hk1) as (a0 & Ha0 & Hrow0).
  destruct (decide (k1 = k)) as [->|Hkne].
  2:{ rewrite (deref_Some _ _ a0) by (by rewrite lookup_insert_ne).
      rewrite (deref_Some _ _ _ Ha0). simpl.
      unfold reindex_rec. rewrite decide_False by naive_solver. done. }
  assert (a0 = a) as -> by congruence.
  rewrite (deref_Some _ _ (popped (at_back (rec_index rc) a)))
    by apply lookup_insert_eq.
  rewrite (deref_Some _ _ _ Hk). simpl. unfold arch_find.
  rewrite columns_popped_at_back.
  destruct (arch_columns a !! s') as [col|] eqn:Hcol; [|done]. simpl.
  pose proof (arch_ok_length k a s' col (Hok k a Hk) Hcol) as Hlen.
  assert (rec_index rc0 ≠ rec_index rc) as Hidx by congruence.
  assert (rec_index rc0 < arch_size a) as Hi0
    by (unfold arch_size; eapply lookup_lt_Some; eauto).
  unfold reindex_rec. case_decide as Hfire; simpl.
  - destruct Hfire as (_ & Hlast & Hnl).
    rewrite (lookup_removed_col a) by (unfold arch_size in *; lia).
    rewrite decide_True by done. rewrite last_lookup, Hlast.
    unfold arch_size in *. by rewrite Hlen.
  - rewrite (lookup_removed_col a); [by rewrite decide_False|done|done|].
    destruct (decide (rec_index rc0 = pred (arch_size a))) as [Hl|]; [|lia].
    destruct (decide (S (rec_index rc) = arch_size a)); [lia|naive_solver].
Qed.

(** The components of the other entities after a row is added to the
    archetype at [k]. *)
Lemma find_push_row_other r k b b' recs1 n0 i0 s' e' :
  wf r → m_map r !! k = Some b →
  extends (arch_columns b) (arch_columns b') →
  recs1 !! e' = m_records r !! e' →
  find s' e' (Registry (<[k := b']> (m_map r)) recs1 n0 i0) = find s' e' r.
Proof.
  intros Hwf Hk Hext Hrecs. pose proof Hwf as (Hok & H2 & _).
  unfold find, arch_of. simpl. rewrite Hrecs.
  destruct (m_records r !! e') as [rc0|] eqn:Hrc0; [|done].
  destruct (rec_arch rc0) as [k1|] eqn:Hk1; [|done].
  destruct (I2_lookup _ _ _ _ H2 Hrc0 Hk1) as (a0 & Ha0 & Hrow0).
  destruct (decide (k1 = k)) as [->|Hkne].
  2:{ rewrite (deref_Some _ _ a0) by (by rewrite lookup_insert_ne).
      by rewrite (deref_Some _ _ _ Ha0). }
  assert (a0 = b) as -> by congruence.
  rewrite (deref_Some _ _ b') by apply lookup_insert_eq.
  rewrite (deref_Some _ _ _ Hk). simpl. unfold arch_find.
  specialize (Hext s').
  destruct (arch_columns b !! s') as [col|] eqn:Hcol.
  - destruct Hext as [x ->].
    rewrite lookup_app_l; [done|].
    rewrite (arch_ok_length k b s' col (Hok k b Hk) Hcol).
    eapply lookup_lt_Some; eauto.
  - by rewrite Hext.
Qed.

(** A new, empty archetype changes no component. *)
Lemma find_add_archetype r k a s' e' :
  wf r → m_map r !! k = None →
  find s' e' (set_map (<[k := a]> (m_map r)) r) = find s' e' r.
Proof.
  intros (_ & H2 & _) Hk. unfold find, arch_of. simpl.
  destruct (m_records r !! e') as [rc0|] eqn:Hrc0; [|done].
  destruct (rec_arch rc0) as [k1|] eqn:Hk1; [|done].
  destruct (I2_lookup _ _ _ _ H2 Hrc0 Hk1) as (a0 & Ha0 & _).
  rewrite (deref_Some _ _ a0); [by rewrite (deref_Some _ _ _ Ha0)|].
  rewrite lookup_insert_ne; [done|]. congruence.
Qed.

Lemma find_map_get_or_make r (signs : list sign_t) m k s' e' :
  wf r → map_get_or_make signs (m_map r) = (m, k) →
  find s' e' (set_map m r) = find s' e' r.
Proof.
  intros Hwf Hm.
  destruct (map_get_or_make_spec signs (m_map r)) as (m' & Hm' & Hcase).
  rewrite Hm' in Hm. injection Hm as <- <-.
  destruct Hcase as [[-> _]|[-> Hnone]]; [by destruct r|].
  by apply find_add_archetype.
Qed.

Lemma extends_receive_back e a b :
  extends (arch_columns b) (arch_columns (receive_back e a b)).
Proof.
  intros s. rewrite receive_back_columns.
  destruct (arch_columns b !! s) as [c|]; simpl; [|done].
  destruct (arch_columns a !! s ≫= last); [eauto|].
  exists []. by rewrite app_nil_r.
Qed.

Lemma extends_insert cols cols' s col x :
  extends cols cols' → cols !! s = Some col →
  extends cols (<[s := col ++ x]> cols').
Proof.
  intros Hext Hcol s'. specialize (Hext s').
  destruct (decide (s' = s)) as [->|Hne].
  - rewrite Hcol, lookup_insert_eq. eauto.
  - by rewrite lookup_insert_ne.
Qed.

Lemma extends_refl cols : extends cols cols.
Proof.
  intros s. destruct (cols !! s) as [c|] eqn:Hc; [|done].
  exists []. by rewrite app_nil_r.
Qed.

Lemma extends_pushed types cols : extends cols (pushed types cols).
Proof.
  intros s. rewrite lookup_pushed.
  destruct (cols !! s) as [c|]; simpl; [|done].
  case_bool_decide; [eauto|]. exists []. by rewrite app_nil_r.
Qed.

Lemma columns_at_back a i s :
  arch_columns (at_back i a) !! s =
    (λ col, if is_last i a then col else list_swap_back i col)
      <$> arch_columns a !! s.
Proof.
  unfold at_back. destruct (is_last i a); simpl; [|by rewrite lookup_fmap].
  by destruct (arch_columns a !! s).
Qed.

(** The components of [e] once its row has moved from the archetype at [k]
    to the back of [b], for a type that is in both or in neither. *)
Lemma find_moved_row r e rc k a k' b b' m' recs' nm n0 i0 s' :
  arch_ok k a → arch_ok k' b →
  m_records r !! e = Some rc → rec_arch rc = Some k →
  m_map r !! k = Some a → rec_index rc < arch_size a →
  m' !! k' = Some b' →
  recs' !! e = Some (Record_ nm (Some k') (arch_size b)) →
  arch_columns b' !! s' =
    arch_columns (receive_back e (at_back (rec_index rc) a) b) !! s' →
  (s' ∈ k' ↔ s' ∈ k) →
  find s' e (Registry m' recs' n0 i0) = find s' e r.
Proof.
  intros Haok Hbok He Hka Ha Hi Hb' Hrec Hcols Hin.
  unfold find, arch_of. simpl. rewrite Hrec, He. simpl. rewrite Hka.
  rewrite (deref_Some _ _ _ Hb'), (deref_Some _ _ _ Ha). simpl.
  unfold arch_find. rewrite Hcols, receive_back_columns, columns_at_back.
  destruct (arch_columns a !! s') as [ca|] eqn:Hca.
  - assert (s' ∈ k') as Hk'
      by (apply Hin, (arch_ok_column k a s' Haok); eauto).
    destruct (proj2 (arch_ok_column k' b s' Hbok) Hk') as [c Hc].
    rewrite Hc. simpl.
    pose proof (arch_ok_length k a s' ca Haok Hca) as Hlena.
    pose proof (arch_ok_length k' b s' c Hbok Hc) as Hlenc.
    rewrite (last_col_at_back a) by (unfold arch_size in *; lia).
    destruct (lookup_lt_is_Some_2 ca (rec_index rc)) as [v Hv];
      [unfold arch_size in *; lia|].
    rewrite Hv. unfold arch_size. rewrite <- Hlenc.
    by rewrite list_lookup_middle.
  - assert (arch_columns b !! s' = None) as ->; [|done].
    apply eq_None_not_Some. intros Hsome.
    apply (arch_ok_column k' b s' Hbok), Hin,
      (arch_ok_column k a s' Haok) in Hsome as [? ?]. congruence.
Qed.

Lemma name_reindexed r k a i m' recs1 n0 i0 e' :
  wf r → m_map r !! k = Some a → i < arch_size a →
  rec_name <$> recs1 !! e' = rec_name <$> reindexed i a (m_records r) !! e' →
  name e' (Registry m' recs1 n0 i0) = name e' r.
Proof.
  intros Hwf Ha Hi. rewrite (reindexed_lookup r k a) by done.
  unfold name. simpl.
  destruct (m_records r !! e') as [rc0|]; simpl;
    destruct (recs1 !! e') as [rc1|]; simpl; intros [=]; [|done].
  unfold reindex_rec in *. by case_decide.
Qed.

Lemma name_records (recs recs' : gmap entity record)
    (m m' : gmap arch_ptr (@archetype value)) n0 n0' i0 i0' e' :
  rec_name <$> recs' !! e' = rec_name <$> recs !! e' →
  name e' (Registry m' recs' n0' i0') = name e' (Registry m recs n0 i0).
Proof.
  unfold name. simpl.
  destruct (recs !! e'); destruct (recs' !! e'); simpl; by intros [=].
Qed.

Lemma attach_Ok_pre r s e t r' v :
  attach s e t r = Ok (r', v) → attach_pre e r.
Proof.
  unfold attach, assert, attach_pre.
  destruct (null_id <? entity_id e)%N eqn:Hid; simpl; [|done].
  case_bool_decide; simpl; [|done]. intros _.
  apply N.ltb_lt in Hid. done.
Qed.

(** ** More of the registry *)

Lemma attach_frame r s e t r' v :
  wf r → attach s e t r = Ok (r', v) →
  (∀ e', name e' r' = name e' r)
  ∧ (∀ s' e', (s', e') ≠ (s, e) → find s' e' r' = find s' e' r).
Proof.
  clear default_value s_name_prefix.
  intros Hwf Hatt. pose proof (attach_Ok_pre _ _ _ _ _ _ Hatt) as Hpre.
  pose proof Hwf as (Hok & H2 & H3 & H6).
  destruct (get_or_make e (m_records r)) as [recs rc] eqn:Hgm.
  destruct (wf_get_or_make r e recs rc Hwf (proj2 Hpre) Hgm)
    as (Hwf1 & Hrc & Hdom & Hname & Hdef).
  destruct (rec_arch rc) as [k|] eqn:Hka.
  - assert (m_records r !! e = Some rc) as He.
    { destruct (m_records r !! e) eqn:He0.
      - unfold get_or_make in Hgm. rewrite He0 in Hgm. congruence.
      - rewrite (Hdef eq_refl) in Hka. done. }
    destruct (I2_lookup _ _ _ _ H2 He Hka) as (a & Ha & Hrow).
    pose proof (Hok k a Ha) as Haok.
    assert (rec_index rc < arch_size a) as Hi
      by (unfold arch_size; eapply lookup_lt_Some; eauto).
    destruct (arch_columns a !! s) as [col|] eqn:Hcol.
    + (* assigned in place *)
      pose proof (arch_ok_length k a s col Haok Hcol) as Hlen.
      rewrite (attach_overwrite r s e t rc k a col) in Hatt; trivial;
        [|unfold arch_size in Hi; lia].
      injection Hatt as <- <-. split; [done|].
      intros s' e' Hne. unfold find, arch_of. simpl.
      destruct (m_records r !! e') as [rc0|] eqn:Hrc0; [|done].
      destruct (rec_arch rc0) as [k1|] eqn:Hk1; [|done].
      destruct (I2_lookup _ _ _ _ H2 Hrc0 Hk1) as (a0 & Ha0 & Hrow0).
      destruct (decide (k1 = k)) as [->|Hkne].
      2:{ rewrite (deref_Some _ _ a0) by (by rewrite lookup_insert_ne).
          by rewrite (deref_Some _ _ _ Ha0). }
      assert (a0 = a) as -> by congruence.
      rewrite (deref_Some _ _ (assign_at s (rec_index rc) t col a))
        by apply lookup_insert_eq.
      rewrite (deref_Some _ _ _ Ha). simpl. unfold arch_find. simpl.
      destruct (decide (s' = s)) as [->|Hsne].
      * rewrite lookup_insert_eq, Hcol.
        rewrite list_lookup_insert_ne; [done|].
        intros Heq. rewrite Heq in Hrow. congruence.
      * by rewrite lookup_insert_ne.
    + (* migration to the archetype with [s] added *)
      destruct (copy_append s a (m_map r)) as [m k'] eqn:Hm.
      pose proof Hm as Hm0. unfold copy_append in Hm.
      destruct (wf_map_get_or_make r _ m k' Hwf Hm)
        as (Hwfm & Hk' & [b Hb] & Hkeep).
      assert (s ∈ k') as Hsk'.
      { rewrite Hk'. apply elem_of_make_id, elem_of_id_insert. by left. }
      assert (s ∉ k) as Hsk.
      { intros Hin. apply (arch_ok_column k a s Haok) in Hin as [? ?].
        congruence. }
      assert (k' ≠ k) as Hne by (intros ->; done).
      pose proof (Hkeep k a Ha) as Hma.
      assert (arch_ok k' b) as Hbok
        by (destruct Hwfm as (Hokm & _); exact (Hokm k' b Hb)).
      destruct (proj2 (arch_ok_column k' b s Hbok) Hsk') as [col Hbcol].
      pose proof (arch_ok_length k' b s col Hbok Hbcol) as Hlen.
      rewrite (attach_migrate r s e t rc k a k' m b col) in Hatt; trivial.
      injection Hatt as <- <-. split.
      { intros e'.
        apply (name_reindexed r k a (rec_index rc)); [done..|].
        destruct (decide (e' = e)) as [->|Hene].
        - rewrite lookup_insert_eq. simpl.
          by rewrite (reindexed_self r e rc k a).
        - by rewrite lookup_insert_ne. }
      intros s' e' Hse.
      destruct (decide (e' = e)) as [->|Hene].
      * assert (s' ≠ s) as Hsne by congruence.
        rewrite <- (find_map_get_or_make r _ m k' s' e Hwf Hm).
        apply (find_moved_row (set_map m r) e rc k a k' b
                 (with_row e s t col
                    (arch_columns (receive_back e (at_back (rec_index rc) a) b))
                    b) _ _ (rec_name rc)); trivial.
        -- apply lookup_insert_eq.
        -- by rewrite lookup_insert_eq, Hlen.
        -- simpl. by rewrite lookup_insert_ne.
        -- rewrite Hk'. rewrite elem_of_make_id, elem_of_id_insert.
           destruct Haok as (-> & _). naive_solver.
      * rewrite <- (find_map_get_or_make r _ m k' s' e' Hwf Hm).
        rewrite <- (find_remove_row_other (set_map m r) e rc k a
                      (<[e := Record_ (rec_name rc) None (rec_index rc)]>
                         (reindexed (rec_index rc) a (m_records r)))
                      (m_next_id r) (m_id r) s' e'); trivial;
          [|by rewrite lookup_insert_ne].
        match goal with
        | |- _ = find s' e' ?r1 =>
            apply (find_push_row_other r1 k' b)
        end.
        -- by apply (wf_remove_row (set_map m r) e rc k a).
        -- simpl. by rewrite lookup_insert_ne.
        -- exact (extends_insert _ _ s col [t]
                    (extends_receive_back e (at_back (rec_index rc) a) b)
                    Hbcol).
        -- simpl. by rewrite !lookup_insert_ne.
  - (* no archetype yet *)
    destruct (map_get_or_make [s] (m_map r)) as [m k] eqn:Hm.
    destruct (wf_map_get_or_make (set_records recs r) [s] m k Hwf1 Hm)
      as (Hwfm & Hk & [a Ha] & Hkeep).
    subst k.
    assert (arch_ok (make_id [s]) a) as Haok
      by (destruct Hwfm as (Hokm & _); exact (Hokm _ a Ha)).
    assert (s ∈ make_id [s]) as Hs
      by (apply elem_of_make_id, list_elem_of_singleton; done).
    destruct (proj2 (arch_ok_column _ a s Haok) Hs) as [col Hcol].
    pose proof (arch_ok_length _ a s col Haok Hcol) as Hlen.
    rewrite (attach_first r s e t recs rc m a col) in Hatt; trivial.
    injection Hatt as <- <-.
    assert (∀ e', e' ≠ e → recs !! e' = m_records r !! e') as Hrecs.
    { intros e' Hene. unfold get_or_make in Hgm.
      destruct (m_records r !! e); injection Hgm as <- <-; [done|].
      by rewrite lookup_insert_ne. }
    assert (∀ s', find s' e r = Ok None) as Hnone.
    { intros s'. unfold find, arch_of. unfold get_or_make in Hgm.
      destruct (m_records r !! e) as [rc0|]; [|done].
      injection Hgm as <- <-. by rewrite Hka. }
    split.
    { intros e'. destruct (decide (e' = e)) as [->|Hene].
      - unfold name at 1. simpl. by rewrite lookup_insert_eq.
      - destruct r. apply name_records. simpl.
        by rewrite lookup_insert_ne, Hrecs. }
    intros s' e' Hse.
    destruct (decide (e' = e)) as [->|Hene].
    + assert (s' ≠ s) as Hsne by congruence.
      rewrite Hnone. unfold find, arch_of. simpl.
      rewrite lookup_insert_eq. simpl.
      rewrite (deref_Some _ _ (with_row e s t col (arch_columns a) a))
        by apply lookup_insert_eq.
      simpl. unfold arch_find. simpl. rewrite lookup_insert_ne by done.
      assert (arch_columns a !! s' = None) as ->; [|done].
      apply eq_None_not_Some. intros Hsome.
      apply (arch_ok_column _ a s' Haok), elem_of_make_id,
        list_elem_of_singleton in Hsome. done.
    + transitivity (find s' e' (set_map m (set_records recs r))).
      * apply (find_push_row_other (set_map m (set_records recs r)) _ a);
          trivial.
        -- simpl. eapply extends_insert; [apply extends_refl|done].
        -- simpl. by rewrite lookup_insert_ne.
      * rewrite (find_map_get_or_make (set_records recs r) _ m _ s' e' Hwf1 Hm).
        unfold find, arch_of. simpl. by rewrite Hrecs.
Qed.

(** The registry [do_detach] leaves for a component that is attached. *)
Lemma do_detach_shape r s e rc k a :
  wf r → m_records r !! e = Some rc → rec_arch rc = Some k →
  m_map r !! k = Some a → s ∈ k →
  let i := rec_index rc in
  (length k = 1
   ∧ do_detach s e r =
       Ok (Registry (<[k := popped (at_back i a)]> (m_map r))
             (<[e := record_default]> (reindexed i a (m_records r)))
             (m_next_id r) (m_id r), true))
  ∨ (length k ≠ 1
     ∧ ∃ m0 b,
         let k' := make_id (id_make s k) in
         k' ≠ k ∧ wf (set_map m0 r) ∧ m0 !! k = Some a ∧ m0 !! k' = Some b
         ∧ (∀ s' e', find s' e' (set_map m0 r) = find s' e' r)
         ∧ do_detach s e r =
             Ok (Registry
                   (<[k' := receive_back e (at_back i a) b]>
                      (<[k := popped (at_back i a)]> m0))
                   (<[e := Record_ (rec_name rc) (Some k') (arch_size b)]>
                      (reindexed i a (m_records r)))
                   (m_next_id r) (m_id r), true)).
Proof.
  clear default_value s_name_prefix.
  intros Hwf He Hka Ha Hs i. subst i. pose proof Hwf as (Hok & H2 & H3 & H6).
  assert (registry_id e = m_id r) as Hreg by exact (H6 e rc He).
  destruct (I2_lookup _ _ _ _ H2 He Hka) as (a_ & Ha_ & Hrow).
  assert (a_ = a) as -> by congruence. clear Ha_.
  assert (arch_id a = k) as Hidk by (by destruct (Hok k a Ha)).
  assert (rec_index rc < arch_size a) as Hi
    by (unfold arch_size; eapply lookup_lt_Some; eauto).
  unfold do_detach. rewrite bool_decide_true by done. simpl.
  rewrite He, Hka. rewrite (deref_Some _ _ _ Ha). simpl.
  rewrite (rotation_spec r e rc k a) by done. simpl.
  rewrite arch_id_at_back, Hidk.
  case_bool_decide as Hone; [left|right]; (split; [done|]).
  - rewrite (pop_back_at_back _ _ _ Hrow). simpl.
    by rewrite insert_insert_lookup.
  - assert (s ∉ make_id (id_make s k)) as Hsk'.
    { rewrite elem_of_make_id, elem_of_id_make. tauto. }
    assert (make_id (id_make s k) ≠ k) as Hkk by (intros Heq; by rewrite Heq in Hsk').
    unfold assert. rewrite bool_decide_false; simpl.
    2:{ intros Heq. apply Hsk'. apply elem_of_make_id. by rewrite Heq. }
    destruct (map_get_or_make_spec (id_make s k)
                (<[k := at_back (rec_index rc) a]> (m_map r)))
      as (m2 & Hm2 & Hcase).
    rewrite Hm2. set (k' := make_id (id_make s k)) in *.
    rewrite decide_False by done.
    assert (∃ b m0, m2 !! k' = Some b
                 ∧ m0 !! k' = Some b ∧ m0 !! k = Some a
                 ∧ wf (set_map m0 r)
                 ∧ (∀ s' e', find s' e' (set_map m0 r) = find s' e' r)
                 ∧ m2 = <[k := at_back (rec_index rc) a]> m0)
      as (b & m0 & Hb & Hm0b & Hm0a & Hwf0 & Hfind0 & Hm2eq).
    { destruct Hcase as [[-> [b Hb]]|[-> Hnone]].
      - rewrite lookup_insert_ne in Hb by done.
        exists b, (m_map r). split; [by rewrite lookup_insert_ne|].
        split; [done|]. split; [done|].
        split; [by destruct r|]. split; [by destruct r|]. done.
      - rewrite lookup_insert_ne in Hnone by done.
        exists (empty_archetype k'), (<[k' := empty_archetype k']> (m_map r)).
        split; [by rewrite lookup_insert_eq|].
        split; [by rewrite lookup_insert_eq|].
        split; [by rewrite lookup_insert_ne|].
        split; [apply wf_add_archetype; trivial; apply arch_ok_empty|].
        split; [intros; by apply find_add_archetype|].
        by rewrite insert_insert_ne. }
    exists m0, b. split; [done|]. split; [done|]. split; [done|].
    split; [done|]. split; [done|].
    rewrite (deref_Some _ _ _ Hb). simpl.
    unfold migrate_back. rewrite (last_at_back _ _ _ Hrow).
    rewrite (pop_back_at_back _ _ _ Hrow). simpl.
    rewrite (bool_decide_true (e = e)) by done. simpl.
    rewrite bool_decide_false.
    2:{ unfold arch_size. simpl. rewrite length_app. simpl. lia. }
    simpl. rewrite Hm2eq. rewrite insert_insert_lookup.
    replace (arch_size (receive_back e (at_back (rec_index rc) a) b) - 1)
      with (arch_size b)
      by (unfold arch_size; simpl; rewrite length_app; simpl; lia).
    unfold records_at. rewrite (reindexed_self r e rc k a) by done. done.
Qed.

Lemma attached_true_inv r s e :
  wf r → attached s e r = Ok true →
  ∃ rc k a, m_records r !! e = Some rc ∧ rec_arch rc = Some k
    ∧ m_map r !! k = Some a ∧ s ∈ k.
Proof.
  clear default_value s_name_prefix.
  intros (Hok & H2 & _) Hatt. unfold attached, arch_of in Hatt.
  destruct (m_records r !! e) as [rc|] eqn:He; [|done].
  destruct (rec_arch rc) as [k|] eqn:Hka; [|done].
  destruct (I2_lookup _ _ _ _ H2 He Hka) as (a & Ha & _).
  rewrite (deref_Some _ _ _ Ha) in Hatt. simpl in Hatt.
  injection Hatt as Hatt. apply bool_decide_eq_true in Hatt.
  exists rc, k, a. split; [done|]. split; [done|]. split; [done|].
  by apply (arch_ok_column k a s (Hok k a Ha)).
Qed.

Lemma find_no_archetype m' recs' n0 i0 e rc s :
  recs' !! e = Some rc → rec_arch rc = None →
  find s e (Registry m' recs' n0 i0) = Ok None.
Proof.
  intros He Hka. unfold find, arch_of. simpl. by rewrite He, Hka.
Qed.

Lemma do_detach_frame r s e :
  wf r → attached s e r = Ok true →
  ∃ r', do_detach s e r = Ok (r', true) ∧ wf r'
    ∧ find s e r' = Ok None
    ∧ (∀ s' e', (s', e') ≠ (s, e) → find s' e' r' = find s' e' r)
    ∧ (∀ e', e' ≠ e → name e' r' = name e' r)
    ∧ dom (m_records r') = dom (m_records r).
Proof.
  clear default_value s_name_prefix.
  intros Hwf Hatt.
  destruct (attached_true_inv r s e Hwf Hatt) as (rc & k & a & He & Hka & Ha & Hs).
  pose proof Hwf as (Hok & H2 & H3 & H6).
  destruct (I2_lookup _ _ _ _ H2 He Hka) as (a_ & Ha_ & Hrow).
  assert (a_ = a) as -> by congruence. clear Ha_.
  pose proof (Hok k a Ha) as Haok.
  assert (rec_index rc < arch_size a) as Hi
    by (unfold arch_size; eapply lookup_lt_Some; eauto).
  assert (∀ e' m' n0 i0 rc',
            e' ≠ e →
            name e' (Registry m' (<[e := rc']>
                        (reindexed (rec_index rc) a (m_records r))) n0 i0)
            = name e' r) as Hnames.
  { intros e' m' n0 i0 rc' Hene.
    apply (name_reindexed r k a (rec_index rc)); [done..|].
    by rewrite lookup_insert_ne. }
  destruct (do_detach_shape r s e rc k a Hwf He Hka Ha Hs)
    as [[Hone Hdet]|(Hmany & m0 & b & Hkk & Hwf0 & Hm0a & Hm0b & Hfind0 & Hdet)];
    simpl in Hdet; eexists; (split; [exact Hdet|]);
    destruct (do_detach_wf r s e _ _ Hwf Hdet) as (Hwf' & _ & _ & Hdom);
    (split; [exact Hwf'|]).
  - split; [by apply (find_no_archetype _ _ _ _ e record_default);
              [apply lookup_insert_eq|]|].
    split; [|split; [by auto|exact Hdom]].
    intros s' e' Hse. destruct (decide (e' = e)) as [->|Hene].
    + assert (s' ≠ s) as Hsne by congruence.
      rewrite (find_no_archetype _ _ _ _ e record_default)
        by (done || apply lookup_insert_eq).
      unfold find, arch_of. rewrite He, Hka, (deref_Some _ _ _ Ha). simpl.
      unfold arch_find.
      assert (arch_columns a !! s' = None) as ->; [|done].
      apply eq_None_not_Some. intros Hsome.
      apply (arch_ok_column k a s' Haok) in Hsome.
      destruct k as [|s0 [|]]; simpl in Hone; try done.
      apply list_elem_of_singleton in Hs, Hsome. congruence.
    + apply (find_remove_row_other r e rc k a); trivial.
      by rewrite lookup_insert_ne.
  - set (k' := make_id (id_make s k)) in *.
    assert (arch_ok k' b) as Hbok
      by (destruct Hwf0 as (Hok0 & _); exact (Hok0 k' b Hm0b)).
    assert (s ∉ k') as Hsk'.
    { unfold k'. rewrite elem_of_make_id, elem_of_id_make. tauto. }
    split.
    { unfold find, arch_of. simpl. rewrite lookup_insert_eq. simpl.
      rewrite (deref_Some _ _ (receive_back e (at_back (rec_index rc) a) b))
        by apply lookup_insert_eq.
      simpl. unfold arch_find. rewrite receive_back_columns.
      assert (arch_columns b !! s = None) as ->; [|done].
      apply eq_None_not_Some. intros Hsome.
      by apply (arch_ok_column k' b s Hbok) in Hsome. }
    split; [|split; [by auto|exact Hdom]].
    intros s' e' Hse. rewrite <- Hfind0.
    destruct (decide (e' = e)) as [->|Hene].
    + assert (s' ≠ s) as Hsne by congruence.
      apply (find_moved_row (set_map m0 r) e rc k a k' b
               (receive_back e (at_back (rec_index rc) a) b)
               _ _ (rec_name rc)); trivial.
      * apply lookup_insert_eq.
      * by rewrite lookup_insert_eq.
      * unfold k'. rewrite elem_of_make_id, elem_of_id_make. tauto.
    + rewrite <- (find_remove_row_other (set_map m0 r) e rc k a
                    (<[e := Record_ (rec_name rc) None (rec_index rc)]>
                       (reindexed (rec_index rc) a (m_records r)))
                    (m_next_id r) (m_id r) s' e'); trivial;
        [|by rewrite lookup_insert_ne].
      match goal with
      | |- _ = find s' e' ?r1 => apply (find_push_row_other r1 k' b)
      end.
      * by apply (wf_remove_row (set_map m0 r) e rc k a).
      * simpl. by rewrite lookup_insert_ne.
      * apply extends_receive_back.
      * simpl. by rewrite !lookup_insert_ne.
Qed.

Lemma contains_dom r e :
  contains e r = bool_decide (e ∈ dom (m_records r)).
Proof. unfold contains. apply bool_decide_ext. by rewrite elem_of_dom. Qed.

Lemma find_ext r1 r2 s e :
  m_map r1 = m_map r2 → m_records r1 !! e = m_records r2 !! e →
  find s e r1 = find s e r2.
Proof. intros Hm He. unfold find, arch_of. by rewrite Hm, He. Qed.

Lemma name_ext r1 r2 e :
  m_records r1 !! e = m_records r2 !! e → name e r1 = name e r2.
Proof. intros He. unfold name. by rewrite He. Qed.

Lemma size_t_incr_small (n : N) :
  (n + 1 < 2 ^ 64)%N → size_t_incr n = (n + 1)%N.
Proof. intros H. unfold size_t_incr. by rewrite N.mod_small. Qed.

Lemma make_entity_full types n r :
  wf r → issued r → NoDup types → (m_next_id r + 1 < 2 ^ 64)%N →
  ∃ r' e, make_entity types n r = Ok (r', e)
    ∧ e = Entity (m_next_id r + 1) (m_id r)
    ∧ contains e r = false ∧ contains e r' = true
    ∧ registry_size r' = S (registry_size r)
    ∧ name e r' = (if decide (n = "") then make_name (m_next_id r + 1) else n)
    ∧ (∀ s, find s e r' =
             Ok (if decide (s ∈ types) then Some (default_value s) else None))
    ∧ (∀ e', e' ≠ e →
         contains e' r' = contains e' r ∧ name e' r' = name e' r
         ∧ ∀ s', find s' e' r' = find s' e' r).
Proof.
  intros Hwf His Hnd Hov.
  pose proof (issued_fresh r His Hov) as Hfresh.
  rewrite <- (size_t_incr_small _ Hov).
  set (e := Entity (size_t_incr (m_next_id r)) (m_id r)) in *.
  set (n' := if decide (n = "") then make_name (size_t_incr (m_next_id r)) else n).
  assert (wf (set_records (<[e := Record_ n' None 0]> (m_records r)) r)) as Hwf1
    by (by apply wf_new_record).
  assert (contains e r = false) as Hnot.
  { unfold contains. rewrite Hfresh. apply bool_decide_false. by intros [? ?]. }
  unfold make_entity. fold e. fold n'. rewrite Hfresh.
  destruct types as [|s types].
  - eexists _, e. split; [done|]. split; [done|]. split; [done|].
    unfold contains, registry_size, name. simpl. rewrite lookup_insert_eq.
    split; [apply bool_decide_true; eauto|].
    split; [by apply map_size_insert_None|]. split; [done|].
    split.
    { intros s.
      apply (find_no_archetype _ _ _ _ e (Record_ n' None 0));
        [apply lookup_insert_eq|done]. }
    intros e' Hne. rewrite lookup_insert_ne by done.
    split; [done|]. split; [done|]. intros s'.
    apply find_ext; simpl; [done|]. by rewrite lookup_insert_ne.
  - set (types' := s :: types) in *.
    destruct (map_get_or_make types' (m_map r)) as [m k] eqn:Hm.
    destruct (wf_map_get_or_make _ types' m k Hwf1 Hm)
      as (Hwfm & Hk & [a Ha] & Hkeep).
    rewrite (deref_Some _ _ _ Ha). cbn -[emplace_back_all].
    assert (arch_ok k a) as Haok
      by (destruct Hwfm as (Hokm & _); exact (Hokm _ a Ha)).
    edestruct (emplace_back_all_spec e k (arch_size a) types'
                 (Registry (<[k := push_back e a]> m)
                    (<[e := Record_ n' None 0]> (m_records r))
                    (size_t_incr (m_next_id r)) (m_id r))
                 (push_back e a) (Record_ n' None 0) Hnd)
      as (r2 & Hr2 & Hm2 & Hrec2 & Hn2 & Hi2).
    { intros s' Hs'. simpl.
      assert (s' ∈ k) as Hin by (rewrite Hk; by apply elem_of_make_id).
      apply (arch_ok_column k a s' Haok) in Hin as [col Hcol].
      exists col. split; [done|]. by apply (arch_ok_length k a s'). }
    { simpl. apply lookup_insert_eq. }
    { simpl. apply lookup_insert_eq. }
    rewrite Hr2. cbn [mbind result_bind]. exists r2, e. split; [done|].
    cbn [m_map m_records m_next_id m_id push_back arch_id arch_entities
         arch_columns] in Hm2, Hrec2, Hn2, Hi2.
    rewrite insert_insert_lookup in Hm2.
    assert (r2 = Registry
              (<[k := {| arch_id := arch_id a;
                         arch_entities := arch_entities a ++ [e];
                         arch_columns := pushed types' (arch_columns a) |}]> m)
              (<[e := Record_ n' (Some k) (length (arch_entities a))]>
                 (<[e := Record_ n' None 0]> (m_records r)))
              (size_t_incr (m_next_id r)) (m_id r)) as ->.
    { destruct r2. simpl in *. subst. unfold types', arch_size. done. }
    clear Hr2 Hm2 Hrec2 Hn2 Hi2.
    split; [done|]. split; [done|].
    unfold contains, registry_size, name. simpl.
    rewrite insert_insert_eq, lookup_insert_eq.
    split; [apply bool_decide_true; eauto|].
    split; [by apply map_size_insert_None|]. split; [done|].
    split.
    { intros s'. unfold find, arch_of. simpl. rewrite lookup_insert_eq. simpl.
      erewrite deref_Some by apply lookup_insert_eq. simpl.
      unfold arch_find. simpl. rewrite lookup_pushed.
      case_decide as Hin.
      - assert (s' ∈ k) as Hink by (rewrite Hk; by apply elem_of_make_id).
        apply (arch_ok_column k a s' Haok) in Hink as [col Hcol].
        rewrite Hcol. simpl. rewrite bool_decide_true by done.
        rewrite <- (arch_ok_length k a s' col Haok Hcol).
        by rewrite list_lookup_middle.
      - assert (arch_columns a !! s' = None) as ->; [|done].
        apply eq_None_not_Some. intros Hsome. apply Hin.
        apply (arch_ok_column k a s' Haok) in Hsome.
        rewrite Hk in Hsome. exact (proj1 (elem_of_make_id _ _) Hsome). }
    intros e' Hne. rewrite lookup_insert_ne by done.
    split; [done|]. split; [done|]. intros s'.
    transitivity
      (find s' e' (set_map m
         (set_records (<[e := Record_ n' None 0]> (m_records r)) r))).
    + apply (find_push_row_other
               (set_map m
                  (set_records (<[e := Record_ n' None 0]> (m_records r)) r))
               k a); trivial.
      * apply extends_pushed.
      * simpl. by rewrite !lookup_insert_ne.
    + rewrite (find_map_get_or_make _ _ m k s' e' Hwf1 Hm).
      apply find_ext; simpl; [done|]. by rewrite lookup_insert_ne.
Qed.

Lemma destroy_frame r e r' b :
  wf r → destroy e r = Ok (r', b) →
  registry_size r' = registry_size r - (if b then 1 else 0)
  ∧ (∀ e', e' ≠ e →
       contains e' r' = contains e' r ∧ name e' r' = name e' r
       ∧ ∀ s', find s' e' r' = find s' e' r).
Proof.
  clear default_value s_name_prefix.
  intros Hwf Hd. pose proof Hwf as (Hok & H2 & H3 & H6).
  unfold destroy in Hd.
  destruct (m_records r !! e) as [rc|] eqn:He.
  2:{ injection Hd as <- <-. split; [lia|]. done. }
  assert (∀ e' (recs' : gmap entity record) m' n0 i0,
            recs' !! e' = m_records r !! e' →
            contains e' (Registry m' recs' n0 i0) = contains e' r
            ∧ name e' (Registry m' recs' n0 i0) = name e' r) as Hsame.
  { intros e' recs' m' n0 i0 Heq. unfold contains, name. simpl.
    by rewrite Heq. }
  destruct (rec_arch rc) as [k|] eqn:Hka.
  - destruct (I2_lookup _ _ _ _ H2 He Hka) as (a & Ha & Hrow).
    assert (rec_index rc < arch_size a) as Hi
      by (unfold arch_size; eapply lookup_lt_Some; eauto).
    rewrite (migrate_to_none_spec r e rc k a) in Hd by done.
    simpl in Hd. injection Hd as <- <-.
    unfold set_records. simpl. rewrite delete_insert_eq.
    assert (∀ e', e' ≠ e →
              delete e (reindexed (rec_index rc) a (m_records r)) !! e'
              = reindexed (rec_index rc) a (m_records r) !! e') as Hdel
      by (intros; by apply lookup_delete_ne).
    split.
    + unfold registry_size. simpl. rewrite map_size_delete.
      rewrite (reindexed_self r e rc k a) by done.
      rewrite <- !size_dom, (dom_reindexed r k a) by done. lia.
    + intros e' Hne. split; [|split].
      * unfold contains. simpl. rewrite Hdel by done.
        rewrite (reindexed_lookup r k a) by done.
        apply bool_decide_ext. by rewrite fmap_is_Some.
      * apply (name_reindexed r k a (rec_index rc)); [done..|].
        by rewrite Hdel.
      * intros s'. apply (find_remove_row_other r e rc k a); trivial.
        by apply Hdel.
  - simpl in Hd. injection Hd as <- <-. unfold set_records.
    split.
    + unfold registry_size. simpl. rewrite map_size_delete, He. lia.
    + intros e' Hne.
      destruct (Hsame e' (delete e (m_records r)) (m_map r)
                  (m_next_id r) (m_id r)) as [Hc Hn];
        [by apply lookup_delete_ne|].
      split; [done|]. split; [done|].
      intros s'. apply find_ext; simpl; [done|]. by apply lookup_delete_ne.
Qed.

Lemma attached_iff_find r s e :
  wf r → attached s e r = Ok true ↔ ∃ v, find s e r = Ok (Some v).
Proof.
  intros Hwf. destruct (attached_spec r s e Hwf) as (o & b & Hf & Ha & _ & Hob).
  rewrite Hf, Ha. split.
  - intros [= ->]. destruct (proj2 Hob eq_refl) as [v ->]. eauto.
  - intros [v [= ->]]. f_equal. apply Hob. eauto.
Qed.

(** X5. [detach<Types...>(e)] for distinct types that are all attached to
    [e] in a well-formed registry returns true and removes each of them;
    the other components of [e] and the components of the other entities
    are as before, and the registry is well formed. *)
Theorem detach_removes_all signs :
  ∀ r e, wf r → NoDup signs →
    (∀ s, s ∈ signs → attached s e r = Ok true) →
    ∃ r', detach signs e r = Ok (r', true) ∧ wf r'
      ∧ (∀ s, s ∈ signs → find s e r' = Ok None)
      ∧ (∀ s' e', ¬ (s' ∈ signs ∧ e' = e) →
           find s' e' r' = find s' e' r).
Proof.
  clear default_value s_name_prefix.
  induction signs as [|s signs IH]; intros r e Hwf Hnd Hall.
  - exists r. split; [done|]. split; [done|].
    split; [by intros s ?%elem_of_nil|done].
  - apply NoDup_cons in Hnd as [Hs Hnd].
    destruct (do_detach_frame r s e Hwf)
      as (r1 & Hd & Hwf1 & Hnone & Hframe & _); [apply Hall; left|].
    destruct (IH r1 e Hwf1 Hnd) as (r' & Hdet & Hwf' & Hgone & Hrest).
    { intros s2 Hs2. apply (attached_iff_find r1 s2 e Hwf1).
      rewrite Hframe by (intros [= ->]; done).
      apply (attached_iff_find r s2 e Hwf), Hall. by right. }
    exists r'. split; [by rewrite (detach_continues _ _ _ _ _ Hd)|].
    split; [done|]. split.
    + intros s2 Hs2. destruct (decide (s2 ∈ signs)) as [Hin|Hnin]; [auto|].
      apply elem_of_cons in Hs2 as [->|?]; [|done].
      by rewrite Hrest by tauto.
    + intros s' e' Hne. rewrite Hrest.
      * apply Hframe. intros [= -> ->]. apply Hne. split; [left|done].
      * intros [? ?]. apply Hne. split; [by right|done].
Qed.

(** X6. [rename e n] answers whether [e] is contained and, when it is,
    makes [n] its name; it changes nothing else: the other names, the
    entities contained, their number and every component are as before. *)
Theorem rename_changes_name_only r e n :
  (rename e n r).2 = contains e r
  ∧ name e (rename e n r).1 = (if contains e r then n else "")
  ∧ (∀ e', e' ≠ e → name e' (rename e n r).1 = name e' r)
  ∧ (∀ e', contains e' (rename e n r).1 = contains e' r)
  ∧ registry_size (rename e n r).1 = registry_size r
  ∧ (∀ s' e', find s' e' (rename e n r).1 = find s' e' r).
Proof.
  clear default_value s_name_prefix.
  unfold rename, contains, registry_size, name.
  destruct (m_records r !! e) as [rc|] eqn:He;
    cbn [fst snd m_records set_records].
  2:{ rewrite bool_decide_false by (by intros [? ?]). by rewrite He. }
  rewrite bool_decide_true by eauto. rewrite lookup_insert_eq.
  split; [done|]. split; [done|].
  split; [intros e' Hne; by rewrite lookup_insert_ne|].
  split.
  { intros e'. apply bool_decide_ext.
    destruct (decide (e' = e)) as [->|Hne].
    - rewrite lookup_insert_eq, He. split; eauto.
    - by rewrite lookup_insert_ne. }
  split; [apply map_size_insert_Some; eauto|].
  intros s' e'. unfold find, arch_of. simpl.
  destruct (decide (e' = e)) as [->|Hne].
  - rewrite lookup_insert_eq, He. simpl.
    destruct (rec_arch rc); [|done]. by destruct (deref _ _).
  - by rewrite lookup_insert_ne.
Qed.

(** X7. The default names [make_name] builds for two ids are equal only
    when the ids are. *)
Theorem make_name_inj (a b : N) : make_name a = make_name b ↔ a = b.
Proof.
  split; [|by intros ->]. unfold make_name. intros H.
  apply String.app_inj in H. by apply (inj pretty).
Qed.

(** X8. For a non-empty list of types, in a well-formed registry:
    [all_attached] is true exactly when [attached] is true of every type of
    the list, [any_attached] exactly when it is true of one of them. *)
Theorem all_any_attached_by_type r signs e :
  wf r → signs ≠ [] →
  ∃ ball bany,
    all_attached signs e r = Ok ball ∧ any_attached signs e r = Ok bany
    ∧ (ball = true ↔ ∀ s, s ∈ signs → attached s e r = Ok true)
    ∧ (bany = true ↔ ∃ s, s ∈ signs ∧ attached s e r = Ok true).
Proof.
  clear default_value s_name_prefix.
  intros (Hok & H2 & _) Hne. unfold all_attached, any_attached, attached, arch_of.
  destruct (m_records r !! e) as [rc|] eqn:He.
  2:{ exists false, false. split; [done|]. split; [done|]. simpl. split.
      - split; [done|]. intros H. destruct signs as [|s ?]; [done|].
        discriminate (H s). left.
      - split; [done|]. by intros (? & _ & ?). }
  destruct (rec_arch rc) as [k|] eqn:Hka.
  2:{ exists false, false. split; [done|]. split; [done|]. simpl. split.
      - split; [done|]. intros H. destruct signs as [|s ?]; [done|].
        discriminate (H s). left.
      - split; [done|]. by intros (? & _ & ?). }
  destruct (I2_lookup _ _ _ _ H2 He Hka) as (a & Ha & _).
  rewrite (deref_Some _ _ _ Ha). simpl.
  pose proof (Hok k a Ha) as Haok.
  assert (arch_id a = k) as Hid by (by destruct Haok).
  assert (∀ s, Ok (bool_decide (is_Some (arch_find s a))) = Ok true
               ↔ s ∈ arch_id a) as Hatt.
  { intros s. rewrite Hid, <- (arch_ok_column k a s Haok). unfold arch_find.
    split.
    - intros [= H]. by apply bool_decide_eq_true in H.
    - intros H. f_equal. by apply bool_decide_eq_true. }
  exists (has_all signs a), (has_any signs a).
  split; [done|]. split; [done|]. split.
  - rewrite has_all_spec. by setoid_rewrite Hatt.
  - setoid_rewrite Hatt. destruct (has_any signs a) eqn:Hany.
    + split; [intros _|done].
      destruct (decide (Exists (λ s, s ∈ arch_id a) signs)) as [Hex|Hno];
        [by apply Exists_exists in Hex|].
      assert (has_any signs a = false) as Hf; [|congruence].
      apply has_any_spec. intros s Hs Hin. apply Hno, Exists_exists. eauto.
    + split; [done|]. intros (s & Hs & Hin).
      exfalso. by apply (proj1 (has_any_spec signs a) Hany s Hs).
Qed.

(** X9. [attach<Types...>(e)] for several types, on a well-formed registry
    and a non-null handle of the registry, returns; afterwards [e] has each
    of the types with its default value, also those it had before with
    another value; the other components of [e], the components of the other
    entities and all names are as before, and the registry is well formed. *)
Theorem attach_all_attaches_defaults signs :
  ∀ r e, wf r → attach_pre e r →
    ∃ r', attach_all default_value signs e r = Ok r' ∧ wf r'
      ∧ (∀ s, s ∈ signs → find s e r' = Ok (Some (default_value s)))
      ∧ (∀ s' e', ¬ (s' ∈ signs ∧ e' = e) → find s' e' r' = find s' e' r)
      ∧ (∀ e', name e' r' = name e' r).
Proof.
  clear s_name_prefix.
  induction signs as [|s signs IH]; intros r e Hwf Hpre.
  - exists r. split; [done|]. split; [done|].
    split; [by intros s ?%elem_of_nil|done].
  - destruct (attach_spec r s e (default_value s) Hwf Hpre)
      as (r1 & Hatt & Hwf1 & Hfind & _ & Hid & _).
    destruct (attach_frame r s e _ r1 _ Hwf Hatt)
      as [Hnames Hframe].
    destruct (IH r1 e Hwf1) as (r' & Hall & Hwf' & Hdef & Hrest & Hnames').
    { destruct Hpre as [? Hreg]. split; [done|]. by rewrite Hid. }
    exists r'. simpl. rewrite Hatt. simpl.
    split; [done|]. split; [done|]. split; [|split].
    + intros s2 Hs2. destruct (decide (s2 ∈ signs)) as [Hin|Hnin]; [auto|].
      apply elem_of_cons in Hs2 as [->|?]; [|done].
      by rewrite Hrest by tauto.
    + intros s' e' Hne. rewrite Hrest.
      * apply Hframe. intros [= -> ->]. apply Hne. split; [left|done].
      * intros [? ?]. apply Hne. split; [by right|done].
    + intros e'. by rewrite Hnames'.
Qed.

(** X10. A well-formed registry knows nothing of a handle of another
    registry: it is not contained and has no name and no component;
    [destroy], [rename] and [do_detach] answer false and leave the registry
    as it is; [attach] ends in the failed assertion. *)
Theorem foreign_entity_unknown r e :
  wf r → registry_id e ≠ m_id r →
  contains e r = false ∧ name e r = ""
  ∧ (∀ s, find s e r = Ok None ∧ attached s e r = Ok false
          ∧ do_detach s e r = Ok (r, false))
  ∧ destroy e r = Ok (r, false)
  ∧ (∀ n, rename e n r = (r, false))
  ∧ (∀ s t, attach s e t r = Err AssertionFailed).
Proof.
  clear default_value s_name_prefix.
  intros (_ & _ & _ & H6) Hne.
  assert (m_records r !! e = None) as He.
  { apply eq_None_not_Some. intros [rc Hrc]. by apply Hne, (H6 e rc). }
  destruct (no_record_queries r e He) as (Hc & Hf & Ha & _).
  split; [done|]. split; [by unfold name; rewrite He|].
  split.
  { intros s. split; [done|]. split; [done|].
    unfold do_detach. by rewrite bool_decide_false. }
  split; [by unfold destroy; rewrite He|].
  split; [by intros n; unfold rename; rewrite He|].
  intros s t. unfold attach, assert.
  rewrite (bool_decide_false (registry_id e = m_id r)) by done.
  by rewrite andb_false_r.
Qed.

(** X11. In a well-formed registry, attaching a type [e] does not have and
    detaching it again returns true and restores every component of every
    entity. *)
Theorem attach_then_detach r s e t r1 v :
  wf r → attached s e r = Ok false → attach s e t r = Ok (r1, v) →
  ∃ r2, do_detach s e r1 = Ok (r2, true) ∧ wf r2
    ∧ ∀ s' e', find s' e' r2 = find s' e' r.
Proof.
  clear default_value s_name_prefix.
  intros Hwf Hnot Hatt.
  pose proof (attach_Ok_pre _ _ _ _ _ _ Hatt) as Hpre.
  destruct (attach_spec r s e t Hwf Hpre) as (r1' & Hatt' & Hwf1 & Hfind & _).
  rewrite Hatt in Hatt'. injection Hatt' as <- ->.
  destruct (attach_frame r s e _ r1 _ Hwf Hatt) as [_ Hframe].
  destruct (do_detach_frame r1 s e Hwf1)
    as (r2 & Hdet & Hwf2 & Hnone & Hframe2 & _);
    [apply attached_iff_find; eauto|].
  exists r2. split; [done|]. split; [done|]. intros s' e'.
  destruct (decide ((s', e') = (s, e))) as [[= -> ->]|Hne].
  - rewrite Hnone. symmetry.
    destruct (attached_spec r s e Hwf) as (o & b & Hf & Ha & _ & Hob).
    rewrite Hf. rewrite Ha in Hnot. injection Hnot as ->.
    destruct o as [x|]; [|done].
    assert (false = true) by (apply Hob; eauto). done.
  - rewrite Hframe2 by done. by apply Hframe.
Qed.

(** ** The archetypes stay *)

Lemma map_get_or_make_dom (signs : list sign_t) m m' k :
  map_get_or_make signs m = (m', k) → dom m ⊆ dom m'.
Proof.
  clear default_value s_name_prefix.
  intros H. destruct (map_get_or_make_spec signs m) as (m1 & Hm1 & Hcase).
  rewrite Hm1 in H. injection H as <- <-.
  destruct Hcase as [[-> _]|[-> _]]; [done|].
  rewrite dom_insert. set_solver.
Qed.

Ltac dom_grows :=
  repeat match goal with
         | E : map_get_or_make _ _ = _ |- _ => apply map_get_or_make_dom in E
         | E : copy_append _ _ _ = _ |- _ =>
             unfold copy_append in E; apply map_get_or_make_dom in E
         end;
  simpl in *; rewrite ?dom_insert; set_solver.

Lemma send_to_back_archs e r r1 :
  send_to_back e r = Ok r1 → dom (m_map r) ⊆ dom (m_map r1).
Proof.
  clear default_value s_name_prefix.
  unfold send_to_back, assert. intros H. run_result H; subst; dom_grows.
Qed.

Lemma migrate_to_archs e out r r1 :
  migrate_to e out r = Ok r1 → dom (m_map r) ⊆ dom (m_map r1).
Proof.
  clear default_value s_name_prefix.
  unfold migrate_to, assert. intros H.
  destruct (send_to_back e r) as [r0|] eqn:H0; [|done].
  apply send_to_back_archs in H0. cbn [mbind result_bind] in H.
  run_result H; subst; dom_grows.
Qed.

Lemma destroy_archs e r r1 b :
  destroy e r = Ok (r1, b) → dom (m_map r) ⊆ dom (m_map r1).
Proof.
  clear default_value s_name_prefix.
  unfold destroy. intros H.
  destruct (m_records r !! e) as [rc|]; [|by simplify_eq].
  destruct (rec_arch rc).
  - destruct (migrate_to e None r) as [r0|] eqn:H0; [|done].
    apply migrate_to_archs in H0. simpl in H. by simplify_eq.
  - simpl in H. by simplify_eq.
Qed.

Lemma do_detach_archs s e r r1 b :
  do_detach s e r = Ok (r1, b) → dom (m_map r) ⊆ dom (m_map r1).
Proof.
  clear default_value s_name_prefix.
  unfold do_detach, assert. intros H. run_result H; subst; dom_grows.
Qed.

Lemma detach_archs signs e :
  ∀ r r1 b, detach signs e r = Ok (r1, b) → dom (m_map r) ⊆ dom (m_map r1).
Proof.
  clear default_value s_name_prefix.
  induction signs as [|s signs IH]; simpl; intros r r1 b H.
  - by simplify_eq.
  - destruct (do_detach s e r) as [[r0 b0]|] eqn:H0; [|done].
    apply do_detach_archs in H0. simpl in H. destruct b0.
    + apply IH in H. set_solver.
    + by simplify_eq.
Qed.

Lemma attach_archs s e t r r1 v :
  attach s e t r = Ok (r1, v) → dom (m_map r) ⊆ dom (m_map r1).
Proof.
  clear default_value s_name_prefix.
  unfold attach, assert. intros H.
  destruct ((null_id <? entity_id e)%N && bool_decide (registry_id e = m_id r));
    [|done].
  cbn [mbind result_bind] in H.
  destruct (get_or_make e (m_records r)) as [recs rc].
  destruct (rec_arch rc) as [k|].
  - destruct (deref k _) as [a|]; [|done]. cbn [mbind result_bind] in H.
    destruct (arch_find s a).
    + run_result H; subst; dom_grows.
    + destruct (copy_append s a _) as [m k'] eqn:Hm.
      destruct (migrate_to e (Some k') _) as [r0|] eqn:H0; [|done].
      apply migrate_to_archs in H0. cbn [mbind result_bind] in H.
      run_result H; subst; dom_grows.
  - run_result H; subst; dom_grows.
Qed.

Lemma emplace_back_all_archs e k types :
  ∀ r1 r2, emplace_back_all types e k r1 = Ok r2 →
           dom (m_map r1) ⊆ dom (m_map r2).
Proof.
  induction types as [|s types IH]; simpl; intros r1 r2 H.
  - by simplify_eq.
  - destruct (emplace_back s e k r1) as [r0|] eqn:H0; [|done].
    simpl in H. apply IH in H. etrans; [|exact H].
    clear H IH. unfold emplace_back in H0. run_result H0; subst; dom_grows.
Qed.

Lemma make_entity_archs types n r r' e :
  make_entity types n r = Ok (r', e) → dom (m_map r) ⊆ dom (m_map r').
Proof.
  unfold make_entity. intros H. destruct types as [|s types].
  - by simplify_eq.
  - destruct (map_get_or_make _ _) as [m k] eqn:Hm.
    destruct (deref k m) as [a|]; [|done]. cbn [mbind result_bind] in H.
    destruct (emplace_back_all _ _ _ _) as [r2|] eqn:H2; [|done].
    apply emplace_back_all_archs in H2. simpl in H. simplify_eq.
    dom_grows.
Qed.

(** X14. No public call other than [clear] removes an archetype: along a
    sequence of calls without [clear], every archetype of the map stays in
    the map, also when its last entity is destroyed or moved away. *)
Theorem archetypes_stay ops :
  ∀ r r' es, OpClear ∉ ops → run ops r = Ok (r', es) →
             dom (m_map r) ⊆ dom (m_map r').
Proof.
  induction ops as [|o ops IH]; simpl; intros r r' es Hno H.
  - by simplify_eq.
  - apply not_elem_of_cons in Hno as [Ho Hno].
    destruct (step o r) as [[r1 oe]|] eqn:Hstep; [|done]. simpl in H.
    destruct (run ops r1) as [[r2 es2]|] eqn:Hrun; [|done]. simpl in H.
    injection H as <- <-. etrans; [|exact (IH _ _ _ Hno Hrun)].
    clear IH Hrun Hno.
    destruct o as [types n|s e t|signs e|e|e n|]; simpl in Hstep; [..|done].
    + destruct (make_entity types n r) as [[r0 e]|] eqn:H; [|done].
      simpl in Hstep. injection Hstep as <- <-.
      by apply make_entity_archs in H.
    + destruct (attach s e t r) as [[r0 v]|] eqn:H; [|done].
      simpl in Hstep. injection Hstep as <- <-. by apply attach_archs in H.
    + destruct (detach signs e r) as [[r0 b]|] eqn:H; [|done].
      simpl in Hstep. injection Hstep as <- <-. by apply detach_archs in H.
    + destruct (destroy e r) as [[r0 b]|] eqn:H; [|done].
      simpl in Hstep. injection Hstep as <- <-. by apply destroy_archs in H.
    + injection Hstep as <- <-. unfold rename.
      by destruct (m_records r !! e).
Qed.

Lemma lxor_cancel_r (a b c : N) : N.lxor a c = N.lxor b c → a = b.
Proof.
  intros H.
  rewrite <- (N.lxor_0_r a), <- (N.lxor_0_r b), <- (N.lxor_nilpotent c).
  by rewrite <- !N.lxor_assoc, H.
Qed.

(** X12. No two entities contained in a well-formed registry have the same
    hash: the hash is one to one on the handles of one registry. *)
Theorem hasher_inj_in_registry r e1 e2 :
  wf r → contains e1 r = true → contains e2 r = true →
  hasher e1 = hasher e2 → e1 = e2.
Proof.
  clear default_value s_name_prefix.
  intros (_ & _ & _ & H6) [rc1 H1]%bool_decide_eq_true
    [rc2 H2]%bool_decide_eq_true Hh.
  pose proof (H6 e1 rc1 H1) as Hr1. pose proof (H6 e2 rc2 H2) as Hr2.
  simpl in Hr1, Hr2. unfold hasher in Hh. rewrite Hr1, Hr2 in Hh.
  apply lxor_cancel_r in Hh. destruct e1, e2. simpl in *. congruence.
Qed.

(** ** The entities contained are handles the registry issued *)

Lemma nonnull_subseteq r r' :
  nonnull r → dom (m_records r') ⊆ dom (m_records r) → nonnull r'.
Proof.
  clear default_value s_name_prefix.
  intros Hnn Hdom e rc He.
  assert (e ∈ dom (m_records r)) as [rc0 Hin]%elem_of_dom
    by (apply Hdom, elem_of_dom; eauto).
  exact (Hnn e rc0 Hin).
Qed.

Lemma nonnull_add r r' e :
  nonnull r → (0 < entity_id e)%N →
  dom (m_records r') ⊆ {[e]} ∪ dom (m_records r) → nonnull r'.
Proof.
  clear default_value s_name_prefix.
  intros Hnn Hpos Hdom e' rc He'.
  assert (e' ∈ ({[e]} ∪ dom (m_records r) : gset entity)) as Hin
    by (apply Hdom, elem_of_dom; eauto).
  apply elem_of_union in Hin as [->%elem_of_singleton|[rc0 Hin]%elem_of_dom];
    [done|exact (Hnn e' rc0 Hin)].
Qed.

Lemma step_nonnull o r r' oe :
  wf r → issued r → nonnull r → op_valid o r → step o r = Ok (r', oe) →
  nonnull r'.
Proof.
  intros Hwf His Hnn Hval Hstep.
  destruct o as [types n|s e t|signs e|e|e n|]; simpl in Hstep, Hval.
  - destruct Hval as [Hnd Hov].
    destruct (make_entity_full types n r Hwf His Hnd Hov)
      as (r1 & e & Hmk & -> & _ & _ & _ & _ & _ & Hframe).
    rewrite Hmk in Hstep. simpl in Hstep. injection Hstep as <- <-.
    apply (nonnull_add r _ (Entity (m_next_id r + 1) (m_id r)));
      [done|simpl; lia|].
    intros e' He'. destruct (decide (e' = Entity (m_next_id r + 1) (m_id r)))
      as [->|Hne]; [set_solver|].
    destruct (Hframe e' Hne) as (Hc & _). apply elem_of_union_r.
    apply elem_of_dom in He'. apply elem_of_dom.
    unfold contains in Hc.
    apply (bool_decide_eq_true (is_Some (m_records r !! e'))).
    rewrite <- Hc. by apply bool_decide_eq_true.
  - destruct (attach s e t r) as [[r1 v]|] eqn:Hatt; [|done].
    simpl in Hstep. injection Hstep as <- <-.
    pose proof (attach_Ok_pre _ _ _ _ _ _ Hatt) as Hpre.
    destruct (attach_spec r s e t Hwf Hpre)
      as (r1' & Hatt' & _ & _ & _ & _ & Hdom & _).
    rewrite Hatt in Hatt'. injection Hatt' as <- _.
    apply (nonnull_add r _ e); [done|by destruct Hpre|by rewrite Hdom].
  - destruct (detach signs e r) as [[r1 b]|] eqn:Hdet; [|done].
    simpl in Hstep. injection Hstep as <- <-.
    destruct (detach_wf _ _ _ _ _ Hwf Hdet) as (_ & _ & _ & Hdom).
    apply (nonnull_subseteq r); [done|by rewrite Hdom].
  - destruct (destroy_spec r e Hwf) as (r1 & Hd & _ & _ & _ & _ & Hdom & _).
    rewrite Hd in Hstep. simpl in Hstep. injection Hstep as <- <-.
    apply (nonnull_subseteq r); [done|]. rewrite Hdom. set_solver.
  - injection Hstep as <- <-. apply (nonnull_subseteq r); [done|].
    unfold rename. destruct (m_records r !! e) as [rc|] eqn:He; simpl; [|done].
    rewrite dom_insert_lookup_L by eauto. done.
  - injection Hstep as <- <-. intros e rc He. simpl in He.
    by rewrite lookup_empty in He.
Qed.

Lemma run_nonnull ops :
  ∀ r r' es, wf r → issued r → nonnull r → run_valid ops r →
             run ops r = Ok (r', es) → nonnull r'.
Proof.
  induction ops as [|o ops IH]; simpl; intros r r' es Hwf His Hnn Hval Hrun.
  - by simplify_eq.
  - destruct Hval as [Hval Hrest].
    destruct (step o r) as [[r1 oe]|] eqn:Hstep; [|done]. simpl in Hrun.
    destruct (run ops r1) as [[r2 es2]|] eqn:Hrun1; [|done]. simpl in Hrun.
    injection Hrun as <- <-.
    destruct (step_wf o r r1 oe Hwf His Hval Hstep) as [Hwf1 His1].
    exact (IH r1 r2 es2 Hwf1 His1
             (step_nonnull o r r1 oe Hwf His Hnn Hval Hstep) Hrest Hrun1).
Qed.

(** The handles with the ids the counter passed along the calls are in the
    list of the handles issued. *)
Lemma run_issued_all ops :
  ∀ r r' es e, run_valid ops r → run ops r = Ok (r', es) →
    registry_id e = m_id r →
    (m_next_id r < entity_id e ≤ m_next_id r')%N → e ∈ es.
Proof.
  induction ops as [|o ops IH]; simpl; intros r r' es e Hval Hrun Hreg Hid.
  - simplify_eq. lia.
  - destruct Hval as [Hval Hrest].
    destruct (step o r) as [[r1 oe]|] eqn:Hstep; [|done]. simpl in Hrun.
    destruct (run ops r1) as [[r2 es2]|] eqn:Hrun1; [|done]. simpl in Hrun.
    injection Hrun as <- <-.
    destruct (step_ids o r r1 oe Hstep) as [Hi Hn].
    destruct oe as [e0|]; simpl.
    + destruct Hn as [-> Hn].
      destruct o as [types n| | | | |]; simpl in Hstep, Hval;
        try (run_result Hstep; done).
      destruct Hval as [_ Hov]. rewrite size_t_incr_small in * by done.
      destruct (decide (entity_id e = m_next_id r + 1)%N) as [Heq|Hne].
      * replace e with (Entity (m_next_id r + 1) (m_id r))
          by (destruct e; simpl in *; by subst).
        apply list_elem_of_here.
      * apply list_elem_of_further.
        apply (IH r1 r2 es2 e Hrest Hrun1); [congruence|lia].
    + apply (IH r1 r2 es2 e Hrest Hrun1); [congruence|lia].
Qed.

(** ** The properties of [attach], [detach], [make_entity] and [destroy] *)

(** X1. [attach s e t] on a well-formed registry, for a non-null handle
    of the registry, returns and changes nothing but the component [s] of
    [e], which is then [t]: every other component of [e], every component
    of every other entity and every name are as before, whichever row was
    swapped or moved on the way; [e] is contained, the other entities are
    contained or not as before, and the registry is well formed. *)
Theorem attach_changes_nothing_else r s e t :
  wf r → attach_pre e r →
  ∃ r', attach s e t r = Ok (r', t) ∧ wf r'
    ∧ find s e r' = Ok (Some t)
    ∧ (∀ s' e', (s', e') ≠ (s, e) → find s' e' r' = find s' e' r)
    ∧ (∀ e', name e' r' = name e' r)
    ∧ contains e r' = true
    ∧ (∀ e', e' ≠ e → contains e' r' = contains e' r).
Proof.
  clear default_value s_name_prefix.
  intros Hwf Hpre.
  destruct (attach_spec r s e t Hwf Hpre)
    as (r' & Hatt & Hwf' & Hfind & _ & _ & Hdom & _).
  destruct (attach_frame r s e t r' t Hwf Hatt) as [Hnames Hframe].
  exists r'. split; [done|]. split; [done|]. split; [done|].
  split; [done|]. split; [done|].
  split.
  - rewrite contains_dom, Hdom. apply bool_decide_eq_true. set_solver.
  - intros e' Hne. rewrite !contains_dom, Hdom. apply bool_decide_ext.
    set_solver.
Qed.

(** X2. [do_detach<T>(e)] on a well-formed registry in which [e] has a [T]
    returns true and removes exactly that component: [find] of [T] for [e]
    is then null, every other component of [e] and every component of every
    other entity is as before, the other entities keep their names, the
    entities contained are the same, and the registry is well formed. *)
Theorem do_detach_removes_only r s e :
  wf r → attached s e r = Ok true →
  ∃ r', do_detach s e r = Ok (r', true) ∧ wf r'
    ∧ find s e r' = Ok None
    ∧ (∀ s' e', (s', e') ≠ (s, e) → find s' e' r' = find s' e' r)
    ∧ (∀ e', e' ≠ e → name e' r' = name e' r)
    ∧ (∀ e', contains e' r' = contains e' r)
    ∧ registry_size r' = registry_size r.
Proof.
  clear default_value s_name_prefix.
  intros Hwf Hatt.
  destruct (do_detach_frame r s e Hwf Hatt)
    as (r' & Hdet & Hwf' & Hnone & Hframe & Hnames & Hdom).
  exists r'. split; [done|]. split; [done|]. split; [done|].
  split; [done|]. split; [done|]. split.
  - intros e'. by rewrite !contains_dom, Hdom.
  - unfold registry_size. by rewrite <- !size_dom, Hdom.
Qed.

(** X3. [make_entity<Types...>(name)] on a well-formed registry whose
    records the counter has passed, for distinct types and without
    overflow of the counter: the handle returned has the next id and the id
    of the registry and was not contained before; it is contained after,
    the registry has one entity more; its name is [name], or the prefix
    followed by the id when [name] is empty; it has exactly the components
    of [Types...], each default constructed; every other entity is contained
    or not as before, with its name and its components; the registry is
    well formed, and its records are those the counter has passed. *)
Theorem make_entity_new_entity types n r :
  wf r → issued r → NoDup types → (m_next_id r + 1 < 2 ^ 64)%N →
  ∃ r' e, make_entity types n r = Ok (r', e)
    ∧ e = Entity (m_next_id r + 1) (m_id r)
    ∧ contains e r = false ∧ contains e r' = true
    ∧ registry_size r' = S (registry_size r)
    ∧ name e r' = (if decide (n = "") then make_name (m_next_id r + 1) else n)
    ∧ (∀ s, find s e r' =
             Ok (if decide (s ∈ types) then Some (default_value s) else None))
    ∧ (∀ e', e' ≠ e →
         contains e' r' = contains e' r ∧ name e' r' = name e' r
         ∧ ∀ s', find s' e' r' = find s' e' r)
    ∧ wf r' ∧ issued r'.
Proof.
  intros Hwf His Hnd Hov.
  destruct (make_entity_spec types n r Hwf His Hnd Hov)
    as (r1 & Hmk1 & Hwf1 & His1).
  destruct (make_entity_full types n r Hwf His Hnd Hov)
    as (r' & e & Hmk & He & Hnot & Hin & Hsize & Hname & Hfind & Hframe).
  rewrite Hmk in Hmk1. injection Hmk1 as <- _.
  exists r', e. split; [done|]. split; [done|]. split; [done|].
  split; [done|]. split; [done|]. split; [done|]. split; [done|].
  split; [done|]. split; done.
Qed.

(** X4. [destroy e] on a well-formed registry returns whether [e] was
    contained, takes one entity off the count in that case and none
    otherwise, and leaves every other entity as it was: contained or not,
    its name and each of its components, also the one swapped into the row
    of [e]; the registry is well formed. *)
Theorem destroy_keeps_others r e :
  wf r →
  ∃ r', destroy e r = Ok (r', contains e r) ∧ wf r'
    ∧ registry_size r' =
        registry_size r - (if contains e r then 1 else 0)
    ∧ (∀ e', e' ≠ e →
         contains e' r' = contains e' r ∧ name e' r' = name e' r
         ∧ ∀ s', find s' e' r' = find s' e' r).
Proof.
  clear default_value s_name_prefix.
  intros Hwf.
  destruct (destroy_spec r e Hwf) as (r' & Hd & Hwf' & _).
  destruct (destroy_frame r e r' _ Hwf Hd) as [Hsize Hframe].
  exists r'. split; [done|]. split; [done|]. split; done.
Qed.

(** X15. An entity made by [make_entity] and destroyed at once leaves the
    registry as it found it, for all that [contains], [size], [name] and
    [find] tell: [destroy] answers true, and every entity, the destroyed
    one too, is contained or not, named and composed as before the two
    calls. *)
Theorem make_then_destroy types n r r1 e :
  wf r → issued r → NoDup types → (m_next_id r + 1 < 2 ^ 64)%N →
  make_entity types n r = Ok (r1, e) →
  ∃ r2, destroy e r1 = Ok (r2, true)
    ∧ registry_size r2 = registry_size r
    ∧ ∀ e', contains e' r2 = contains e' r ∧ name e' r2 = name e' r
            ∧ ∀ s', find s' e' r2 = find s' e' r.
Proof.
  intros Hwf His Hnd Hov Hmk.
  destruct (make_entity_spec types n r Hwf His Hnd Hov) as (r1' & Hmk' & Hwf1 & _).
  destruct (make_entity_full types n r Hwf His Hnd Hov)
    as (r1'' & e'' & Hmk'' & _ & Hnot & Hin & Hsize & _ & _ & Hframe).
  rewrite Hmk in Hmk', Hmk''. injection Hmk' as <-. injection Hmk'' as <- <-.
  destruct (destroy_spec r1 e Hwf1) as (r2 & Hd & _ & Hrec & _).
  rewrite Hin in Hd.
  destruct (destroy_frame r1 e r2 true Hwf1 Hd) as [Hsz Hothers].
  exists r2. split; [done|]. split; [lia|].
  intros e'. destruct (decide (e' = e)) as [->|Hne].
  - assert (m_records r2 !! e = None) as H2
      by (rewrite Hrec; apply lookup_delete_eq).
    assert (m_records r !! e = None) as H0.
    { apply eq_None_not_Some. by apply bool_decide_eq_false in Hnot. }
    destruct (no_record_queries r2 e H2) as (-> & Hf2 & _).
    destruct (no_record_queries r e H0) as (-> & Hf0 & _).
    split; [done|]. split; [by unfold name; rewrite H2, H0|].
    intros s'. by rewrite Hf2, Hf0.
  - destruct (Hothers e' Hne) as (-> & -> & Hf).
    destruct (Hframe e' Hne) as (-> & -> & Hf').
    split; [done|]. split; [done|]. intros s'. by rewrite Hf, Hf'.
Qed.

(** X16. A registry that starts new and is called with lists of distinct
    types, with handles whose id the counter has reached and away from the
    overflow of the counter, is well formed after every sequence of calls
    that returns, and every entity it contains is a handle [make_entity]
    returned on the way: a non-null handle with the id of the registry. *)
Theorem contained_were_issued ops s_next r' es :
  run_valid ops (@registry_new value s_next).1 →
  run ops (@registry_new value s_next).1 = Ok (r', es) →
  wf r'
  ∧ ∀ e, contains e r' = true →
         e ∈ es ∧ entity_id e ≠ null_id ∧ registry_id e = m_id r'.
Proof.
  intros Hval Hrun.
  set (r0 := (@registry_new value s_next).1) in *.
  assert (wf r0) as Hwf0 by apply wf_registry_new.
  assert (issued r0) as His0 by apply map_Forall_empty.
  assert (nonnull r0) as Hnn0 by apply map_Forall_empty.
  destruct (run_wf ops r0 r' es Hwf0 His0 Hval Hrun) as [Hwf His].
  pose proof (run_nonnull ops r0 r' es Hwf0 His0 Hnn0 Hval Hrun) as Hnn.
  destruct (run_issues ops r0 r' es Hrun) as [Hid _].
  split; [done|]. intros e [rc He]%bool_decide_eq_true.
  pose proof Hwf as (_ & _ & _ & H6).
  pose proof (H6 e rc He) as Hreg. pose proof (His e rc He) as Hle.
  pose proof (Hnn e rc He) as Hpos. simpl in Hreg, Hle, Hpos.
  split; [|split; [unfold null_id; lia|done]].
  apply (run_issued_all ops r0 r' es e Hval Hrun); [congruence|].
  simpl. lia.
Qed.

(** X17. In a well-formed registry [view<Types...>(exclude<Exclude...>)]
    returns, and the entities it lists are exactly those for which
    [all_attached<Types...>] is true and [any_attached<Exclude...>] is
    false. *)
Theorem view_by_attached r types excl :
  wf r →
  ∃ vs, view types excl r = Ok vs
    ∧ ∀ e, e ∈ entity_ <$> vs ↔
           all_attached types e r = Ok true
           ∧ any_attached excl e r = Ok false.
Proof.
  clear default_value s_name_prefix.
  intros (Hok & H2 & H3 & _). unfold view.
  destruct (view_archs_spec types excl (map_to_list (m_map r)))
    with (ret := @nil (@entity_view value)) as (vs & Hvs & Hents & _).
  { apply Forall_forall. intros [k a] Hka. simpl.
    apply elem_of_map_to_list in Hka. exact (Hok k a Hka). }
  exists vs. split; [done|]. intros e. rewrite Hents, elem_of_listed.
  unfold all_attached, any_attached, arch_of, included. split.
  - intros (k & a & Hka & Hinc & He).
    apply elem_of_map_to_list in Hka.
    apply list_elem_of_lookup in He as [i Hi].
    destruct (I3_lookup _ _ _ _ _ H3 Hka Hi) as (rc & -> & -> & _).
    rewrite (deref_Some _ _ _ Hka). simpl.
    apply andb_true_iff in Hinc as [-> Hany].
    apply negb_true_iff in Hany as ->. done.
  - intros [Hall Hany].
    destruct (m_records r !! e) as [rc|] eqn:Hrc; [|done].
    destruct (rec_arch rc) as [k|] eqn:Hrk; [|done].
    destruct (I2_lookup _ _ _ _ H2 Hrc Hrk) as (a & Ha & Hrow).
    rewrite (deref_Some _ _ _ Ha) in Hall, Hany. simpl in Hall, Hany.
    injection Hall as Hall. injection Hany as Hany.
    exists k, a. split; [by apply elem_of_map_to_list|].
    split; [by rewrite Hall, Hany|].
    apply list_elem_of_lookup. eauto.
Qed.

End RegistryProofs.

(** ** The group of systems *)

Section SystemsProofs.

Context {value Data S W : Type}.
Variable update_override :
  @system Data S → @registry value → W → result (S * W).
Variable sort :
  list (sign_t * @entry_t Data S) → list (sign_t * @entry_t Data S).
Hypothesis sort_Permutation : ∀ l, sort l ≡ₚ l.
Hypothesis sort_by_order : ∀ l, by_order (sort l).

Implicit Types (g : @system_group Data S) (en : @entry_t Data S)
  (l : list (sign_t * @entry_t Data S)) (es : gmap sign_t (@entry_t Data S))
  (reg : @registry value) (d : Data) (w : W).

Lemma update_entries_effects reg d (m : gmap sign_t (@entry_t Data S)) l :
  ∀ es w,
    match update_entries update_override reg (SystemGroup (Some d) m) l es w with
    | Ok (_, w') => overrides_in_order update_override reg d l w = Ok w'
    | Err f => overrides_in_order update_override reg d l w = Err f
    end.
Proof.
  induction l as [|ke l IH]; intros es w; simpl; [done|].
  unfold system_update. simpl.
  destruct (update_override _ reg w) as [[st w1]|f]; simpl; [|done].
  apply IH.
Qed.

Lemma update_entries_entries reg d (m : gmap sign_t (@entry_t Data S)) l :
  ∀ es w es' w',
    NoDup l.*1 →
    update_entries update_override reg (SystemGroup (Some d) m) l es w
    = Ok (es', w') →
    (∀ k, k ∉ l.*1 → es' !! k = es !! k)
    ∧ (∀ k en, (k, en) ∈ l →
         ∃ st wa wb,
           update_override (System (Some d) (derived (sys en))) reg wa
           = Ok (st, wb)
           ∧ es' !! k = Some (Entry (System None st) (order en))).
Proof.
  induction l as [|[k0 en0] l IH]; intros es w es' w' Hnd Hup; simpl in *.
  - injection Hup as <- <-. split; [done|]. by intros k en ?%elem_of_nil.
  - apply NoDup_cons in Hnd as [Hk0 Hnd]. unfold system_update in Hup.
    simpl in Hup.
    destruct (update_override _ reg w) as [[st w1]|f] eqn:Hov; simpl in Hup;
      [|done].
    destruct (IH _ _ _ _ Hnd Hup) as [Hout Hin]. split.
    + intros k Hk. apply not_elem_of_cons in Hk as [Hne Hk].
      rewrite Hout by done. by rewrite lookup_insert_ne.
    + intros k en Hken. apply elem_of_cons in Hken as [[= -> ->]|Hken];
        [|by apply Hin].
      exists st, w, w1. split; [done|].
      rewrite Hout by done. apply lookup_insert_eq.
Qed.

Lemma by_order_short l : length l < 2 → by_order l.
Proof.
  destruct l as [|x [|y l]]; simpl; intros H; [| |lia].
  - constructor.
  - by repeat constructor.
Qed.

(** X13. [update(reg, data)] on a group runs the override of every attached
    system exactly once, on the object with [data()] giving [data], in an
    order in which no system comes before one of lower [order]: its effect
    is that of the overrides run in that order, and it fails only where an
    override does, never in the assertion of [data()]. When it returns, the
    systems attached and their orders are as before, each system has the
    state its override left, and the data pointers are null again. *)
Theorem group_update_in_order reg d g w :
  ∃ l, l ≡ₚ map_to_list (m_entries g) ∧ by_order l
    ∧ match group_update update_override sort reg d g w with
      | Ok (g', w') =>
          overrides_in_order update_override reg d l w = Ok w'
          ∧ group_m_data g' = None
          ∧ dom (m_entries g') = dom (m_entries g)
          ∧ (∀ k en, m_entries g !! k = Some en →
               ∃ st wa wb,
                 update_override (System (Some d) (derived (sys en))) reg wa
                 = Ok (st, wb)
                 ∧ m_entries g' !! k
                   = Some (Entry (System None st) (order en)))
      | Err f => overrides_in_order update_override reg d l w = Err f
      end.
Proof.
  set (l0 := map_to_list (m_entries g)).
  set (l := if size (m_entries g) <? 2 then l0 else sort l0).
  assert (l ≡ₚ l0) as Hperm by (unfold l; by destruct (_ <? _)).
  assert (by_order l) as Hsorted.
  { unfold l. destruct (size (m_entries g) <? 2) eqn:Hsz; [|done].
    apply by_order_short. unfold l0. rewrite length_map_to_list.
    by apply Nat.ltb_lt. }
  exists l. split; [done|]. split; [done|].
  unfold group_update, group_update_override. cbn [m_entries group_m_data].
  fold l0. fold l.
  pose proof (update_entries_effects reg d (m_entries g) l (m_entries g) w)
    as Heff.
  destruct (update_entries _ _ _ l _ w) as [[es w']|f] eqn:Hup; simpl; [|done].
  split; [done|]. split; [done|].
  assert (NoDup l.*1) as Hnd.
  { rewrite Hperm. apply NoDup_fst_map_to_list. }
  destruct (update_entries_entries reg d _ l _ _ _ _ Hnd Hup) as [Hout Hin].
  assert (∀ k en, m_entries g !! k = Some en → (k, en) ∈ l) as Hl.
  { intros k en Hk. rewrite Hperm. by apply elem_of_map_to_list. }
  split.
  - apply set_eq. intros k. rewrite !elem_of_dom.
    destruct (m_entries g !! k) as [en|] eqn:Hk.
    + destruct (Hin k en (Hl k en Hk)) as (st & _ & _ & _ & ->).
      split; eauto.
    + rewrite Hout; [by rewrite Hk|].
      intros ((k1 & en) & -> & Hken)%list_elem_of_fmap.
      rewrite Hperm in Hken. apply elem_of_map_to_list in Hken.
      simpl in Hk. congruence.
  - intros k en Hk. exact (Hin k en (Hl k en Hk)).
Qed.

End SystemsProofs.

(** ** The claims on concrete registries *)

Import Example.
Import EarlyHandle.

Ltac by_evaluation :=
  match goal with
  | |- ¬ ?P => apply (bool_decide_eq_false_1 P); vm_compute; reflexivity
  | |- ?P => apply (bool_decide_unpack P); vm_compute; exact I
  end.

(** C1, at the failing input. [e1] has an [int] and no [vec]:
    [detach<vec>(e1)] answers true, and the [int] is gone. The answer is
    false only for a foreign entity, a missing record or a record without
    archetype ([do_detach_false_iff]); the column of the type is not
    looked up ([do_detach_single_type], [do_detach_absent_type_asserts]). *)
Theorem detach_of_absent_type :
  attached Vec e1 one_int = Ok false
  ∧ attached Int e1 one_int = Ok true
  ∧ ∃ r', detach [Vec] e1 one_int = Ok (r', true)
      ∧ attached Int e1 r' = Ok false
      ∧ find Int e1 r' = Ok None.
Proof.
  split; [vm_compute; reflexivity|]. split; [vm_compute; reflexivity|].
  eexists. split; [vm_compute; reflexivity|].
  split; vm_compute; reflexivity.
Qed.

(** C2, at the failing input. [e1] is named "foo" and has an [int] only:
    after [detach<int>(e1)] the entity is still contained and has no
    archetype, and its name is the empty string, since the whole record is
    reset. With a second component the same call keeps the name. *)
Theorem detach_last_component_resets_name :
  name e1 one_int = "foo"
  ∧ (∃ r', detach [Int] e1 one_int = Ok (r', true)
       ∧ contains e1 r' = true
       ∧ rec_arch <$> m_records r' !! e1 = Some None
       ∧ name e1 r' = "")
  ∧ (∃ r', detach [Int] e1 one_pair = Ok (r', true)
       ∧ name e1 r' = "foo").
Proof.
  split; [vm_compute; reflexivity|]. split.
  - eexists. split; [vm_compute; reflexivity|].
    repeat split; vm_compute; reflexivity.
  - eexists. split; [vm_compute; reflexivity|]. vm_compute; reflexivity.
Qed.

(** C3, on [one_int]: the [int] of [e1] is assigned 5. *)
Lemma attach_overwrites_in_place_witness :
  attach_pre e1 one_int ∧ find Int e1 one_int = Ok (Some 0%Z)
  ∧ ∃ r', attach Int e1 5%Z one_int = Ok (r', 5%Z)
      ∧ get Int e1 r' = Ok 5%Z
      ∧ m_records r' = m_records one_int.
Proof.
  assert (attach_pre e1 one_int) as Hpre by (split; reflexivity).
  assert (find Int e1 one_int = Ok (Some 0%Z)) as Hf by (vm_compute; reflexivity).
  split; [exact Hpre|]. split; [exact Hf|].
  destruct (attach_overwrites_in_place one_int Int e1 0%Z 5%Z Hpre Hf)
    as (r' & H1 & H2 & H3 & _).
  exists r'. auto.
Defined.

(** C4 as stated fails. The calls of [early_handle_calls] lead to a registry
    in which I2 holds, with I1, I3 in the words of the spec, I4 and I6; it
    has the handle [e3] in a row of the [int] archetype and its record on
    the [string] archetype, since [attach] took the handle before
    [make_entity] issued it. [detach<int>(e2)] then
    swaps [e3] into the vacated row 0 and re-indexes its record, which
    points to the [string] archetype, whose row 0 holds [e1]: I2 is lost. *)
Lemma detach_breaks_I2 :
  ∃ es r', run dflt prefix early_handle_calls fresh = Ok (early_handle, es)
    ∧ (archs_ok early_handle ∧ I2 early_handle ∧ I3_spec early_handle
       ∧ I6 early_handle)
    ∧ step dflt prefix (OpDetach [Int] e2) early_handle = Ok (r', None)
    ∧ ¬ I2 r'.
Proof.
  eexists. eexists. split; [vm_compute; reflexivity|].
  split; [split; [|split; [|split]]; by_evaluation|].
  split; [vm_compute; reflexivity|].
  by_evaluation.
Qed.

(** C4, on [two_pairs]: [detach<int>(e1)] vacates row 0, [e2] is swapped
    into it and re-indexed. *)
Lemma invariants_preserved_witness :
  wf two_pairs ∧ issued two_pairs
  ∧ step dflt prefix (OpDetach [Int] e1) two_pairs = Ok (two_pairs_detached, None)
  ∧ I2 two_pairs_detached ∧ wf two_pairs_detached ∧ issued two_pairs_detached.
Proof.
  assert (wf two_pairs) as Hwf by by_evaluation.
  assert (issued two_pairs) as His by by_evaluation.
  assert (step dflt prefix (OpDetach [Int] e1) two_pairs
          = Ok (two_pairs_detached, None)) as Hstep by (vm_compute; reflexivity).
  split; [exact Hwf|]. split; [exact His|]. split; [exact Hstep|].
  exact (invariants_preserved dflt prefix (OpDetach [Int] e1) two_pairs
           two_pairs_detached None Hwf His I Hstep).
Defined.

(** C5 as stated fails. The calls of [listed_twice_calls] lead to a
    registry in which I1, I2, I3 in the words of the spec and I6 hold; the
    handle [e3], attached to before [make_entity] issued it, has a row in
    the [int] archetype and, with its record, a row in the archetype of
    [int] and [string]: [view<int>()] lists it twice. And in the well-formed
    [two_pairs] the entity [e3] has no component, so that its component set
    includes the empty list of required types and has no [vec]:
    [view<>(exclude<vec>)] does not list it, since it is in no archetype. *)
Lemma view_lists_twice :
  ∃ es vs vs',
    run dflt prefix listed_twice_calls fresh = Ok (listed_twice, es)
    ∧ (archs_ok listed_twice ∧ I2 listed_twice ∧ I3_spec listed_twice
       ∧ I6 listed_twice)
    ∧ view [Int] [] listed_twice = Ok vs
    ∧ entity_ <$> vs = [e3; e2; e3]
    ∧ wf two_pairs
    ∧ contains e3 two_pairs = true
    ∧ attached Vec e3 two_pairs = Ok false
    ∧ view [] [Vec] two_pairs = Ok vs'
    ∧ entity_ <$> vs' = [e1; e2].
Proof.
  eexists _, _, _. split; [vm_compute; reflexivity|].
  split; [split; [|split; [|split]]; by_evaluation|].
  split; [vm_compute; reflexivity|]. split; [vm_compute; reflexivity|].
  split; [by_evaluation|].
  repeat split; vm_compute; reflexivity.
Qed.

(** C5, on [two_pairs]: the view of [int] without [vec]. *)
Lemma view_lists_matching_entities_witness :
  wf two_pairs
  ∧ ∃ vs, view [Int] [Vec] two_pairs = Ok vs
      ∧ entity_ <$> vs = listed [Int] [Vec] (map_to_list (m_map two_pairs))
      ∧ NoDup (entity_ <$> vs).
Proof.
  assert (wf two_pairs) as Hwf by by_evaluation.
  split; [exact Hwf|].
  destruct (view_lists_matching_entities two_pairs [Int] [Vec] Hwf)
    as (vs & H1 & H2 & H3 & _).
  exists vs. auto.
Defined.

(** C6 as stated fails. In [early_handle], reached by the calls of
    [early_handle_calls] and in which I1, I2, I3 in the words of the spec
    and I6 hold, the handle [e3] has a row in the [int] archetype and its
    record on the [string] archetype. [destroy(e3)] returns true and removes
    the record with the [string] row; the [int] row of [e3] stays, and
    [view<int>()] still lists [e3]. [destroy(e2)], of an entity that has a
    record, does not return true: it swaps [e3] into the row of [e2] and
    fails the assertion of [send_to_back] on the archetype of its record. *)
Lemma destroy_leaves_row :
  ∃ es r' a vs,
    run dflt prefix early_handle_calls fresh = Ok (early_handle, es)
    ∧ (archs_ok early_handle ∧ I2 early_handle ∧ I3_spec early_handle
       ∧ I6 early_handle)
    ∧ destroy e3 early_handle = Ok (r', true)
    ∧ contains e3 r' = false
    ∧ m_map r' !! [Int] = Some a
    ∧ arch_entities a = [e2; e3]
    ∧ view [Int] [] r' = Ok vs
    ∧ entity_ <$> vs = [e2; e3]
    ∧ contains e2 early_handle = true
    ∧ destroy e2 early_handle = Err AssertionFailed.
Proof.
  eexists _, _, _, _. split; [vm_compute; reflexivity|].
  split; [split; [|split; [|split]]; by_evaluation|].
  split; [vm_compute; reflexivity|].
  repeat split; vm_compute; reflexivity.
Qed.

(** C6, on [two_pairs]: [e1] is destroyed. *)
Lemma destroy_removes_entity_witness :
  wf two_pairs
  ∧ ∃ r', destroy e1 two_pairs = Ok (r', contains e1 two_pairs)
      ∧ contains e1 r' = false.
Proof.
  assert (wf two_pairs) as Hwf by by_evaluation.
  split; [exact Hwf|].
  destruct (destroy_removes_entity two_pairs e1 Hwf) as (r' & H1 & H2 & _).
  exists r'. auto.
Defined.

(** C7 as stated fails. The calls of [stale_row_calls] all return. The
    handle [e3], attached to before [make_entity] issued it, has row 2 of
    the [int] archetype and its record on row 0 of the [string] archetype;
    [detach<int>(e2)] swaps it into row 1 and sets the row of its record
    to 1, while the [string] archetype has one row. Then [attached<string>]
    and [all_attached<string>] of [e3] are true, and [find<string>(e3)]
    does not return a component: [vector::at] is out of range. *)
Lemma find_out_of_range :
  ∃ es, run dflt prefix stale_row_calls fresh = Ok (stale_row, es)
    ∧ contains e3 stale_row = true
    ∧ attached Str e3 stale_row = Ok true
    ∧ all_attached [Str] e3 stale_row = Ok true
    ∧ find Str e3 stale_row = Err OutOfRange.
Proof.
  eexists. split; [vm_compute; reflexivity|].
  repeat split; vm_compute; reflexivity.
Qed.

(** C7, on [two_pairs], for the [int] of [e1]. *)
Lemma find_attached_all_attached_agree_witness :
  wf two_pairs
  ∧ ∃ o b, find Int e1 two_pairs = Ok o ∧ attached Int e1 two_pairs = Ok b
      ∧ all_attached [Int] e1 two_pairs = Ok b ∧ (is_Some o ↔ b = true).
Proof.
  assert (wf two_pairs) as Hwf by by_evaluation.
  split; [exact Hwf|].
  destruct (find_attached_all_attached_agree two_pairs Int e1 Hwf)
    as (o & b & H1 & H2 & H3 & H4 & _).
  exists o, b. auto.
Defined.

(** C8, on [two_pairs]: after [clear] the next entity has id 4. *)
Lemma clear_keeps_counter_witness :
  NoDup [Int] ∧ (m_next_id two_pairs + 1 < 2 ^ 64)%N
  ∧ ∃ r', make_entity dflt prefix [Int] "" (clear two_pairs)
          = Ok (r', Entity (m_next_id two_pairs + 1) (m_id two_pairs))
      ∧ m_next_id r' = (m_next_id two_pairs + 1)%N.
Proof.
  assert (NoDup [Int]) as Hnd by by_evaluation.
  assert (m_next_id two_pairs + 1 < 2 ^ 64)%N as Hov by (vm_compute; reflexivity).
  split; [exact Hnd|]. split; [exact Hov|].
  destruct (clear_keeps_counter dflt prefix two_pairs)
    as (_ & _ & _ & _ & _ & Hmake & _).
  exact (Hmake [Int] "" Hnd Hov).
Defined.

(** C9 as stated fails. In [early_handle], reached by the calls of
    [early_handle_calls] and in which I1, I2, I3 in the words of the spec
    and I6 hold, [e2] is a non-null entity of the registry, and contained:
    [attach<vec>(e2, 9)] swaps [e3] into its row and fails the assertion of
    [send_to_back]. In [stale_row], reached by the calls of
    [stale_row_calls], [e3] is a non-null entity of the registry with a
    [string] attached, and [get<string>(e3)] does not return it. *)
Lemma attach_asserts_after_early_handle :
  ∃ es es',
    run dflt prefix early_handle_calls fresh = Ok (early_handle, es)
    ∧ (archs_ok early_handle ∧ I2 early_handle ∧ I3_spec early_handle
       ∧ I6 early_handle)
    ∧ attach_pre e2 early_handle
    ∧ contains e2 early_handle = true
    ∧ attach Vec e2 9%Z early_handle = Err AssertionFailed
    ∧ run dflt prefix stale_row_calls fresh = Ok (stale_row, es')
    ∧ attach_pre e3 stale_row
    ∧ attached Str e3 stale_row = Ok true
    ∧ get Str e3 stale_row = Err OutOfRange.
Proof.
  eexists _, _. split; [vm_compute; reflexivity|].
  split; [split; [|split; [|split]]; by_evaluation|].
  split; [split; reflexivity|].
  split; [vm_compute; reflexivity|]. split; [vm_compute; reflexivity|].
  split; [vm_compute; reflexivity|].
  split; [split; reflexivity|].
  split; vm_compute; reflexivity.
Qed.

(** C9, on [two_pairs], for the [string] of [e1]. *)
Lemma assertions_of_attach_and_get_witness :
  wf two_pairs ∧ attach_pre e1 two_pairs
  ∧ attached Str e1 two_pairs = Ok true
  ∧ (∀ t, ∃ r', attach Str e1 t two_pairs = Ok (r', t))
  ∧ ∃ v, get Str e1 two_pairs = Ok v.
Proof.
  assert (wf two_pairs) as Hwf by by_evaluation.
  assert (attach_pre e1 two_pairs) as Hpre by (split; reflexivity).
  assert (attached Str e1 two_pairs = Ok true) as Hatt by (vm_compute; reflexivity).
  split; [exact Hwf|]. split; [exact Hpre|]. split; [exact Hatt|].
  destruct (assertions_of_attach_and_get two_pairs Str e1) as (_ & _ & _ & H).
  destruct (H Hwf Hpre) as [H1 H2]. split; [exact H1|exact (H2 Hatt)].
Defined.

(** C10, on [two_pairs]: a [vec] is attached to the handle [e9]. *)
Lemma attach_creates_record_witness :
  wf two_pairs ∧ attach_pre e9 two_pairs ∧ m_records two_pairs !! e9 = None
  ∧ ∃ r', attach Vec e9 7%Z two_pairs = Ok (r', 7%Z)
      ∧ contains e9 r' = true
      ∧ registry_size r' = S (registry_size two_pairs)
      ∧ get Vec e9 r' = Ok 7%Z
      ∧ name e9 r' = "".
Proof.
  assert (wf two_pairs) as Hwf by by_evaluation.
  assert (attach_pre e9 two_pairs) as Hpre by (split; reflexivity).
  assert (m_records two_pairs !! e9 = None) as He by (vm_compute; reflexivity).
  split; [exact Hwf|]. split; [exact Hpre|]. split; [exact He|].
  exact (attach_creates_record two_pairs Vec e9 7%Z Hwf Hpre He).
Defined.

(** ** The further properties on concrete registries *)

(** X1, on [two_pairs]: a [vec] is attached to [e1], whose row moves to
    another archetype while [e2] is swapped into row 0. *)
Lemma attach_changes_nothing_else_witness :
  wf two_pairs ∧ attach_pre e1 two_pairs
  ∧ ∃ r', attach Vec e1 7%Z two_pairs = Ok (r', 7%Z) ∧ wf r'
      ∧ find Vec e1 r' = Ok (Some 7%Z)
      ∧ (∀ s' e', (s', e') ≠ (Vec, e1) →
           find s' e' r' = find s' e' two_pairs)
      ∧ (∀ e', name e' r' = name e' two_pairs).
Proof.
  assert (wf two_pairs) as Hwf by by_evaluation.
  assert (attach_pre e1 two_pairs) as Hpre by (split; reflexivity).
  split; [exact Hwf|]. split; [exact Hpre|].
  destruct (attach_changes_nothing_else two_pairs Vec e1 7%Z Hwf Hpre)
    as (r' & H1 & H2 & H3 & H4 & H5 & _).
  exists r'. auto.
Defined.

(** X2, on [two_pairs]: the [int] of [e1] is detached. *)
Lemma do_detach_removes_only_witness :
  wf two_pairs ∧ attached Int e1 two_pairs = Ok true
  ∧ ∃ r', do_detach Int e1 two_pairs = Ok (r', true) ∧ wf r'
      ∧ find Int e1 r' = Ok None
      ∧ (∀ s' e', (s', e') ≠ (Int, e1) →
           find s' e' r' = find s' e' two_pairs).
Proof.
  assert (wf two_pairs) as Hwf by by_evaluation.
  assert (attached Int e1 two_pairs = Ok true) as Hatt
    by (vm_compute; reflexivity).
  split; [exact Hwf|]. split; [exact Hatt|].
  destruct (do_detach_removes_only two_pairs Int e1 Hwf Hatt)
    as (r' & H1 & H2 & H3 & H4 & _).
  exists r'. auto.
Defined.

(** X3, on [two_pairs]: the fourth entity is made with a [vec] and no
    name. *)
Lemma make_entity_new_entity_witness :
  wf two_pairs ∧ issued two_pairs ∧ NoDup [Vec]
  ∧ (m_next_id two_pairs + 1 < 2 ^ 64)%N
  ∧ ∃ r' e, make_entity dflt prefix [Vec] "" two_pairs = Ok (r', e)
      ∧ e = Entity (m_next_id two_pairs + 1) (m_id two_pairs)
      ∧ contains e two_pairs = false ∧ contains e r' = true
      ∧ registry_size r' = S (registry_size two_pairs).
Proof.
  assert (wf two_pairs) as Hwf by by_evaluation.
  assert (issued two_pairs) as His by by_evaluation.
  assert (NoDup [Vec]) as Hnd by by_evaluation.
  assert (m_next_id two_pairs + 1 < 2 ^ 64)%N as Hov by (vm_compute; reflexivity).
  split; [exact Hwf|]. split; [exact His|]. split; [exact Hnd|].
  split; [exact Hov|].
  destruct (make_entity_new_entity dflt prefix [Vec] "" two_pairs Hwf His Hnd Hov)
    as (r' & e & H1 & H2 & H3 & H4 & H5 & _).
  exists r', e. auto.
Defined.

(** X4, on [two_pairs]: [e1] is destroyed, [e2] is swapped into its row. *)
Lemma destroy_keeps_others_witness :
  wf two_pairs
  ∧ ∃ r', destroy e1 two_pairs = Ok (r', contains e1 two_pairs) ∧ wf r'
      ∧ registry_size r' =
          registry_size two_pairs - (if contains e1 two_pairs then 1 else 0)
      ∧ (∀ e', e' ≠ e1 →
           contains e' r' = contains e' two_pairs
           ∧ name e' r' = name e' two_pairs
           ∧ ∀ s', find s' e' r' = find s' e' two_pairs).
Proof.
  assert (wf two_pairs) as Hwf by by_evaluation.
  split; [exact Hwf|].
  exact (destroy_keeps_others two_pairs e1 Hwf).
Defined.

(** X5, on [two_pairs]: the [int] and the [string] of [e1] are detached
    in one call. *)
Lemma detach_removes_all_witness :
  wf two_pairs ∧ NoDup [Int; Str]
  ∧ (∀ s, s ∈ [Int; Str] → attached s e1 two_pairs = Ok true)
  ∧ ∃ r', detach [Int; Str] e1 two_pairs = Ok (r', true) ∧ wf r'
      ∧ (∀ s, s ∈ [Int; Str] → find s e1 r' = Ok None)
      ∧ (∀ s' e', ¬ (s' ∈ [Int; Str] ∧ e' = e1) →
           find s' e' r' = find s' e' two_pairs).
Proof.
  assert (wf two_pairs) as Hwf by by_evaluation.
  assert (NoDup [Int; Str]) as Hnd by by_evaluation.
  assert (∀ s, s ∈ [Int; Str] → attached s e1 two_pairs = Ok true) as Hall.
  { intros s Hs. apply elem_of_cons in Hs as [->|Hs]; [vm_compute; reflexivity|].
    apply list_elem_of_singleton in Hs as ->. vm_compute; reflexivity. }
  split; [exact Hwf|]. split; [exact Hnd|]. split; [exact Hall|].
  exact (detach_removes_all [Int; Str] two_pairs e1 Hwf Hnd Hall).
Defined.

(** X8, on [two_pairs]: [e1] has an [int] and no [vec]. *)
Lemma all_any_attached_by_type_witness :
  wf two_pairs ∧ [Int; Vec] ≠ []
  ∧ ∃ ball bany,
      all_attached [Int; Vec] e1 two_pairs = Ok ball
      ∧ any_attached [Int; Vec] e1 two_pairs = Ok bany
      ∧ (ball = true ↔ ∀ s, s ∈ [Int; Vec] → attached s e1 two_pairs = Ok true)
      ∧ (bany = true ↔ ∃ s, s ∈ [Int; Vec] ∧ attached s e1 two_pairs = Ok true).
Proof.
  assert (wf two_pairs) as Hwf by by_evaluation.
  assert ([Int; Vec] ≠ []) as Hne by discriminate.
  split; [exact Hwf|]. split; [exact Hne|].
  exact (all_any_attached_by_type two_pairs [Int; Vec] e1 Hwf Hne).
Defined.

(** X9, on [two_pairs]: [attach<string, vec>(e2)]; [e2] had a [string]. *)
Lemma attach_all_attaches_defaults_witness :
  wf two_pairs ∧ attach_pre e2 two_pairs
  ∧ ∃ r', attach_all dflt [Str; Vec] e2 two_pairs = Ok r' ∧ wf r'
      ∧ (∀ s, s ∈ [Str; Vec] → find s e2 r' = Ok (Some (dflt s)))
      ∧ (∀ s' e', ¬ (s' ∈ [Str; Vec] ∧ e' = e2) →
           find s' e' r' = find s' e' two_pairs).
Proof.
  assert (wf two_pairs) as Hwf by by_evaluation.
  assert (attach_pre e2 two_pairs) as Hpre by (split; reflexivity).
  split; [exact Hwf|]. split; [exact Hpre|].
  destruct (attach_all_attaches_defaults dflt [Str; Vec] two_pairs e2 Hwf Hpre)
    as (r' & H1 & H2 & H3 & H4 & _).
  exists r'. auto.
Defined.

(** X10, on [two_pairs]: a handle of the registry 2. *)
Lemma foreign_entity_unknown_witness :
  wf two_pairs ∧ registry_id (Entity 1 2) ≠ m_id two_pairs
  ∧ contains (Entity 1 2) two_pairs = false
  ∧ destroy (Entity 1 2) two_pairs = Ok (two_pairs, false)
  ∧ (∀ s t, attach s (Entity 1 2) t two_pairs = Err AssertionFailed).
Proof.
  assert (wf two_pairs) as Hwf by by_evaluation.
  assert (registry_id (Entity 1 2) ≠ m_id two_pairs) as Hne by discriminate.
  split; [exact Hwf|]. split; [exact Hne|].
  destruct (foreign_entity_unknown two_pairs (Entity 1 2) Hwf Hne)
    as (H1 & _ & _ & H2 & _ & H3).
  auto.
Defined.

(** X11, on [two_pairs]: a [vec] is attached to [e1] and detached. *)
Lemma attach_then_detach_witness :
  wf two_pairs ∧ attached Vec e1 two_pairs = Ok false
  ∧ ∃ r1 r2, attach Vec e1 7%Z two_pairs = Ok (r1, 7%Z)
      ∧ do_detach Vec e1 r1 = Ok (r2, true) ∧ wf r2
      ∧ ∀ s' e', find s' e' r2 = find s' e' two_pairs.
Proof.
  assert (wf two_pairs) as Hwf by by_evaluation.
  assert (attached Vec e1 two_pairs = Ok false) as Hnot
    by (vm_compute; reflexivity).
  assert (attach Vec e1 7%Z two_pairs
          = Ok (state_after (attach Vec e1 7%Z two_pairs), 7%Z)) as Hatt
    by (vm_compute; reflexivity).
  split; [exact Hwf|]. split; [exact Hnot|].
  destruct (attach_then_detach two_pairs Vec e1 7%Z _ _ Hwf Hnot Hatt)
    as (r2 & H1 & H2 & H3).
  eexists _, r2. split; [exact Hatt|]. auto.
Defined.

(** X12, on [two_pairs]. *)
Lemma hasher_inj_in_registry_witness :
  wf two_pairs ∧ contains e1 two_pairs = true
  ∧ hasher e1 = hasher (Entity 1 1) ∧ e1 = Entity 1 1.
Proof.
  assert (wf two_pairs) as Hwf by by_evaluation.
  assert (contains e1 two_pairs = true) as Hc by (vm_compute; reflexivity).
  assert (hasher e1 = hasher (Entity 1 1)) as Hh by reflexivity.
  split; [exact Hwf|]. split; [exact Hc|]. split; [exact Hh|].
  exact (hasher_inj_in_registry two_pairs e1 (Entity 1 1) Hwf Hc Hc Hh).
Defined.

(** X14, on [one_int]: [e1] loses its [int] and is destroyed; the registry
    is empty and the archetype of [int] is still in the map. *)
Lemma archetypes_stay_witness :
  OpClear ∉ ([OpDetach [Int] e1; OpDestroy e1] : list (@op Z))
  ∧ ∃ r' es, run dflt prefix [OpDetach [Int] e1; OpDestroy e1] one_int
             = Ok (r', es)
      ∧ registry_empty r' = true
      ∧ dom (m_map one_int) ⊆ dom (m_map r').
Proof.
  assert (OpClear ∉ ([OpDetach [Int] e1; OpDestroy e1] : list (@op Z))) as Hno.
  { intros H. apply elem_of_cons in H as [H|H]; [discriminate|].
    apply list_elem_of_singleton in H. discriminate. }
  assert (run dflt prefix [OpDetach [Int] e1; OpDestroy e1] one_int
          = Ok (state_after
                  (run dflt prefix [OpDetach [Int] e1; OpDestroy e1] one_int),
                [])) as Hrun
    by (vm_compute; reflexivity).
  split; [exact Hno|]. eexists _, _. split; [exact Hrun|].
  split; [vm_compute; reflexivity|].
  exact (archetypes_stay dflt prefix _ one_int _ _ Hno Hrun).
Defined.

(** X15, on [two_pairs]: the fourth entity is made with a [vec] and
    destroyed. *)
Lemma make_then_destroy_witness :
  wf two_pairs ∧ issued two_pairs ∧ NoDup [Vec]
  ∧ (m_next_id two_pairs + 1 < 2 ^ 64)%N
  ∧ ∃ r1 r2, make_entity dflt prefix [Vec] "" two_pairs = Ok (r1, Entity 4 1)
      ∧ destroy (Entity 4 1) r1 = Ok (r2, true)
      ∧ registry_size r2 = registry_size two_pairs
      ∧ ∀ e', contains e' r2 = contains e' two_pairs
              ∧ name e' r2 = name e' two_pairs
              ∧ ∀ s', find s' e' r2 = find s' e' two_pairs.
Proof.
  assert (wf two_pairs) as Hwf by by_evaluation.
  assert (issued two_pairs) as His by by_evaluation.
  assert (NoDup [Vec]) as Hnd by by_evaluation.
  assert (m_next_id two_pairs + 1 < 2 ^ 64)%N as Hov by (vm_compute; reflexivity).
  assert (make_entity dflt prefix [Vec] "" two_pairs
          = Ok (state_after (make_entity dflt prefix [Vec] "" two_pairs),
                Entity 4 1)) as Hmk
    by (vm_compute; reflexivity).
  split; [exact Hwf|]. split; [exact His|]. split; [exact Hnd|].
  split; [exact Hov|].
  destruct (make_then_destroy dflt prefix [Vec] "" two_pairs _ _
              Hwf His Hnd Hov Hmk) as (r2 & H1 & H2 & H3).
  eexists _, r2. split; [exact Hmk|]. auto.
Defined.

(** ** The group of systems on a concrete group *)

Import SystemExample.

Lemma sort_entries_Permutation l : sort_entries l ≡ₚ l.
Proof. apply merge_sort_Permutation. Qed.

Lemma sort_entries_by_order l : by_order (sort_entries l).
Proof.
  assert (Total (λ x y : N * @entry_t Z Z, (order x.2 ≤ order y.2)%Z))
    by (intros x y; lia).
  by apply Sorted_merge_sort.
Qed.

(** X13, on [three]: the systems of orders 2, 0 and 1, with the counters
    10, 20 and 30, are updated with the data 5; the log has the counters in
    the order in which the overrides ran. *)
Lemma group_update_in_order_witness :
  (∃ g', group_update bump sort_entries fresh 5%Z three []
         = Ok (g', [20; 30; 10]%Z))
  ∧ ∃ l, l ≡ₚ map_to_list (m_entries three) ∧ by_order l
      ∧ match group_update bump sort_entries fresh 5%Z three [] with
        | Ok (g', w') =>
            overrides_in_order bump fresh 5%Z l [] = Ok w'
            ∧ group_m_data g' = None
            ∧ dom (m_entries g') = dom (m_entries three)
        | Err f => overrides_in_order bump fresh 5%Z l [] = Err f
        end.
Proof.
  split; [eexists; vm_compute; reflexivity|].
  destruct (group_update_in_order bump sort_entries sort_entries_Permutation
              sort_entries_by_order fresh 5%Z three [])
    as (l & H1 & H2 & H3).
  exists l. split; [exact H1|]. split; [exact H2|].
  destruct (group_update bump sort_entries fresh 5%Z three [])
    as [[g' w']|f]; [|exact H3].
  destruct H3 as (H4 & H5 & H6 & _). auto.
Defined.

(** X16, on the calls that make [two_pairs] and then destroy [e2]. *)
Lemma contained_were_issued_witness :
  ∃ r', run dflt prefix
          [OpMakeEntity [Int; Str] ""; OpMakeEntity [Int; Str] "";
           OpMakeEntity [] ""; OpDestroy e2] (registry_new 0).1
        = Ok (r', [e1; e2; e3])
    ∧ wf r'
    ∧ ∀ e, contains e r' = true →
           e ∈ [e1; e2; e3] ∧ entity_id e ≠ null_id ∧ registry_id e = m_id r'.
Proof.
  assert (run_valid dflt prefix
            [OpMakeEntity [Int; Str] ""; OpMakeEntity [Int; Str] "";
             OpMakeEntity [] ""; OpDestroy e2] (@registry_new Z 0).1) as Hval.
  { simpl. repeat split; try by_evaluation; vm_compute; reflexivity. }
  assert (run dflt prefix
            [OpMakeEntity [Int; Str] ""; OpMakeEntity [Int; Str] "";
             OpMakeEntity [] ""; OpDestroy e2] (registry_new 0).1
          = Ok (state_after (run dflt prefix
                  [OpMakeEntity [Int; Str] ""; OpMakeEntity [Int; Str] "";
                   OpMakeEntity [] ""; OpDestroy e2] (registry_new 0).1),
                [e1; e2; e3])) as Hrun
    by (vm_compute; reflexivity).
  eexists. split; [exact Hrun|].
  exact (contained_were_issued dflt prefix _ 0%N _ _ Hval Hrun).
Defined.

(** X17, on [two_pairs]: the view of [int] without [vec]. *)
Lemma view_by_attached_witness :
  wf two_pairs
  ∧ ∃ vs, view [Int] [Vec] two_pairs = Ok vs
      ∧ ∀ e, e ∈ entity_ <$> vs ↔
             all_attached [Int] e two_pairs = Ok true
             ∧ any_attached [Vec] e two_pairs = Ok false.
Proof.
  assert (wf two_pairs) as Hwf by by_evaluation.
  split; [exact Hwf|].
  exact (view_by_attached two_pairs [Int] [Vec] Hwf).
Defined.
